(** * Gemini automation server: response acquisition and recovery

    A shallow embedding of [server.js]: the JSON cleaning function
    [cleanJsonResponse], the completion detector inside [waitForResponse],
    and the request coordinator [sendToGemini] with the
    [/api/generate-mcqs], [/api/pause] and [/api/resume] handlers.

    JavaScript strings are sequences of UTF-16 code units and are modelled
    as [list N].  Asynchronous code is modelled by an explicit event loop:
    every event runs one synchronous segment of the source (from one
    [await] to the next) to completion on a state record. *)

From Stdlib Require Import ZArith NArith Ascii String Lia.
From stdpp Require Import gmap list.

Local Open Scope N_scope.

(** ** JavaScript strings *)

Module JsString.

(** Code units of a literal written in ASCII. *)
Fixpoint js (s : string) : list N :=
  match s with
  | EmptyString => []
  | String a r => N_of_ascii a :: js r
  end.

(** Same, with every apostrophe of the literal standing for a double
    quote (code unit 34), so that JSON texts can be written down. *)
Definition jq (s : string) : list N :=
  map (fun c => if c =? 39 then 34 else c) (js s).

(** [WhiteSpace] and [LineTerminator] of ECMAScript: what [\s] matches
    and what [String.prototype.trim] strips. *)
Definition is_whitespace (c : N) : bool :=
  ((9 <=? c) && (c <=? 13)) || (c =? 32) || (c =? 160) || (c =? 5760)
  || ((8192 <=? c) && (c <=? 8202)) || (c =? 8232) || (c =? 8233)
  || (c =? 8239) || (c =? 8287) || (c =? 12288) || (c =? 65279).

Fixpoint starts_with (p s : list N) : bool :=
  match p, s with
  | [], _ => true
  | a :: p', b :: s' => (a =? b) && starts_with p' s'
  | _ :: _, [] => false
  end.

(** Canonicalisation of the [i] flag without the [u] flag: only the ASCII
    letters fold onto ASCII letters. *)
Definition to_lower_ascii (c : N) : N :=
  if (65 <=? c) && (c <=? 90) then c + 32 else c.

Fixpoint starts_with_ci (p s : list N) : bool :=
  match p, s with
  | [], _ => true
  | a :: p', b :: s' =>
      (to_lower_ascii a =? to_lower_ascii b) && starts_with_ci p' s'
  | _ :: _, [] => false
  end.

Fixpoint drop_while (f : N -> bool) (s : list N) : list N :=
  match s with
  | [] => []
  | c :: r => if f c then drop_while f r else s
  end.

Fixpoint span_length (f : N -> bool) (s : list N) : nat :=
  match s with
  | [] => O
  | c :: r => if f c then S (span_length f r) else O
  end.

(** [s.indexOf(c)] for a one-character needle; -1 when absent. *)
Fixpoint indexOf_from (c : N) (s : list N) (i : Z) : Z :=
  match s with
  | [] => (-1)%Z
  | x :: r => if x =? c then i else indexOf_from c r (i + 1)%Z
  end.

Definition indexOf (c : N) (s : list N) : Z := indexOf_from c s 0%Z.

(** [s.lastIndexOf(c)]; -1 when absent. *)
Fixpoint lastIndexOf_from (c : N) (s : list N) (i last : Z) : Z :=
  match s with
  | [] => last
  | x :: r => lastIndexOf_from c r (i + 1)%Z (if x =? c then i else last)
  end.

Definition lastIndexOf (c : N) (s : list N) : Z :=
  lastIndexOf_from c s 0%Z (-1)%Z.

(** [s.substring(a, b)]: both ends are clamped to [0, length] and swapped
    when out of order. *)
Definition clamp (s : list N) (i : Z) : nat :=
  Z.to_nat (Z.min (Z.max i 0) (Z.of_nat (length s))).

Definition substring (s : list N) (a b : Z) : list N :=
  let x := clamp s a in
  let y := clamp s b in
  take (Nat.max x y - Nat.min x y) (drop (Nat.min x y) s).

(** [s.substring(a)] *)
Definition substring_from (s : list N) (a : Z) : list N :=
  substring s a (Z.of_nat (length s)).

(** [s.trim()] *)
Definition trim (s : list N) : list N :=
  rev (drop_while is_whitespace (rev (drop_while is_whitespace s))).

(** [s.replace(/re/g, r)].  The regular expression is given by its
    matcher: [m t] is the length of the match that starts at the head of
    [t], if there is one.  The scan goes left to right and resumes after
    each match; none of the expressions of this program matches the empty
    string. *)
Fixpoint replace_go (m : list N -> option nat) (r : list N)
    (skip : nat) (s : list N) : list N :=
  match s with
  | [] => []
  | c :: rest =>
      match skip with
      | S k => replace_go m r k rest
      | O =>
          match m s with
          | Some (S k) => r ++ replace_go m r k rest
          | _ => c :: replace_go m r O rest
          end
      end
  end.

Definition replace_all (m : list N -> option nat) (r s : list N) : list N :=
  replace_go m r O s.

(** Whether the expression matches somewhere in [s]. *)
Fixpoint occurs (m : list N -> option nat) (s : list N) : bool :=
  match s with
  | [] => false
  | _ :: rest =>
      match m s with
      | Some (S _) => true
      | _ => occurs m rest
      end
  end.

(** A match at the head of a text is still a match when the text goes
    on. *)
Definition prefix_stable (m : list N -> option nat) : Prop :=
  forall x y n, m x = Some (S n) -> exists n', m (x ++ y) = Some (S n').

(** A literal pattern. *)
Definition match_lit (p : list N) (s : list N) : option nat :=
  if starts_with p s then Some (length p) else None.

End JsString.

Import JsString.

(** ** [JSON.parse] *)

Module Json.

#[local] Set Warnings "-register-all".

(** Parsed values.  A number keeps its lexeme and an object keeps its
    members in source order: equality of these trees is finer than
    equality of the JavaScript values. *)
Inductive json : Type :=
  | JNull
  | JBool (b : bool)
  | JNumber (lexeme : list N)
  | JString (s : list N)
  | JArray (elements : list json)
  | JObject (members : list (list N * json)).

Inductive presult (A : Type) : Type :=
  | POk (a : A)
  | PSyntaxError
  | PFuel.
Arguments POk {A} a.
Arguments PSyntaxError {A}.
Arguments PFuel {A}.

Definition is_json_ws (c : N) : bool :=
  (c =? 9) || (c =? 10) || (c =? 13) || (c =? 32).

Definition skip_ws (s : list N) : list N := drop_while is_json_ws s.

Definition is_digit (c : N) : bool := (48 <=? c) && (c <=? 57).

Definition hex_value (c : N) : option N :=
  if is_digit c then Some (c - 48)
  else if (97 <=? c) && (c <=? 102) then Some (c - 87)
  else if (65 <=? c) && (c <=? 70) then Some (c - 55)
  else None.

Definition simple_escape (c : N) : option N :=
  if c =? 34 then Some 34
  else if c =? 92 then Some 92
  else if c =? 47 then Some 47
  else if c =? 98 then Some 8
  else if c =? 102 then Some 12
  else if c =? 110 then Some 10
  else if c =? 114 then Some 13
  else if c =? 116 then Some 9
  else None.

(** The characters of a string after its opening quote, up to and
    including the closing quote. *)
Fixpoint parse_string_body (s acc : list N) : option (list N * list N) :=
  match s with
  | [] => None
  | c :: r =>
      if c =? 34 then Some (rev acc, r)
      else if c =? 92 then
        match r with
        | [] => None
        | e :: r1 =>
            if e =? 117 then
              match r1 with
              | h1 :: h2 :: h3 :: h4 :: r2 =>
                  match hex_value h1, hex_value h2, hex_value h3, hex_value h4 with
                  | Some a, Some b, Some c', Some d =>
                      parse_string_body r2 (((a * 16 + b) * 16 + c') * 16 + d :: acc)
                  | _, _, _, _ => None
                  end
              | _ => None
              end
            else
              match simple_escape e with
              | Some x => parse_string_body r1 (x :: acc)
              | None => None
              end
        end
      else if c <? 32 then None
      else parse_string_body r (c :: acc)
  end.

(** A JSON number: an optional minus sign, then 0 or a digit 1-9 followed
    by digits, then an optional fraction (a dot and at least one digit),
    then an optional exponent (e or E, an optional sign, at least one
    digit).  Each part returns what is left of the text. *)
Definition skip_if (f : N -> bool) (s : list N) : list N :=
  match s with
  | c :: r => if f c then r else s
  | [] => []
  end.

Definition digits1 (s : list N) : option (list N) :=
  match s with
  | c :: r => if is_digit c then Some (drop_while is_digit r) else None
  | [] => None
  end.

Definition int_part (s : list N) : option (list N) :=
  match s with
  | c :: r => if c =? 48 then Some r else digits1 s
  | [] => None
  end.

Definition frac_part (s : list N) : option (list N) :=
  match s with
  | c :: r => if c =? 46 then digits1 r else Some s
  | [] => Some s
  end.

Definition exp_part (s : list N) : option (list N) :=
  match s with
  | c :: r =>
      if (c =? 101) || (c =? 69)
      then digits1 (skip_if (fun d => (d =? 43) || (d =? 45)) r)
      else Some s
  | [] => Some s
  end.

Definition parse_number (s : list N) : option (list N * list N) :=
  match int_part (skip_if (fun c => c =? 45) s) with
  | None => None
  | Some s2 =>
      match frac_part s2 with
      | None => None
      | Some s3 =>
          match exp_part s3 with
          | None => None
          | Some s4 => Some (take (length s - length s4) s, s4)
          end
      end
  end.

Definition lift {A} (o : option A) : presult A :=
  match o with Some a => POk a | None => PSyntaxError end.

(** Recursive descent; every call spends one unit of fuel. *)
Fixpoint parse_value (fuel : nat) (s : list N) : presult (json * list N) :=
  match fuel with
  | O => PFuel
  | S f =>
      match s with
      | [] => PSyntaxError
      | c :: r =>
          if c =? 123 then
            match skip_ws r with
            | d :: r' => if d =? 125 then POk (JObject [], r')
                         else parse_members f (d :: r') []
            | [] => PSyntaxError
            end
          else if c =? 91 then
            match skip_ws r with
            | d :: r' => if d =? 93 then POk (JArray [], r')
                         else parse_elements f (d :: r') []
            | [] => PSyntaxError
            end
          else if c =? 34 then
            match parse_string_body r [] with
            | Some (str, r') => POk (JString str, r')
            | None => PSyntaxError
            end
          else if starts_with (js "true") s then POk (JBool true, drop 4 s)
          else if starts_with (js "false") s then POk (JBool false, drop 5 s)
          else if starts_with (js "null") s then POk (JNull, drop 4 s)
          else
            match parse_number s with
            | Some (lex, r') => POk (JNumber lex, r')
            | None => PSyntaxError
            end
      end
  end
with parse_elements (fuel : nat) (s : list N) (acc : list json)
    : presult (json * list N) :=
  match fuel with
  | O => PFuel
  | S f =>
      match parse_value f s with
      | POk (v, r) =>
          match skip_ws r with
          | d :: r' =>
              if d =? 44 then parse_elements f (skip_ws r') (v :: acc)
              else if d =? 93 then POk (JArray (rev (v :: acc)), r')
              else PSyntaxError
          | [] => PSyntaxError
          end
      | PSyntaxError => PSyntaxError
      | PFuel => PFuel
      end
  end
with parse_members (fuel : nat) (s : list N) (acc : list (list N * json))
    : presult (json * list N) :=
  match fuel with
  | O => PFuel
  | S f =>
      match s with
      | q :: r =>
          if q =? 34 then
            match parse_string_body r [] with
            | Some (key, r1) =>
                match skip_ws r1 with
                | col :: r2 =>
                    if col =? 58 then
                      match parse_value f (skip_ws r2) with
                      | POk (v, r3) =>
                          match skip_ws r3 with
                          | d :: r4 =>
                              if d =? 44 then
                                parse_members f (skip_ws r4) ((key, v) :: acc)
                              else if d =? 125 then
                                POk (JObject (rev ((key, v) :: acc)), r4)
                              else PSyntaxError
                          | [] => PSyntaxError
                          end
                      | PSyntaxError => PSyntaxError
                      | PFuel => PFuel
                      end
                    else PSyntaxError
                | [] => PSyntaxError
                end
            | None => PSyntaxError
            end
          else PSyntaxError
      | [] => PSyntaxError
      end
  end.

(** [JSON.parse(text)]: one value between optional white space. *)
Definition JSON_parse (text : list N) : presult json :=
  match parse_value (2 * length text + 2) (skip_ws text) with
  | POk (v, r) =>
      match skip_ws r with
      | [] => POk v
      | _ :: _ => PSyntaxError
      end
  | PSyntaxError => PSyntaxError
  | PFuel => PFuel
  end.

(** [r] is what is left of [s] after a non-empty prefix. *)
Definition consumed (s r : list N) : Prop :=
  exists pre, pre <> [] /\ s = pre ++ r.

(** When [v] is an array parsed from [s] with [r] left over, [s] opens
    with a bracket and the part consumed ends with a closing bracket. *)
Definition closes_array (v : json) (s r : list N) : Prop :=
  forall l, v = JArray l ->
    (exists s', s = 91 :: s') /\ exists pre, s = pre ++ 93 :: r.

(** The same result with [w] appended to what is left over. *)
Definition with_tail {A} (w : list N) (x : presult (A * list N))
    : presult (A * list N) :=
  match x with
  | POk (v, r) => POk (v, r ++ w)
  | PSyntaxError => PSyntaxError
  | PFuel => PFuel
  end.

Definition opt_with_tail {A} (w : list N) (x : option (A * list N))
    : option (A * list N) :=
  match x with
  | Some (v, r) => Some (v, r ++ w)
  | None => None
  end.

End Json.

Import Json.

(** How a call ends: it returns a value or throws. *)
Inductive completion (E A : Type) : Type :=
  | Return (a : A)
  | Throw (e : E).
Arguments Return {E A} a.
Arguments Throw {E A} e.

(** ** [cleanJsonResponse] *)

Module Clean.

(** The error that [JSON.parse] throws. *)
Inductive parse_error : Type := SyntaxError.

(** [Math.min] over numbers that may be [Infinity]; [None] is
    [Infinity]. *)
Definition Math_min (a b : option Z) : option Z :=
  match a, b with
  | Some x, Some y => Some (Z.min x y)
  | Some x, None => Some x
  | None, Some y => Some y
  | None, None => None
  end.

(** [/```json\s*/gi] *)
Definition fence_json (s : list N) : option nat :=
  if starts_with_ci (js "```json") s
  then Some (7 + span_length is_whitespace (drop 7 s))%nat
  else None.

(** [/```\s*/g] *)
Definition fence (s : list N) : option nat :=
  if starts_with (js "```") s
  then Some (3 + span_length is_whitespace (drop 3 s))%nat
  else None.

(** [/<[^>]+>/g] *)
Definition html_tag (s : list N) : option nat :=
  match s with
  | c :: r =>
      if c =? 60 then
        match span_length (fun x => negb (x =? 62)) r with
        | O => None
        | S k =>
            match drop (S k) r with
            | d :: _ => if d =? 62 then Some (S (S (S k))) else None
            | [] => None
            end
        end
      else None
  | [] => None
  end.

Definition strip_fences (text : list N) : list N :=
  replace_all fence [] (replace_all fence_json [] text).

Definition cut_before_json (text : list N) : list N :=
  let jsonStart :=
    Math_min
      (if negb (indexOf 91 text =? -1)%Z then Some (indexOf 91 text) else None)
      (if negb (indexOf 123 text =? -1)%Z then Some (indexOf 123 text) else None) in
  match jsonStart with
  | Some i => substring_from text i
  | None => text
  end.

Definition cut_after_json (text : list N) : list N :=
  let jsonEnd := Z.max (lastIndexOf 93 text) (lastIndexOf 125 text) in
  if negb (jsonEnd =? -1)%Z then substring text 0 (jsonEnd + 1) else text.

Definition fix_entities (text : list N) : list N :=
  let text := replace_all (match_lit (js "&quot;")) [92; 34] text in
  let text := replace_all (match_lit (js "&amp;")) (js "&") text in
  let text := replace_all (match_lit (js "&lt;")) (js "<") text in
  let text := replace_all (match_lit (js "&gt;")) (js ">") text in
  replace_all (match_lit (js "&apos;")) (js "'") text.

Definition strip_tags (text : list N) : list N :=
  replace_all html_tag [] text.

(** The text that [cleanJsonResponse] hands to [JSON.parse]. *)
Definition cleaned_text (text : list N) : list N :=
  trim (strip_tags (fix_entities (cut_after_json (cut_before_json (strip_fences text))))).

(** [cleanJsonResponse(text)]: returns the cleaned text when it parses
    and rethrows the error of [JSON.parse] otherwise.  [None] stands for a
    parse that ran out of fuel. *)
Definition cleanJsonResponse (text : list N)
    : option (completion parse_error (list N)) :=
  let cleaned := cleaned_text text in
  match JSON_parse cleaned with
  | POk _ => Some (Return cleaned)
  | PSyntaxError => Some (Throw SyntaxError)
  | PFuel => None
  end.

(** Whether one of the patterns that [cleanJsonResponse] rewrites occurs
    in the text. *)
Definition has_markup (text : list N) : bool :=
  occurs fence_json text || occurs fence text
  || occurs (match_lit (js "&quot;")) text
  || occurs (match_lit (js "&amp;")) text
  || occurs (match_lit (js "&lt;")) text
  || occurs (match_lit (js "&gt;")) text
  || occurs (match_lit (js "&apos;")) text
  || occurs html_tag text.

(** The text begins with an opening bracket or brace. *)
Definition opens_json (text : list N) : bool :=
  match text with
  | c :: _ => (c =? 91) || (c =? 123)
  | [] => false
  end.

(** The text ends with a closing bracket or brace. *)
Definition closes_json (text : list N) : bool :=
  match last text with
  | Some c => (c =? 93) || (c =? 125)
  | None => false
  end.

(** The texts of the scenarios. *)
Definition one_record : list N := jq "[{'id':1,'question':'Q?'}]".
Definition extra_bracket : list N := jq "[{'id':1,'question':'Q?'}] ]".
Definition with_entity : list N := jq "[{'question':'A &amp; B'}]".
Definition entity_decoded : list N := jq "[{'question':'A & B'}]".

End Clean.

Import Clean.

(** ** [crypto.createHash('md5')] *)

Module MD5.

Definition K : list N :=
  [3614090360; 3905402710; 606105819; 3250441966; 4118548399; 1200080426;
   2821735955; 4249261313; 1770035416; 2336552879; 4294925233; 2304563134;
   1804603682; 4254626195; 2792965006; 1236535329; 4129170786; 3225465664;
   643717713; 3921069994; 3593408605; 38016083; 3634488961; 3889429448;
   568446438; 3275163606; 4107603335; 1163531501; 2850285829; 4243563512;
   1735328473; 2368359562; 4294588738; 2272392833; 1839030562; 4259657740;
   2763975236; 1272893353; 4139469664; 3200236656; 681279174; 3936430074;
   3572445317; 76029189; 3654602809; 3873151461; 530742520; 3299628645;
   4096336452; 1126891415; 2878612391; 4237533241; 1700485571; 2399980690;
   4293915773; 2240044497; 1873313359; 4264355552; 2734768916; 1309151649;
   4149444226; 3174756917; 718787259; 3951481745].

Definition shifts : list N :=
  [7; 12; 17; 22; 7; 12; 17; 22; 7; 12; 17; 22; 7; 12; 17; 22;
   5; 9; 14; 20; 5; 9; 14; 20; 5; 9; 14; 20; 5; 9; 14; 20;
   4; 11; 16; 23; 4; 11; 16; 23; 4; 11; 16; 23; 4; 11; 16; 23;
   6; 10; 15; 21; 6; 10; 15; 21; 6; 10; 15; 21; 6; 10; 15; 21].

Definition mask32 : N := 4294967295.
Definition add32 (a b : N) : N := N.land (a + b) mask32.
Definition not32 (a : N) : N := N.lxor a mask32.
Definition rotl32 (x c : N) : N :=
  N.lor (N.land (N.shiftl x c) mask32) (N.shiftr x (32 - c)).

(** Little-endian bytes to a number and back. *)
Fixpoint word_le (bytes : list N) : N :=
  match bytes with
  | [] => 0
  | b :: r => b + 256 * word_le r
  end.

Fixpoint bytes_le (n : nat) (w : N) : list N :=
  match n with
  | O => []
  | S k => (w mod 256) :: bytes_le k (w / 256)
  end.

Fixpoint words (n : nat) (bytes : list N) : list N :=
  match n with
  | O => []
  | S k => word_le (take 4 bytes) :: words k (drop 4 bytes)
  end.

Definition md5_state : Type := N * N * N * N.

Definition md5_round (M : list N) (h : md5_state) (i : nat) : md5_state :=
  let '(A, B, C, D) := h in
  let '(F, g) :=
    if (i <? 16)%nat then (N.lor (N.land B C) (N.land (not32 B) D), i)
    else if (i <? 32)%nat then
      (N.lor (N.land D B) (N.land (not32 D) C), ((5 * i + 1) mod 16)%nat)
    else if (i <? 48)%nat then
      (N.lxor B (N.lxor C D), ((3 * i + 5) mod 16)%nat)
    else (N.lxor C (N.lor B (not32 D)), ((7 * i) mod 16)%nat) in
  let F' := add32 (add32 (add32 F A) (nth i K 0)) (nth g M 0) in
  (D, add32 B (rotl32 F' (nth i shifts 0)), B, C).

Definition md5_block (h : md5_state) (block : list N) : md5_state :=
  let M := words 16 block in
  let '(a0, b0, c0, d0) := h in
  let '(A, B, C, D) := fold_left (md5_round M) (seq 0 64) h in
  (add32 a0 A, add32 b0 B, add32 c0 C, add32 d0 D).

Fixpoint md5_blocks (n : nat) (h : md5_state) (bytes : list N) : md5_state :=
  match n with
  | O => h
  | S k => md5_blocks k (md5_block h (take 64 bytes)) (drop 64 bytes)
  end.

Definition pad (msg : list N) : list N :=
  let len := length msg in
  msg ++ [128] ++ repeat 0 ((119 - len mod 64) mod 64)%nat
      ++ bytes_le 8 (N.of_nat (8 * len)).

Definition digest (msg : list N) : list N :=
  let p := pad msg in
  let '(a, b, c, d) :=
    md5_blocks (length p / 64)%nat
      (1732584193, 4023233417, 2562383102, 271733878) p in
  bytes_le 4 a ++ bytes_le 4 b ++ bytes_le 4 c ++ bytes_le 4 d.

Definition hex_digit (n : N) : N := if n <? 10 then 48 + n else 87 + n.

Definition hex (bytes : list N) : list N :=
  flat_map (fun b => [hex_digit (b / 16); hex_digit (b mod 16)]) bytes.

(** UTF-8 bytes of a string of UTF-16 code units, as [update(text)]
    encodes its argument; an unpaired surrogate becomes U+FFFD. *)
Definition is_high_surrogate (c : N) : bool := (55296 <=? c) && (c <=? 56319).
Definition is_low_surrogate (c : N) : bool := (56320 <=? c) && (c <=? 57343).

Definition utf8_3 (c : N) : list N :=
  [224 + c / 4096; 128 + (c / 64) mod 64; 128 + c mod 64].

Fixpoint utf8 (s : list N) : list N :=
  match s with
  | [] => []
  | c :: r =>
      if c <? 128 then c :: utf8 r
      else if c <? 2048 then (192 + c / 64) :: (128 + c mod 64) :: utf8 r
      else if is_high_surrogate c then
        match r with
        | lo :: r' =>
            if is_low_surrogate lo then
              let cp := 65536 + (c - 55296) * 1024 + (lo - 56320) in
              [240 + cp / 262144; 128 + (cp / 4096) mod 64;
               128 + (cp / 64) mod 64; 128 + cp mod 64] ++ utf8 r'
            else utf8_3 65533 ++ utf8 r
        | [] => utf8_3 65533
        end
      else if is_low_surrogate c then utf8_3 65533 ++ utf8 r
      else utf8_3 c ++ utf8 r
  end.

End MD5.

(** [generateCacheKey(text)] *)
Definition generateCacheKey (text : list N) : list N :=
  MD5.hex (MD5.digest (MD5.utf8 text)).

(** ** The completion detector of [waitForResponse] *)

Module Detector.

Local Open Scope Z_scope.

Definition STABLE_CHECKS_NEEDED : nat := 5.
Definition STABLE_DURATION_MS : Z := 1500.
Definition POLL_INTERVAL_MS : Z := 500.

(** What the three [querySelector] calls of one poll find: [None] when no
    element matches, [Some v] when one does, [v] telling whether its
    [offsetParent] is non-null. *)
Record observation : Type := {
  copy_button : option bool;
  stop_button : option bool;
  typing_indicator : option bool
}.

Record signals : Type := {
  copyButton : bool;
  stopButton : bool;
  textStable : bool;
  cursorGone : bool
}.

(** The variables of the closure passed to [page.evaluate]. *)
Record monitor : Type := {
  startTime : Z;
  lastMutationTime : Z;
  stableCount : nat
}.

Definition checkCompletionSignals (m : monitor) (dom : observation) (now : Z)
    : signals :=
  {| copyButton := match copy_button dom with
                   | Some visible => visible
                   | None => false
                   end;
     stopButton := match stop_button dom with
                   | Some visible => negb visible
                   | None => true
                   end;
     cursorGone := match typing_indicator dom with
                   | Some visible => negb visible
                   | None => true
                   end;
     textStable := STABLE_DURATION_MS <=? now - lastMutationTime m |}.

Definition isComplete (s : signals) : bool :=
  copyButton s || (stopButton s && textStable s && cursorGone s).

Inductive mutation_type : Type := childList | characterData | attributes.

(** What happens in the page while the promise is pending: the
    [MutationObserver] callback runs with a batch of records, or the
    [setInterval] callback runs.  A tick reads the clock twice, for
    [elapsed] and inside [checkCompletionSignals]. *)
Inductive page_event : Type :=
  | Mutations (now : Z) (records : list mutation_type)
  | Tick (now_elapsed now_signals : Z) (dom : observation).

(** The value the promise resolves with: [{completed: true, signals}] or
    [{completed: false, reason: 'timeout'}]. *)
Inductive generation : Type :=
  | Completed (s : signals)
  | TimedOut.

Definition completed (g : generation) : bool :=
  match g with Completed _ => true | TimedOut => false end.

Definition relevantMutation (records : list mutation_type) : bool :=
  existsb (fun t => match t with
                    | childList | characterData => true
                    | attributes => false
                    end) records.

Definition on_mutations (m : monitor) (now : Z) (records : list mutation_type)
    : monitor :=
  if relevantMutation records
  then {| startTime := startTime m; lastMutationTime := now; stableCount := O |}
  else m.

Definition with_count (m : monitor) (n : nat) : monitor :=
  {| startTime := startTime m; lastMutationTime := lastMutationTime m;
     stableCount := n |}.

Definition on_tick (maxWaitMs : Z) (m : monitor) (t1 t2 : Z) (dom : observation)
    : monitor + generation :=
  let elapsed := t1 - startTime m in
  if maxWaitMs <=? elapsed then inr TimedOut
  else
    let s := checkCompletionSignals m dom t2 in
    if isComplete s then
      let m' := with_count m (S (stableCount m)) in
      if (STABLE_CHECKS_NEEDED <=? stableCount m')%nat
      then inr (Completed s)
      else inl m'
    else inl (with_count m O).

(** The promise over a finite run of page events: the value it has
    resolved with, or the variables of the closure while it is still
    pending at the end of the run. *)
Fixpoint monitor_loop (maxWaitMs : Z) (m : monitor) (evs : list page_event)
    : monitor + generation :=
  match evs with
  | [] => inl m
  | Mutations now records :: rest =>
      monitor_loop maxWaitMs (on_mutations m now records) rest
  | Tick t1 t2 dom :: rest =>
      match on_tick maxWaitMs m t1 t2 dom with
      | inl m' => monitor_loop maxWaitMs m' rest
      | inr g => inr g
      end
  end.

Definition start_monitor (now : Z) : monitor :=
  {| startTime := now; lastMutationTime := now; stableCount := O |}.

(** One entry per event that touches [stableCount]: the verdict of a
    poll, or a reset by a relevant mutation.  Most recent first. *)
Inductive entry : Type :=
  | Poll (complete : bool)
  | Reset.

Fixpoint poll_log (maxWaitMs : Z) (m : monitor) (evs : list page_event)
    (log : list entry) : list entry :=
  match evs with
  | [] => log
  | Mutations now records :: rest =>
      poll_log maxWaitMs (on_mutations m now records) rest
        (if relevantMutation records then Reset :: log else log)
  | Tick t1 t2 dom :: rest =>
      if maxWaitMs <=? t1 - startTime m then log
      else
        let verdict := isComplete (checkCompletionSignals m dom t2) in
        match on_tick maxWaitMs m t1 t2 dom with
        | inl m' => poll_log maxWaitMs m' rest (Poll verdict :: log)
        | inr _ => Poll verdict :: log
        end
  end.

(** The log starts with [n] complete polls. *)
Definition streak (log : list entry) (n : nat) : Prop :=
  exists older, log = repeat (Poll true) n ++ older.

(** Sample observations: the copy button is shown; the stop button is
    shown and the copy button is not. *)
Definition done_dom : observation :=
  {| copy_button := Some true; stop_button := None; typing_indicator := None |}.

Definition busy_dom : observation :=
  {| copy_button := None; stop_button := Some true; typing_indicator := None |}.

Definition five_polls : list page_event :=
  [Tick 500 500 done_dom; Tick 1000 1000 done_dom; Tick 1500 1500 done_dom;
   Tick 2000 2000 done_dom; Tick 2500 2500 done_dom].

(** One [message-content] element, as the extraction code reads it. *)
Record message : Type := {
  codeBlock : option (list N);
  markdown : option (list N);
  textContent : list N
}.

Inductive wait_error : Type :=
  | SelectorTimeout
  | NoMessageContent
  | NoMessagesAfterWaiting
  | ResponseTooShort (len : nat).

(** [Failed to get response: <cause>] *)
Inductive wait_failure : Type :=
  | FailedToGetResponse (cause : wait_error).

Definition long_enough (t : list N) : bool := (50 <? length t)%nat.

(** The callback of [lastMessage.evaluate] on the main path. *)
Definition extract (el : message) : list N :=
  match codeBlock el with
  | Some t =>
      if long_enough (trim t) then trim t
      else match markdown el with
           | Some md => if long_enough (trim md) then trim md
                        else trim (textContent el)
           | None => trim (textContent el)
           end
  | None =>
      match markdown el with
      | Some md => if long_enough (trim md) then trim md
                   else trim (textContent el)
      | None => trim (textContent el)
      end
  end.

(** The same on the recovery path. *)
Definition extract_recovery (el : message) : list N :=
  match codeBlock el with
  | Some t =>
      if long_enough (trim t) then trim t
      else match markdown el with
           | Some md => trim md
           | None => trim (textContent el)
           end
  | None =>
      match markdown el with
      | Some md => trim md
      | None => trim (textContent el)
      end
  end.

(** [waitForResponse] from the resolution of the detection promise to
    the end of its [try] block.  The detection result is only logged. *)
Definition extract_after_detection (g : generation) (messages : list message)
    : completion wait_error (list N) :=
  match last messages with
  | None => Throw NoMessagesAfterWaiting
  | Some el =>
      let text := extract el in
      if (length text <? 50)%nat then Throw (ResponseTooShort (length text))
      else Return text
  end.

(** The [catch] block of [waitForResponse]; [messages] is [None] when
    the page query itself throws. *)
Definition recover (error : wait_error) (messages : option (list message))
    : completion wait_failure (list N) :=
  match messages with
  | Some ms =>
      match last ms with
      | Some el =>
          let text := extract_recovery el in
          if long_enough text then Return text
          else Throw (FailedToGetResponse error)
      | None => Throw (FailedToGetResponse error)
      end
  | None => Throw (FailedToGetResponse error)
  end.

(** What the page does during one call of [waitForResponse]. *)
Record page_run : Type := {
  selector_appears : bool;
  evaluate_now : Z;
  messages_at_start : nat;
  events : list page_event;
  messages_after : list message;
  messages_recovery : option (list message)
}.

Definition try_block (timeoutMs : Z) (run : page_run)
    : option (completion wait_error (list N)) :=
  if negb (selector_appears run) then Some (Throw SelectorTimeout)
  else if (messages_at_start run =? 0)%nat then Some (Throw NoMessageContent)
  else
    match monitor_loop timeoutMs (start_monitor (evaluate_now run)) (events run) with
    | inl _ => None
    | inr g => Some (extract_after_detection g (messages_after run))
    end.

(** [waitForResponse(timeoutMs, domDelayMs)]; [None] when the run of page
    events ends before the detection promise settles. *)
Definition waitForResponse (timeoutMs : Z) (run : page_run)
    : option (completion wait_failure (list N)) :=
  match try_block timeoutMs run with
  | None => None
  | Some (Return text) => Some (Return text)
  | Some (Throw error) => Some (recover error (messages_recovery run))
  end.

(** A run for the scenarios: the answer never shows a completion signal
    and the deadline of 180 s passes; the page then holds [n] characters of
    text. *)
Definition long_text (n : nat) : list N := repeat 120%N n.

Definition stalled_run (n : nat) : page_run :=
  {| selector_appears := true;
     evaluate_now := 0;
     messages_at_start := 1;
     events := [Tick 500 500 busy_dom; Tick 180000 180000 busy_dom];
     messages_after := [{| codeBlock := None; markdown := None;
                           textContent := long_text n |}];
     messages_recovery := None |}.

End Detector.

(** ** The request coordinator: [sendToGemini] and its HTTP handlers *)

Module Server.

Local Open Scope Z_scope.

Definition CACHE_EXPIRY_MS : Z := 300000.

(** The two timers of [sendToGemini]: [setTimeout(resolve, 5000)] in the
    [catch] of the request and [setTimeout(resolve, 2000)] after
    [await requestPromise]. *)
Definition ERROR_DELAY_MS : Z := 5000.
Definition SUCCESS_DELAY_MS : Z := 2000.

(** A value of [responseCache]. *)
Record cache_entry : Type := {
  response : list N;
  timestamp : Z
}.

(** The templates of [generateSystemPrompt] and [generateShortNotesPrompt].
    Their text is not reproduced: a system prompt is identified by its
    generator and its argument. *)
Inductive system_prompt : Type :=
  | McqPrompt (expectedMcqs : Z)
  | ShortNotesPrompt (expectedNotes : Z).

(** [fullPrompt = systemPrompt + '\n\n' + text] *)
Record prompt : Type := {
  systemPrompt : system_prompt;
  promptText : list N
}.

Inductive exchange_error : Type :=
  | PageError
  | WaitFailed (cause : Detector.wait_failure)
  | OverallTimeout
  | InvalidResponse (len : nat).

(** Where the asynchronous function behind [requestPromise] stands. *)
Inductive exchange_phase : Type :=
  | Preparing
  | AwaitingResponse
  | ErrorDelay (e : exchange_error) (until : Z)
  | Fulfilled (r : list N)
  | Rejected (e : exchange_error).

Record exchange : Type := {
  ex_key : list N;
  ex_prompt : prompt;
  ex_domDelayMs : Z;
  ex_phase : exchange_phase
}.

(** Answers that [/api/generate-mcqs] sends before it calls
    [sendToGemini]. *)
Inductive refusal : Type :=
  | TEXT_REQUIRED
  | NOT_INITIALIZED
  | PAUSED (pausedAt : option Z).

(** Where one request to [/api/generate-mcqs] stands: refused by the
    handler, or inside [sendToGemini] at [await activeRequest], at
    [await requestPromise], in the timer that follows it, or back in the
    handler with the value returned or the error thrown. *)
Inductive call_phase : Type :=
  | Refused (why : refusal)
  | AwaitActive (p : nat)
  | AwaitOwn (p : nat) (cacheKey : list N)
  | Pacing (r : list N) (until : Z) (cacheKey : list N)
  | Finished (c : completion exchange_error (list N)).

(** The module-level variables of [server.js] that the coordinator uses,
    the promises and calls that exist, and the prompts sent to the chat
    page so far.  A promise is named by its index in [exchanges]. *)
Record state : Type := {
  isInitialized : bool;
  isPaused : bool;
  pauseTimestamp : option Z;
  responseCache : gmap (list N) cache_entry;
  activeRequest : option nat;
  activeRequestText : option (list N);
  exchanges : list exchange;
  calls : list call_phase;
  page_input : list prompt
}.

Definition set_pause (st : state) (b : bool) (t : option Z) : state :=
  {| isInitialized := isInitialized st; isPaused := b; pauseTimestamp := t;
     responseCache := responseCache st; activeRequest := activeRequest st;
     activeRequestText := activeRequestText st; exchanges := exchanges st;
     calls := calls st; page_input := page_input st |}.

Definition set_cache (st : state) (c : gmap (list N) cache_entry) : state :=
  {| isInitialized := isInitialized st; isPaused := isPaused st;
     pauseTimestamp := pauseTimestamp st;
     responseCache := c; activeRequest := activeRequest st;
     activeRequestText := activeRequestText st; exchanges := exchanges st;
     calls := calls st; page_input := page_input st |}.

Definition set_active (st : state) (a : option nat) (t : option (list N))
    : state :=
  {| isInitialized := isInitialized st; isPaused := isPaused st;
     pauseTimestamp := pauseTimestamp st;
     responseCache := responseCache st; activeRequest := a;
     activeRequestText := t; exchanges := exchanges st;
     calls := calls st; page_input := page_input st |}.

Definition set_exchanges (st : state) (l : list exchange) : state :=
  {| isInitialized := isInitialized st; isPaused := isPaused st;
     pauseTimestamp := pauseTimestamp st;
     responseCache := responseCache st; activeRequest := activeRequest st;
     activeRequestText := activeRequestText st; exchanges := l;
     calls := calls st; page_input := page_input st |}.

Definition set_calls (st : state) (l : list call_phase) : state :=
  {| isInitialized := isInitialized st; isPaused := isPaused st;
     pauseTimestamp := pauseTimestamp st;
     responseCache := responseCache st; activeRequest := activeRequest st;
     activeRequestText := activeRequestText st; exchanges := exchanges st;
     calls := l; page_input := page_input st |}.

Definition set_page_input (st : state) (l : list prompt) : state :=
  {| isInitialized := isInitialized st; isPaused := isPaused st;
     pauseTimestamp := pauseTimestamp st;
     responseCache := responseCache st; activeRequest := activeRequest st;
     activeRequestText := activeRequestText st; exchanges := exchanges st;
     calls := calls st; page_input := l |}.

Definition add_call (st : state) (c : call_phase) : state :=
  set_calls st (calls st ++ [c]).

Definition clear_active (st : state) : state := set_active st None None.

Definition set_phase (st : state) (p : nat) (ph : exchange_phase) : state :=
  set_exchanges st
    (alter (fun ex => {| ex_key := ex_key ex; ex_prompt := ex_prompt ex;
                         ex_domDelayMs := ex_domDelayMs ex; ex_phase := ph |})
       p (exchanges st)).

Definition phase_of (st : state) (p : nat) : option exchange_phase :=
  ex_phase <$> exchanges st !! p.

(** [cleanCache()] at time [now]. *)
Definition cleanCache (now : Z) (cache : gmap (list N) cache_entry)
    : gmap (list N) cache_entry :=
  filter (fun kv => ¬ (now - timestamp kv.2 > CACHE_EXPIRY_MS)) cache.

(** [await activeRequest] at line 602.  A promise that is already
    settled resumes the caller before any other task runs. *)
Definition await_active (st : state) (p : nat) : state :=
  match phase_of st p with
  | Some (Fulfilled r) => add_call st (Finished (Return r))
  | Some (Rejected e) => add_call (clear_active st) (Finished (Throw e))
  | _ => add_call st (AwaitActive p)
  end.

(** Lines 612 to 691: the request promise is created, recorded as the
    active request, and awaited.  The asynchronous function has run up to
    its first [await]. *)
Definition start_request (st : state) (cacheKey text : list N)
    (sp : system_prompt) (domDelayMs : Z) : state :=
  let p := length (exchanges st) in
  let ex := {| ex_key := cacheKey;
               ex_prompt := {| systemPrompt := sp; promptText := text |};
               ex_domDelayMs := domDelayMs; ex_phase := Preparing |} in
  add_call (set_active (set_exchanges st (exchanges st ++ [ex]))
              (Some p) (Some cacheKey))
    (AwaitOwn p cacheKey).

(** [sendToGemini(text, systemPrompt, domDelayMs)] up to its first
    suspension. *)
Definition sendToGemini (st : state) (text : list N) (sp : system_prompt)
    (domDelayMs now : Z) : state :=
  let cacheKey := generateCacheKey text in
  let st := set_cache st (cleanCache now (responseCache st)) in
  match responseCache st !! cacheKey with
  | Some cached => add_call st (Finished (Return (response cached)))
  | None =>
      match activeRequest st with
      | Some p =>
          if decide (activeRequestText st = Some cacheKey)
          then await_active st p
          else start_request st cacheKey text sp domDelayMs
      | None => start_request st cacheKey text sp domDelayMs
      end
  end.

(** The fields of [req.body] that the handler reads. *)
Record body : Type := {
  text : option (list N);
  expected_mcqs : option Z;
  content_type : option (list N);
  dom_delay_seconds : option Z
}.

(** [x || d] for a number. *)
Definition number_or (x : option Z) (d : Z) : Z :=
  match x with
  | Some v => if v =? 0 then d else v
  | None => d
  end.

(** [x || d] for a string. *)
Definition string_or (x : option (list N)) (d : list N) : list N :=
  match x with
  | Some [] => d
  | Some v => v
  | None => d
  end.

(** The handler of [POST /api/generate-mcqs] up to its first suspension.
    The daily usage counter kept in a file is left out. *)
Definition generate_mcqs (st : state) (b : body) (now : Z) : state :=
  match text b with
  | None | Some [] => add_call st (Refused TEXT_REQUIRED)
  | Some t =>
      if negb (isInitialized st) then add_call st (Refused NOT_INITIALIZED)
      else if isPaused st then add_call st (Refused (PAUSED (pauseTimestamp st)))
      else
        let expectedMcqs := number_or (expected_mcqs b) 10 in
        let domDelayMs := number_or (dom_delay_seconds b) 1 * 1000 in
        let contentType := string_or (content_type b) (js "mcq") in
        let sp := if decide (contentType = js "short_notes")
                  then ShortNotesPrompt expectedMcqs
                  else McqPrompt expectedMcqs in
        sendToGemini st t sp domDelayMs now
  end.

(** One caller resumes after promise [p] has settled with [o].  The
    calls already resumed are those of [calls st]. *)
Definition resume_call (p : nat) (o : completion exchange_error (list N))
    (now : Z) (st : state) (c : call_phase) : state :=
  match c with
  | AwaitOwn q key =>
      if decide (q = p) then
        match o with
        | Return r => add_call st (Pacing r (now + SUCCESS_DELAY_MS) key)
        | Throw e =>
            add_call
              (if decide (activeRequestText st = Some key)
               then clear_active st else st)
              (Finished (Throw e))
        end
      else add_call st c
  | AwaitActive q =>
      if decide (q = p) then
        match o with
        | Return r => add_call st (Finished (Return r))
        | Throw e => add_call (clear_active st) (Finished (Throw e))
        end
      else add_call st c
  | _ => add_call st c
  end.

(** The phase in which [resume_call] leaves the caller. *)
Definition resumed (p : nat) (o : completion exchange_error (list N))
    (now : Z) (c : call_phase) : call_phase :=
  match c with
  | AwaitOwn q key =>
      if decide (q = p) then
        match o with
        | Return r => Pacing r (now + SUCCESS_DELAY_MS) key
        | Throw e => Finished (Throw e)
        end
      else c
  | AwaitActive q => if decide (q = p) then Finished o else c
  | _ => c
  end.

(** All callers that await promise [p] resume, in the order in which
    they started to wait. *)
Definition settle (st : state) (p : nat)
    (o : completion exchange_error (list N)) (now : Z) : state :=
  fold_left (resume_call p o now) (calls st) (set_calls st []).

Definition fail_exchange (st : state) (p : nat) (e : exchange_error) (now : Z)
    : state :=
  set_phase st p (ErrorDelay e (now + ERROR_DELAY_MS)).

(** What can happen next.  Each event runs one synchronous segment of
    the source: a request reaches [/api/generate-mcqs], [/api/pause] or
    [/api/resume]; [/api/reset-chat] clears the cache and the active
    request after its two seconds of delay; an exchange sends its prompt
    (the text is pasted and Enter is pressed), fails before that, or sees
    its [Promise.race] settle; one of the two timers of [sendToGemini]
    fires. *)
Inductive event : Type :=
  | GenerateMcqs (b : body) (now : Z)
  | Pause (now : Z)
  | Resume (now : Z)
  | ChatReset
  | PromptSent (p : nat)
  | PageFailed (p : nat) (now : Z)
  | RaceSettled (p : nat) (o : completion exchange_error (list N)) (now : Z)
  | ErrorDelayElapsed (p : nat) (now : Z)
  | PacingElapsed (c : nat) (now : Z).

Definition step (st : state) (ev : event) : state :=
  match ev with
  | GenerateMcqs b now => generate_mcqs st b now
  | Pause now => if isPaused st then st else set_pause st true (Some now)
  | Resume now => if isPaused st then set_pause st false None else st
  | ChatReset =>
      if isInitialized st then clear_active (set_cache st ∅) else st
  | PromptSent p =>
      match exchanges st !! p with
      | Some ex =>
          match ex_phase ex with
          | Preparing =>
              set_page_input (set_phase st p AwaitingResponse)
                (page_input st ++ [ex_prompt ex])
          | _ => st
          end
      | None => st
      end
  | PageFailed p now =>
      match phase_of st p with
      | Some Preparing => fail_exchange st p PageError now
      | _ => st
      end
  | RaceSettled p o now =>
      match exchanges st !! p with
      | Some ex =>
          match ex_phase ex with
          | AwaitingResponse =>
              match o with
              | Return r =>
                  if (length r <? 50)%nat
                  then fail_exchange st p (InvalidResponse (length r)) now
                  else
                    settle
                      (set_cache (set_phase st p (Fulfilled r))
                         (<[ex_key ex := {| response := r; timestamp := now |}]>
                            (responseCache st)))
                      p (Return r) now
              | Throw e => fail_exchange st p e now
              end
          | _ => st
          end
      | None => st
      end
  | ErrorDelayElapsed p now =>
      match phase_of st p with
      | Some (ErrorDelay e until) =>
          if until <=? now
          then settle (set_phase st p (Rejected e)) p (Throw e) now
          else st
      | _ => st
      end
  | PacingElapsed c now =>
      match calls st !! c with
      | Some (Pacing r until key) =>
          if until <=? now then
            set_calls
              (if decide (activeRequestText st = Some key)
               then clear_active st else st)
              (<[c := Finished (Return r)]> (calls st))
          else st
      | _ => st
      end
  end.

Definition run (st : state) (tr : list event) : state := fold_left step tr st.

(** The state in which the server starts to listen: [startServer] calls
    [app.listen] only after [initializeBrowser] has returned true. *)
Definition initial : state :=
  {| isInitialized := true; isPaused := false; pauseTimestamp := None;
     responseCache := ∅; activeRequest := None; activeRequestText := None;
     exchanges := []; calls := []; page_input := [] |}.

(** The events that continue work already begun, as opposed to the
    requests that arrive from clients. *)
Definition internal (ev : event) : bool :=
  match ev with
  | PromptSent _ | PageFailed _ _ | RaceSettled _ _ _
  | ErrorDelayElapsed _ _ | PacingElapsed _ _ => true
  | GenerateMcqs _ _ | Pause _ | Resume _ | ChatReset => false
  end.

(** A request body with a text and a content type, all else left to the
    defaults. *)
Definition request (t contentType : list N) : body :=
  {| text := Some t; expected_mcqs := None;
     content_type := Some contentType; dom_delay_seconds := None |}.

(** A response long enough to be accepted. *)
Definition sample_response : list N := repeat 120%N 60.

(** An exchange is in flight from the creation of its promise until the
    promise is settled. *)
Definition in_flight (ph : exchange_phase) : bool :=
  match ph with
  | Preparing | AwaitingResponse | ErrorDelay _ _ => true
  | Fulfilled _ | Rejected _ => false
  end.

Definition exchanges_in_flight (st : state) : list exchange :=
  List.filter (fun ex => in_flight (ex_phase ex)) (exchanges st).

(** A request arrives serially when no exchange is in flight or when its
    text has the fingerprint of the active request. *)
Definition serial (st : state) (ev : event) : Prop :=
  match ev with
  | GenerateMcqs b now =>
      forall t, text b = Some t ->
        exchanges_in_flight st = []
        \/ activeRequestText st = Some (generateCacheKey t)
  | _ => True
  end.

Fixpoint serial_trace (st : state) (tr : list event) : Prop :=
  match tr with
  | [] => True
  | ev :: tr' => serial st ev /\ serial_trace (step st ev) tr'
  end.

(** The two variables of the active request are set and cleared
    together. *)
Definition active_paired (st : state) : Prop :=
  activeRequest st = None <-> activeRequestText st = None.

(** A caller is waiting while it is inside [sendToGemini]. *)
Definition waiting (c : call_phase) : bool :=
  match c with
  | AwaitActive _ | AwaitOwn _ _ | Pacing _ _ _ => true
  | Refused _ | Finished _ => false
  end.

Definition busy (st : state) : bool := existsb waiting (calls st).

(** Concurrent submissions of texts with the fingerprint [k]: every
    request carries that fingerprint, and it arrives before any exchange
    has been started or while an earlier caller is still inside
    [sendToGemini].  The chat is not reset meanwhile. *)
Definition concurrent (k : list N) (st : state) (ev : event) : Prop :=
  match ev with
  | GenerateMcqs b now =>
      (forall t, text b = Some t -> generateCacheKey t = k)
      /\ (exchanges st = [] \/ busy st = true)
  | ChatReset => False
  | _ => True
  end.

Fixpoint concurrent_trace (k : list N) (st : state) (tr : list event) : Prop :=
  match tr with
  | [] => True
  | ev :: tr' => concurrent k st ev /\ concurrent_trace k (step st ev) tr'
  end.

Definition refused (c : call_phase) : Prop := exists why, c = Refused why.

(** The exchange has settled the way the callers were answered. *)
Definition settled_as (c0 : completion exchange_error (list N))
    (ph : exchange_phase) : Prop :=
  match c0 with
  | Return r => ph = Fulfilled r
  | Throw e => ph = Rejected e
  end.

(** The four stages of a round of concurrent submissions with the
    fingerprint [k]: nothing started yet; the one exchange in flight, with
    its owner at index [o] of the calls; the exchange fulfilled and its
    owner in the timer; every caller answered. *)
Inductive single_flight (k : list N) (st : state) : Prop :=
  | sf_idle :
      exchanges st = [] -> page_input st = [] -> responseCache st = ∅ ->
      activeRequest st = None -> activeRequestText st = None ->
      (forall i c, calls st !! i = Some c -> refused c) ->
      single_flight k st
  | sf_in_flight (ex : exchange) (o : nat) :
      exchanges st = [ex] -> ex_key ex = k ->
      in_flight (ex_phase ex) = true ->
      (ex_phase ex = Preparing -> page_input st = []) ->
      (length (page_input st) <= 1)%nat ->
      responseCache st = ∅ ->
      activeRequest st = Some O -> activeRequestText st = Some k ->
      calls st !! o = Some (AwaitOwn 0 k) ->
      (forall i c, i <> o -> calls st !! i = Some c ->
         refused c \/ c = AwaitActive 0) ->
      single_flight k st
  | sf_paced (ex : exchange) (o : nat) (r : list N) (until : Z) :
      exchanges st = [ex] -> ex_key ex = k -> ex_phase ex = Fulfilled r ->
      (length (page_input st) <= 1)%nat ->
      (forall e, responseCache st !! k = Some e -> response e = r) ->
      activeRequest st = Some O -> activeRequestText st = Some k ->
      calls st !! o = Some (Pacing r until k) ->
      (forall i c, i <> o -> calls st !! i = Some c ->
         refused c \/ c = Finished (Return r)) ->
      single_flight k st
  | sf_done (ex : exchange) (c0 : completion exchange_error (list N)) :
      exchanges st = [ex] -> ex_key ex = k -> settled_as c0 (ex_phase ex) ->
      (length (page_input st) <= 1)%nat ->
      (forall i c, calls st !! i = Some c -> refused c \/ c = Finished c0) ->
      single_flight k st.

(** States for the scenarios: a first request for the text [a] has been
    accepted; its prompt has been sent; its response has arrived at time
    1000. *)
Definition accepted_state : state :=
  run initial [GenerateMcqs (request (js "a") (js "mcq")) 0].

Definition waiting_state : state := step accepted_state (PromptSent 0).

Definition served_state : state :=
  step waiting_state (RaceSettled 0 (Return sample_response) 1000).

(** A request for the text [b] arrives between two requests for the
    text [a]; the three exchanges are answered in turn, the two for [a]
    with different responses. *)
Definition other_response : list N := repeat 121%N 60.

Definition interleaved_submissions : list event :=
  [GenerateMcqs (request (js "a") (js "mcq")) 0;
   GenerateMcqs (request (js "b") (js "mcq")) 10;
   GenerateMcqs (request (js "a") (js "mcq")) 20;
   PromptSent 0; PromptSent 1; PromptSent 2;
   RaceSettled 0 (Return sample_response) 1000;
   RaceSettled 2 (Return other_response) 1100;
   PacingElapsed 0 3000; PacingElapsed 2 3100].

(** Four submissions of the text [a], three of them while the first is
    inside [sendToGemini]: before the prompt is sent, while the response
    is awaited, and during the timer after the response. *)
Definition four_submissions : list event :=
  [GenerateMcqs (request (js "a") (js "mcq")) 0;
   GenerateMcqs (request (js "a") (js "mcq")) 5;
   PromptSent 0;
   GenerateMcqs (request (js "a") (js "short_notes")) 10;
   RaceSettled 0 (Return sample_response) 1000;
   GenerateMcqs (request (js "a") (js "mcq")) 1500;
   PacingElapsed 0 3000].

End Server.

(** ** Shapes of the texts that [cleanJsonResponse] handles *)

Module CleanShape.

Local Open Scope N_scope.

(** Neither [[] nor [{]; neither []] nor [}]. *)
Definition no_opening (c : N) : bool := negb (c =? 91) && negb (c =? 123).
Definition no_closing (c : N) : bool := negb (c =? 93) && negb (c =? 125).

(** Not [>]: what [[^>]] matches. *)
Definition not_gt (c : N) : bool := negb (c =? 62).

(** The characters that a match of one of the two fence patterns can
    cover: a backtick, a letter of [json] in either case, white space. *)
Definition fence_char (c : N) : bool :=
  existsb (fun q => to_lower_ascii q =? to_lower_ascii c) (js "```json")
  || is_whitespace c.

(** An array or an object. *)
Definition is_container (v : json) : bool :=
  match v with
  | JArray _ | JObject _ => true
  | _ => false
  end.

End CleanShape.

(** ** [validateMCQs] *)

Module Validate.

#[local] Set Warnings "-register-all".

Inductive validation_error : Type :=
  | NotAnArray
  | InOperatorTypeError (i : nat)
  | MissingField (i : nat) (field : list N)
  | NotFourOptions (i : nat)
  | CorrectNotInOptions (i : nat).


Definition requiredFields : list (list N) :=
  [js "id"; js "question"; js "options"; js "correct"; js "explanation";
   js "difficulty"; js "importance"].

Section Values.

(** JavaScript numbers with their comparison by [SameValueZero]; the
    validation depends on nothing else about them. *)
Variable number : Type.
Variable same_number : number -> number -> bool.

(** The values that [validateMCQs] can be given: primitives, arrays and
    plain objects.  An array or object has an identity, by which
    [includes] compares it; an array has its elements and no other
    property; the members of an object are its own properties, and its
    prototype has none of the required names. *)
Inductive value : Type :=
  | VUndefined
  | VNull
  | VBool (b : bool)
  | VNumber (n : number)
  | VString (s : list N)
  | VArray (identity : nat) (elements : list value)
  | VObject (identity : nat) (members : list (list N * value)).

Definition SameValueZero (x y : value) : bool :=
  match x, y with
  | VUndefined, VUndefined => true
  | VNull, VNull => true
  | VBool a, VBool b => Bool.eqb a b
  | VNumber a, VNumber b => same_number a b
  | VString a, VString b => bool_decide (a = b)
  | VArray i _, VArray j _ => (i =? j)%nat
  | VObject i _, VObject j _ => (i =? j)%nat
  | _, _ => false
  end.

Definition has_key (members : list (list N * value)) (field : list N) : bool :=
  existsb (fun kv => bool_decide (kv.1 = field)) members.

(** [field in mcq] for one of the required names: [None] is the
    [TypeError] that the operator throws on a primitive. *)
Definition has_field (mcq : value) (field : list N) : option bool :=
  match mcq with
  | VObject _ members => Some (has_key members field)
  | VArray _ _ => Some false
  | _ => None
  end.

(** [mcq.field] for an object or an array and one of the required
    names. *)
Definition get (mcq : value) (field : list N) : value :=
  match mcq with
  | VObject _ members =>
      match List.find (fun kv => bool_decide (kv.1 = field)) members with
      | Some kv => kv.2
      | None => VUndefined
      end
  | _ => VUndefined
  end.

(** The inner loop over [requiredFields]. *)
Fixpoint check_fields (i : nat) (mcq : value) (fields : list (list N))
    : completion validation_error unit :=
  match fields with
  | [] => Return tt
  | field :: rest =>
      match has_field mcq field with
      | None => Throw (InOperatorTypeError i)
      | Some false => Throw (MissingField i field)
      | Some true => check_fields i mcq rest
      end
  end.

(** [arr.includes(x)] *)
Definition includes (arr : list value) (x : value) : bool :=
  existsb (fun element => SameValueZero element x) arr.

(** The body of the outer loop. *)
Definition check_mcq (i : nat) (mcq : value) : completion validation_error unit :=
  match check_fields i mcq requiredFields with
  | Throw e => Throw e
  | Return _ =>
      match get mcq (js "options") with
      | VArray _ options =>
          if negb (length options =? 4)%nat then Throw (NotFourOptions i)
          else if negb (includes options (get mcq (js "correct")))
               then Throw (CorrectNotInOptions i)
               else Return tt
      | _ => Throw (NotFourOptions i)
      end
  end.

Fixpoint check_from (i : nat) (mcqs : list value)
    : completion validation_error bool :=
  match mcqs with
  | [] => Return true
  | mcq :: rest =>
      match check_mcq i mcq with
      | Throw e => Throw e
      | Return _ => check_from (S i) rest
      end
  end.

(** [validateMCQs(mcqs)] *)
Definition validateMCQs (mcqs : value) : completion validation_error bool :=
  match mcqs with
  | VArray _ elements => check_from 0 elements
  | _ => Throw NotAnArray
  end.

(** What the comment of the function asks of one MCQ: an object with
    the seven fields, whose [options] is an array of four, one of them the
    value of [correct]. *)
Definition well_formed (mcq : value) : Prop :=
  exists identity members array options,
    mcq = VObject identity members /\
    (forall field, In field requiredFields -> has_key members field = true) /\
    get mcq (js "options") = VArray array options /\
    length options = 4%nat /\
    exists option, In option options
                   /\ SameValueZero option (get mcq (js "correct")) = true.

End Values.

Arguments VUndefined {number}.
Arguments VNull {number}.
Arguments VBool {number} b.
Arguments VNumber {number} n.
Arguments VString {number} s.
Arguments VArray {number} identity elements.
Arguments VObject {number} identity members.
Arguments well_formed {number} same_number mcq.
Arguments validateMCQs {number} same_number mcqs.
Arguments check_from {number} same_number i mcqs.
Arguments check_mcq {number} same_number i mcq.
Arguments check_fields {number} i mcq fields.
Arguments has_field {number} mcq field.
Arguments has_key {number} members field.
Arguments get {number} mcq field.
Arguments includes {number} same_number arr x.
Arguments SameValueZero {number} same_number x y.


End Validate.

(** ** [checkAndApplyCooldown] and [/api/cooldown-status] *)

Module Limiter.

Local Open Scope Z_scope.

Definition MAX_REQUESTS_BEFORE_COOLDOWN : Z := 50.
Definition COOLDOWN_DURATION_MS : Z := 5 * 60 * 1000.

(** The two variables of the rate limiter. *)
Record limiter : Type := {
  requestCount : Z;
  lastCooldownTime : option Z
}.

Definition idle : limiter := {| requestCount := 0; lastCooldownTime := None |}.

(** [checkAndApplyCooldown()] up to its [await], at time [now]: the
    variables afterwards, and whether the caller now waits in
    [delay(COOLDOWN_DURATION_MS)]. *)
Definition checkAndApplyCooldown (l : limiter) (now : Z) : limiter * bool :=
  let count := requestCount l + 1 in
  if MAX_REQUESTS_BEFORE_COOLDOWN <=? count
  then ({| requestCount := count; lastCooldownTime := Some now |}, true)
  else ({| requestCount := count; lastCooldownTime := lastCooldownTime l |}, false).

(** The rest of [checkAndApplyCooldown], after the delay. *)
Definition cooldown_over (l : limiter) : limiter :=
  {| requestCount := 0; lastCooldownTime := None |}.

(** One response handled from the call of [checkAndApplyCooldown] to its
    return, nothing else running meanwhile. *)
Definition serve (l : limiter) (now : Z) : limiter :=
  let (l', waits) := checkAndApplyCooldown l now in
  if waits then cooldown_over l' else l'.

(** The answer of [GET /api/cooldown-status]. *)
Record cooldown_status : Type := {
  status_requestCount : Z;
  maxRequests : Z;
  requestsUntilCooldown : Z;
  inCooldown : bool;
  cooldownRemainingMs : Z;
  cooldownRemainingMinutes : Z
}.

(** [Math.ceil(a / b)] for integers [a] and [b > 0]. *)
Definition ceil_div (a b : Z) : Z := - ((- a) / b).

Definition cooldown_status_at (l : limiter) (now : Z) : cooldown_status :=
  let remainingTime :=
    match lastCooldownTime l with
    | Some t => Z.max 0 (COOLDOWN_DURATION_MS - (now - t))
    | None => 0
    end in
  {| status_requestCount := requestCount l;
     maxRequests := MAX_REQUESTS_BEFORE_COOLDOWN;
     requestsUntilCooldown := MAX_REQUESTS_BEFORE_COOLDOWN - requestCount l;
     inCooldown := match lastCooldownTime l with Some _ => true | None => false end;
     cooldownRemainingMs := remainingTime;
     cooldownRemainingMinutes := ceil_div remainingTime 60000 |}.

End Limiter.

(** ** The [catch] block of [/api/generate-mcqs] *)

Module Failure.

Local Open Scope Z_scope.

(** [message.includes(word)] for a non-empty word. *)
Definition string_includes (word message : list N) : bool :=
  occurs (match_lit word) message.

Inductive error_code : Type :=
  | GENERATION_ERROR
  | TIMEOUT
  | INVALID_RESPONSE
  | NOT_INITIALIZED.

(** The status code and the error code chosen from [error.message]. *)
Definition classify (message : list N) : Z * error_code :=
  if string_includes (js "timeout") message
     || string_includes (js "Timeout") message
  then (504, TIMEOUT)
  else if string_includes (js "JSON") message
          || string_includes (js "parse") message
  then (502, INVALID_RESPONSE)
  else if string_includes (js "not initialized") message
          || string_includes (js "login") message
  then (503, NOT_INITIALIZED)
  else (500, GENERATION_ERROR).

Definition not_digit (c : N) : bool := negb (is_digit c).

(** A length as a template literal prints it: decimal digits, most
    significant first. *)
Fixpoint decimal_digits (fuel n : nat) (acc : list N) : list N :=
  match fuel with
  | O => acc
  | S f =>
      let acc' := (48 + N.of_nat (n mod 10))%N :: acc in
      if (n <? 10)%nat then acc' else decimal_digits f (n / 10) acc'
  end.

Definition decimal (n : nat) : list N := decimal_digits (S n) n [].

(** The messages of the errors that [server.js] words itself.  The
    message of a Puppeteer error is not reproduced: [None]. *)
Definition wait_message (e : Detector.wait_error) : option (list N) :=
  match e with
  | Detector.NoMessagesAfterWaiting => Some (js "No messages found after waiting")
  | Detector.ResponseTooShort n =>
      Some (js "Response too short or empty (" ++ decimal n ++ js " characters)")
  | Detector.SelectorTimeout | Detector.NoMessageContent => None
  end.

Definition error_message (e : Server.exchange_error) : option (list N) :=
  match e with
  | Server.OverallTimeout => Some (js "Overall timeout exceeded")
  | Server.InvalidResponse n =>
      Some (js "Invalid response (too short: " ++ decimal n ++ js " characters)")
  | Server.WaitFailed (Detector.FailedToGetResponse cause) =>
      match wait_message cause with
      | Some m => Some (js "Failed to get response: " ++ m)
      | None => None
      end
  | Server.PageError => None
  end.

End Failure.

(** ** States that the coordinator can reach *)

Module Reach.

Import Server.

(** Every cached response has at least 50 characters and is the response
    of a fulfilled exchange with the fingerprint it is stored under. *)
Definition cache_sound (st : state) : Prop :=
  forall k e, responseCache st !! k = Some e ->
    (50 <= length (response e))%nat /\
    exists p ex, exchanges st !! p = Some ex /\ ex_key ex = k
                 /\ ex_phase ex = Fulfilled (response e).

(** The exchange has left its first phase: its prompt has been sent or
    the page has failed before that. *)
Definition started (ex : exchange) : bool :=
  match ex_phase ex with
  | Preparing => false
  | _ => true
  end.

(** The prompts sent to the page are accounted for: they do not
    outnumber the exchanges that have left their first phase, the
    exchanges do not outnumber the calls, and every prompt sent is the
    prompt of an exchange. *)
Definition prompts_accounted (st : state) : Prop :=
  (length (page_input st) <= length (List.filter started (exchanges st)))%nat /\
  (length (exchanges st) <= length (calls st))%nat /\
  Forall (fun pr => exists p ex, exchanges st !! p = Some ex /\ ex_prompt ex = pr)
    (page_input st).

(** The fingerprint of an exchange is that of the text it sends. *)
Definition exchanges_keyed (st : state) : Prop :=
  forall p ex, exchanges st !! p = Some ex ->
    ex_key ex = generateCacheKey (promptText (ex_prompt ex)).

(** A caller with the fingerprint [k] that has started an exchange and
    has not yet left [sendToGemini]. *)
Definition owner_of (k : list N) (c : call_phase) : bool :=
  match c with
  | AwaitOwn _ key | Pacing _ _ key => bool_decide (key = k)
  | _ => false
  end.

(** While a fingerprint is recorded as active, a caller that started an
    exchange for it is still inside [sendToGemini]. *)
Definition active_owned (st : state) : Prop :=
  forall k, activeRequestText st = Some k ->
    exists i c, calls st !! i = Some c /\ owner_of k c = true.



(** The pause flag and the time of the pause go together. *)
Definition pause_paired (st : state) : Prop :=
  isPaused st = false <-> pauseTimestamp st = None.

End Reach.

(** ** The shape of a fingerprint *)

Module Fingerprint.

Local Open Scope N_scope.

(** A digit or a letter from [a] to [f]. *)
Definition is_lower_hex (c : N) : bool :=
  ((48 <=? c) && (c <=? 57)) || ((97 <=? c) && (c <=? 102)).

End Fingerprint.


(** * Properties *)

(** ** [JSON.parse]: what is consumed, and fuel *)

Module JsonFacts.

Local Open Scope nat_scope.

Lemma drop_while_length f s : length (drop_while f s) <= length s.
Proof.
  induction s as [|c r IH]; cbn; [lia|]. destruct (f c); cbn; lia.
Qed.

Lemma skip_ws_length s : length (skip_ws s) <= length s.
Proof. apply drop_while_length. Qed.

(** [drop_while] leaves a suffix and drops only what satisfies the test. *)
Lemma drop_while_split f s :
  exists pre, s = pre ++ drop_while f s /\ forallb f pre = true.
Proof.
  induction s as [|c r (pre & E & Hpre)]; [exists []; split; reflexivity|].
  cbn [drop_while]. destruct (f c) eqn:Ec.
  - exists (c :: pre). split; [cbn; congruence|cbn; rewrite Ec; exact Hpre].
  - exists []. split; reflexivity.
Qed.

Lemma drop_while_all f s : forallb f s = true -> drop_while f s = [].
Proof.
  induction s as [|c r IH]; [reflexivity|]. cbn.
  destruct (f c); [exact IH|discriminate].
Qed.

Lemma drop_while_none f s : drop_while f s = [] -> forallb f s = true.
Proof.
  induction s as [|c r IH]; [reflexivity|]. cbn.
  destruct (f c); [exact IH|discriminate].
Qed.

Lemma drop_while_stop f c r : f c = false -> drop_while f (c :: r) = c :: r.
Proof. intros H. cbn. rewrite H. reflexivity. Qed.

Lemma drop_while_head f s c r : drop_while f s = c :: r -> f c = false.
Proof.
  induction s as [|x s IH]; [discriminate|]. cbn.
  destruct (f x) eqn:E; [exact IH|]. intros [= <- _]. exact E.
Qed.

Lemma consumed_cons c s : consumed (c :: s) s.
Proof. exists [c]. split; [discriminate|reflexivity]. Qed.

Lemma consumed_step c s r :
  (exists pre, s = pre ++ r) -> consumed (c :: s) r.
Proof. intros [pre ->]. exists (c :: pre). split; [discriminate|reflexivity]. Qed.

Lemma consumed_suffix s r : consumed s r -> exists pre, s = pre ++ r.
Proof. intros (pre & _ & E). eauto. Qed.

Lemma consumed_shorter s r : consumed s r -> length r < length s.
Proof.
  intros (pre & Hne & ->). rewrite length_app.
  destruct pre; [congruence|cbn; lia].
Qed.

Lemma suffix_trans (s r q : list N) :
  (exists pre, s = pre ++ r) -> (exists pre, r = pre ++ q) ->
  exists pre, s = pre ++ q.
Proof. intros [a ->] [b ->]. exists (a ++ b). rewrite app_assoc. reflexivity. Qed.

Lemma consumed_then s r q :
  consumed s r -> (exists pre, r = pre ++ q) -> consumed s q.
Proof.
  intros (a & Ha & ->) [b ->]. exists (a ++ b). split.
  - destruct a; [congruence|discriminate].
  - rewrite app_assoc. reflexivity.
Qed.

Lemma skip_ws_suffix s : exists pre, s = pre ++ skip_ws s.
Proof. destruct (drop_while_split is_json_ws s) as (pre & E & _). eauto. Qed.

Lemma parse_string_body_consumed n : forall s acc str r,
  length s <= n ->
  parse_string_body s acc = Some (str, r) -> consumed s r.
Proof.
  induction n as [|n IH]; intros s acc str r Hn H.
  - destruct s; [discriminate|cbn in Hn; lia].
  - destruct s as [|c s']; [discriminate|]. cbn [parse_string_body] in H.
    cbn [length] in *.
    destruct (c =? 34)%N; [injection H as _ <-; apply consumed_cons|].
    destruct (c =? 92)%N.
    + destruct s' as [|e r1]; [discriminate|]. cbn [length] in *.
      destruct (e =? 117)%N.
      * destruct r1 as [|h1 [|h2 [|h3 [|h4 r2]]]]; try discriminate.
        destruct (hex_value h1), (hex_value h2), (hex_value h3), (hex_value h4);
          try discriminate.
        apply IH in H; [|cbn [length] in *; lia].
        destruct H as (pre & _ & ->).
        exists (c :: e :: h1 :: h2 :: h3 :: h4 :: pre).
        split; [discriminate|reflexivity].
      * destruct (simple_escape e); [|discriminate].
        apply IH in H; [|lia]. destruct H as (pre & _ & ->).
        exists (c :: e :: pre). split; [discriminate|reflexivity].
    + destruct (c <? 32)%N; [discriminate|].
      apply IH in H; [|lia]. apply consumed_step, consumed_suffix, H.
Qed.

Lemma skip_if_suffix f s : exists pre, s = pre ++ skip_if f s.
Proof.
  destruct s as [|c r]; [exists []; reflexivity|]. cbn.
  destruct (f c); [exists [c]|exists []]; reflexivity.
Qed.

Lemma digits1_consumed s r : digits1 s = Some r -> consumed s r.
Proof.
  destruct s as [|c s']; [discriminate|]. cbn.
  destruct (is_digit c); [|discriminate]. intros [= <-].
  apply consumed_step. destruct (drop_while_split is_digit s') as (pre & E & _).
  eauto.
Qed.

Lemma int_part_consumed s r : int_part s = Some r -> consumed s r.
Proof.
  destruct s as [|c s']; [discriminate|]. cbn [int_part].
  destruct (c =? 48)%N; [intros [= <-]; apply consumed_cons|].
  apply digits1_consumed.
Qed.

Lemma frac_part_suffix s r : frac_part s = Some r -> exists pre, s = pre ++ r.
Proof.
  destruct s as [|c s']; [intros [= <-]; exists []; reflexivity|]. cbn [frac_part].
  destruct (c =? 46)%N.
  - intros H. apply digits1_consumed, consumed_suffix in H.
    destruct H as [pre ->]. exists (c :: pre). reflexivity.
  - intros [= <-]. exists []. reflexivity.
Qed.

Lemma exp_part_suffix s r : exp_part s = Some r -> exists pre, s = pre ++ r.
Proof.
  destruct s as [|c s']; [intros [= <-]; exists []; reflexivity|]. cbn [exp_part].
  destruct ((c =? 101)%N || (c =? 69)%N).
  - intros H. apply digits1_consumed, consumed_suffix in H.
    destruct (skip_if_suffix (fun d => (d =? 43)%N || (d =? 45)%N) s') as [a Ea].
    destruct H as [pre E]. exists (c :: a ++ pre).
    cbn. rewrite <- app_assoc, <- E, <- Ea. reflexivity.
  - intros [= <-]. exists []. reflexivity.
Qed.

Lemma parse_number_consumed s lex r :
  parse_number s = Some (lex, r) -> consumed s r.
Proof.
  unfold parse_number.
  destruct (int_part _) as [s2|] eqn:E2; [|discriminate].
  destruct (frac_part s2) as [s3|] eqn:E3; [|discriminate].
  destruct (exp_part s3) as [s4|] eqn:E4; [|discriminate].
  intros [= _ <-].
  apply int_part_consumed in E2. apply frac_part_suffix in E3.
  apply exp_part_suffix in E4.
  destruct (skip_if_suffix (fun c => (c =? 45)%N) s) as [a Ea].
  destruct E2 as (b & Hb & E2). rewrite E2 in Ea.
  eapply consumed_then; [|exact E4]. eapply consumed_then; [|exact E3].
  exists (a ++ b). split.
  - destruct a; [exact Hb|discriminate].
  - rewrite <- app_assoc. exact Ea.
Qed.

(** What the parser returns is what is left after a non-empty prefix;
    an array comes from a text that opens with a bracket, and its prefix
    ends with the closing bracket. *)
Lemma parser_consumed fuel :
  (forall s v r, parse_value fuel s = POk (v, r) ->
     consumed s r /\ closes_array v s r) /\
  (forall s acc v r, parse_elements fuel s acc = POk (v, r) ->
     (exists l, v = JArray l) /\ exists pre, s = pre ++ 93%N :: r) /\
  (forall s acc v r, parse_members fuel s acc = POk (v, r) ->
     (exists m, v = JObject m) /\ consumed s r).
Proof.
  induction fuel as [|f (IHv & IHe & IHm)]; [repeat split; discriminate|].
  split; [|split].
  - intros s v r H. cbn [parse_value] in H.
    destruct s as [|c s']; [discriminate|].
    destruct (c =? 123)%N.
    { destruct (skip_ws_suffix s') as [ws Ews].
      destruct (skip_ws s') as [|d r'] eqn:Ew; [discriminate|].
      destruct (d =? 125)%N.
      - injection H as <- <-. split; [|intros l; discriminate].
        apply consumed_step. exists (ws ++ [d]).
        rewrite <- app_assoc. exact Ews.
      - apply IHm in H. destruct H as [[m ->] H].
        split; [|intros l; discriminate].
        apply consumed_step. apply consumed_suffix in H.
        eapply suffix_trans; [|exact H]. eauto. }
    destruct (c =? 91)%N eqn:Ec.
    { apply N.eqb_eq in Ec. subst c.
      destruct (skip_ws_suffix s') as [ws Ews].
      destruct (skip_ws s') as [|d r'] eqn:Ew; [discriminate|].
      destruct (d =? 93)%N eqn:Ed.
      - apply N.eqb_eq in Ed. subst d. injection H as <- <-. split.
        + apply consumed_step. exists (ws ++ [93%N]).
          rewrite <- app_assoc. exact Ews.
        + intros l _. split; [eauto|]. exists (91%N :: ws). cbn. congruence.
      - apply IHe in H. destruct H as [[l0 ->] [pre Hpre]]. split.
        + apply consumed_step. exists (ws ++ pre ++ [93%N]).
          rewrite Ews, Hpre, <- !app_assoc. reflexivity.
        + intros l _. split; [eauto|]. exists (91%N :: ws ++ pre).
          cbn. rewrite Ews, Hpre, <- app_assoc. reflexivity. }
    destruct (c =? 34)%N.
    { destruct (parse_string_body s' []) as [[str r']|] eqn:Eb; [|discriminate].
      injection H as <- <-. split; [|intros l; discriminate].
      apply (parse_string_body_consumed (length s')) in Eb; [|lia].
      apply consumed_step, consumed_suffix, Eb. }
    destruct (starts_with (js "true") (c :: s')) eqn:Et.
    { injection H as <- <-. split; [|intros l; discriminate].
      apply consumed_step. exists (take 3 s'). symmetry. exact (take_drop 3 s'). }
    destruct (starts_with (js "false") (c :: s')) eqn:Ef.
    { injection H as <- <-. split; [|intros l; discriminate].
      apply consumed_step. exists (take 4 s'). symmetry. exact (take_drop 4 s'). }
    destruct (starts_with (js "null") (c :: s')) eqn:En.
    { injection H as <- <-. split; [|intros l; discriminate].
      apply consumed_step. exists (take 3 s'). symmetry. exact (take_drop 3 s'). }
    destruct (parse_number (c :: s')) as [[lex r']|] eqn:Ep; [|discriminate].
    injection H as <- <-. split; [|intros l; discriminate].
    apply parse_number_consumed in Ep. exact Ep.
  - intros s acc v r H. cbn [parse_elements] in H.
    destruct (parse_value f s) as [[v1 r1]| |] eqn:Ev; try discriminate.
    apply IHv in Ev. destruct Ev as [Ev _]. apply consumed_suffix in Ev.
    destruct (skip_ws_suffix r1) as [ws Ews].
    destruct (skip_ws r1) as [|d r'] eqn:Ew; [discriminate|].
    destruct (d =? 44)%N.
    { apply IHe in H. destruct H as [Hl [pre Hpre]]. split; [exact Hl|].
      destruct (skip_ws_suffix r') as [ws' Ews'].
      destruct Ev as [a ->]. exists (a ++ ws ++ d :: ws' ++ pre).
      rewrite Ews, Ews', Hpre, <- !app_assoc. cbn. rewrite <- !app_assoc.
      reflexivity. }
    destruct (d =? 93)%N eqn:Ed; [|discriminate].
    apply N.eqb_eq in Ed. subst d. injection H as <- <-. split; [eauto|].
    destruct Ev as [a ->]. exists (a ++ ws). rewrite Ews, <- app_assoc. reflexivity.
  - intros s acc v r H. cbn [parse_members] in H.
    destruct s as [|q s']; [discriminate|].
    destruct (q =? 34)%N; [|discriminate].
    destruct (parse_string_body s' []) as [[key r1]|] eqn:Eb; [|discriminate].
    apply (parse_string_body_consumed (length s')) in Eb; [|lia].
    apply consumed_suffix in Eb.
    destruct (skip_ws_suffix r1) as [ws1 Ews1].
    destruct (skip_ws r1) as [|col r2] eqn:Ew1; [discriminate|].
    destruct (col =? 58)%N; [|discriminate].
    destruct (skip_ws_suffix r2) as [ws2 Ews2].
    destruct (parse_value f (skip_ws r2)) as [[v1 r3]| |] eqn:Ev; try discriminate.
    apply IHv in Ev. destruct Ev as [Ev _]. apply consumed_suffix in Ev.
    destruct (skip_ws_suffix r3) as [ws3 Ews3].
    destruct (skip_ws r3) as [|d r4] eqn:Ew3; [discriminate|].
    assert (Hr4 : exists pre, s' = pre ++ r4).
    { destruct Eb as [a ->]. destruct Ev as [b Eb'].
      exists (a ++ ws1 ++ col :: ws2 ++ b ++ ws3 ++ [d]).
      rewrite Ews1, Ews2, Eb', Ews3, <- !app_assoc. cbn.
      rewrite <- !app_assoc. reflexivity. }
    destruct (d =? 44)%N.
    { apply IHm in H. destruct H as [Hm H]. split; [exact Hm|].
      apply consumed_step. apply consumed_suffix in H.
      eapply suffix_trans; [exact Hr4|].
      eapply suffix_trans; [apply skip_ws_suffix|exact H]. }
    destruct (d =? 125)%N; [|discriminate]. injection H as <- <-.
    split; [eauto|]. apply consumed_step, Hr4.
Qed.

Lemma parser_shorter fuel :
  (forall s v r, parse_value fuel s = POk (v, r) -> length r < length s) /\
  (forall s acc v r, parse_elements fuel s acc = POk (v, r) -> length r < length s) /\
  (forall s acc v r, parse_members fuel s acc = POk (v, r) -> length r < length s).
Proof.
  destruct (parser_consumed fuel) as (Hv & He & Hm). split; [|split].
  - intros s v r H. apply consumed_shorter, (Hv _ _ _ H).
  - intros s acc v r H. destruct (He _ _ _ _ H) as [_ [pre ->]].
    rewrite length_app. cbn. lia.
  - intros s acc v r H. apply consumed_shorter, (Hm _ _ _ _ H).
Qed.

Lemma parser_fuel fuel :
  (forall s, 2 * length s + 1 <= fuel -> parse_value fuel s <> PFuel) /\
  (forall s acc, 2 * length s + 2 <= fuel -> parse_elements fuel s acc <> PFuel) /\
  (forall s acc, 2 * length s + 2 <= fuel -> parse_members fuel s acc <> PFuel).
Proof.
  induction fuel as [|f (IHv & IHe & IHm)]; [repeat split; intros; lia|].
  split; [|split].
  - intros s Hf. cbn [parse_value].
    destruct s as [|c s']; [discriminate|]. cbn [length] in Hf.
    destruct (c =? 123)%N.
    { pose proof (skip_ws_length s') as Hw.
      destruct (skip_ws s') as [|d r'] eqn:Ew; [discriminate|].
      destruct (d =? 125)%N; [discriminate|]. apply IHm. lia. }
    destruct (c =? 91)%N.
    { pose proof (skip_ws_length s') as Hw.
      destruct (skip_ws s') as [|d r'] eqn:Ew; [discriminate|].
      destruct (d =? 93)%N; [discriminate|]. apply IHe. lia. }
    destruct (c =? 34)%N.
    { destruct (parse_string_body s' []) as [[str r']|]; discriminate. }
    destruct (starts_with (js "true") (c :: s')); [discriminate|].
    destruct (starts_with (js "false") (c :: s')); [discriminate|].
    destruct (starts_with (js "null") (c :: s')); [discriminate|].
    destruct (parse_number (c :: s')) as [[lex r']|]; discriminate.
  - intros s acc Hf. cbn [parse_elements].
    destruct (parse_value f s) as [[v1 r1]| |] eqn:Ev; [|discriminate|].
    + apply (proj1 (parser_shorter f)) in Ev.
      pose proof (skip_ws_length r1) as Hw.
      destruct (skip_ws r1) as [|d r'] eqn:Ew; [discriminate|]. cbn [length] in Hw.
      destruct (d =? 44)%N.
      { apply IHe. pose proof (skip_ws_length r'). lia. }
      destruct (d =? 93)%N; discriminate.
    + exfalso. revert Ev. apply IHv. lia.
  - intros s acc Hf. cbn [parse_members].
    destruct s as [|q s']; [discriminate|]. cbn [length] in Hf.
    destruct (q =? 34)%N; [|discriminate].
    destruct (parse_string_body s' []) as [[key r1]|] eqn:Eb; [|discriminate].
    apply (parse_string_body_consumed (length s')) in Eb; [|lia].
    apply consumed_shorter in Eb.
    pose proof (skip_ws_length r1) as Hw1.
    destruct (skip_ws r1) as [|col r2] eqn:Ew1; [discriminate|]. cbn [length] in Hw1.
    destruct (col =? 58)%N; [|discriminate].
    pose proof (skip_ws_length r2) as Hw2.
    destruct (parse_value f (skip_ws r2)) as [[v1 r3]| |] eqn:Ev; [|discriminate|].
    + apply (proj1 (parser_shorter f)) in Ev.
      pose proof (skip_ws_length r3) as Hw3.
      destruct (skip_ws r3) as [|d r4] eqn:Ew3; [discriminate|]. cbn [length] in Hw3.
      destruct (d =? 44)%N.
      { apply IHm. pose proof (skip_ws_length r4). lia. }
      destruct (d =? 125)%N; discriminate.
    + exfalso. revert Ev. apply IHv. lia.
Qed.

(** The fuel that [JSON_parse] passes is enough for every text. *)
Lemma JSON_parse_total text : JSON_parse text <> PFuel.
Proof.
  unfold JSON_parse.
  destruct (parse_value (2 * length text + 2) (skip_ws text)) as [[v r]| |] eqn:E.
  - destruct (skip_ws r); discriminate.
  - discriminate.
  - exfalso. revert E. apply (proj1 (parser_fuel _)).
    pose proof (skip_ws_length text). lia.
Qed.

(** [cleanJsonResponse] returns or throws on every text. *)
Lemma cleanJsonResponse_total text :
  exists c, cleanJsonResponse text = Some c.
Proof.
  unfold cleanJsonResponse.
  destruct (JSON_parse (cleaned_text text)) eqn:E; eauto.
  exfalso. revert E. apply JSON_parse_total.
Qed.

(** *** More fuel changes nothing *)

Lemma parser_fuel_mono f : forall f', f <= f' ->
  (forall s, parse_value f s <> PFuel -> parse_value f' s = parse_value f s) /\
  (forall s acc, parse_elements f s acc <> PFuel ->
     parse_elements f' s acc = parse_elements f s acc) /\
  (forall s acc, parse_members f s acc <> PFuel ->
     parse_members f' s acc = parse_members f s acc).
Proof.
  induction f as [|f IH]; intros f' Hle.
  - repeat split; intros; cbn in *; congruence.
  - destruct f' as [|f']; [lia|].
    destruct (IH f' ltac:(lia)) as (IHv & IHe & IHm). split; [|split].
    + intros s H. cbn [parse_value] in *.
      destruct s as [|c s']; [reflexivity|].
      destruct (c =? 123)%N.
      { destruct (skip_ws s') as [|d r']; [reflexivity|].
        destruct (d =? 125)%N; [reflexivity|]. apply IHm, H. }
      destruct (c =? 91)%N.
      { destruct (skip_ws s') as [|d r']; [reflexivity|].
        destruct (d =? 93)%N; [reflexivity|]. apply IHe, H. }
      reflexivity.
    + intros s acc H. cbn [parse_elements] in *.
      destruct (parse_value f s) as [[v1 r1]| |] eqn:Ev; [| |congruence].
      * rewrite IHv, Ev by congruence.
        destruct (skip_ws r1) as [|d r']; [reflexivity|].
        destruct (d =? 44)%N; [apply IHe, H|reflexivity].
      * rewrite IHv, Ev by congruence. reflexivity.
    + intros s acc H. cbn [parse_members] in *.
      destruct s as [|q s']; [reflexivity|].
      destruct (q =? 34)%N; [|reflexivity].
      destruct (parse_string_body s' []) as [[key r1]|]; [|reflexivity].
      destruct (skip_ws r1) as [|col r2]; [reflexivity|].
      destruct (col =? 58)%N; [|reflexivity].
      destruct (parse_value f (skip_ws r2)) as [[v1 r3]| |] eqn:Ev; [| |congruence].
      * rewrite IHv, Ev by congruence.
        destruct (skip_ws r3) as [|d r4]; [reflexivity|].
        destruct (d =? 44)%N; [apply IHm, H|reflexivity].
      * rewrite IHv, Ev by congruence. reflexivity.
Qed.

Lemma parse_value_enough f1 f2 s :
  2 * length s + 1 <= f1 -> 2 * length s + 1 <= f2 ->
  parse_value f1 s = parse_value f2 s.
Proof.
  intros H1 H2. destruct (Nat.le_ge_cases f1 f2) as [Hle|Hle].
  - symmetry. apply (parser_fuel_mono f1 f2 Hle).
    apply (proj1 (parser_fuel f1)), H1.
  - apply (parser_fuel_mono f2 f1 Hle).
    apply (proj1 (parser_fuel f2)), H2.
Qed.

(** *** White space after the text changes nothing *)

Section Tail.

Variable w : list N.
Hypothesis Hw : forallb is_json_ws w = true.

Lemma ws_cases c : is_json_ws c = true -> c = 9%N \/ c = 10%N \/ c = 13%N \/ c = 32%N.
Proof.
  unfold is_json_ws. intros H.
  repeat (apply orb_true_iff in H; destruct H as [H|H]);
    apply N.eqb_eq in H; auto.
Qed.

Lemma drop_while_tail f s :
  (forall c, is_json_ws c = true -> f c = false) ->
  drop_while f (s ++ w) = drop_while f s ++ w.
Proof.
  intros Hf. induction s as [|c r IH]; cbn.
  - destruct w as [|c w']; [reflexivity|]. cbn in *.
    apply andb_true_iff in Hw. rewrite (Hf c) by tauto. reflexivity.
  - destruct (f c); [exact IH|reflexivity].
Qed.

Lemma skip_ws_tail s :
  skip_ws (s ++ w) = match skip_ws s with [] => [] | x => x ++ w end.
Proof.
  unfold skip_ws. induction s as [|c r IH]; cbn.
  - apply drop_while_all, Hw.
  - destruct (is_json_ws c); [exact IH|reflexivity].
Qed.

Lemma skip_if_tail f s :
  (forall c, is_json_ws c = true -> f c = false) ->
  skip_if f (s ++ w) = skip_if f s ++ w.
Proof.
  intros Hf. destruct s as [|c r]; cbn.
  - destruct w as [|c w']; [reflexivity|]. cbn in *.
    apply andb_true_iff in Hw. rewrite (Hf c) by tauto. reflexivity.
  - destruct (f c); reflexivity.
Qed.

Lemma ws_not_digit c : is_json_ws c = true -> is_digit c = false.
Proof. intros H. destruct (ws_cases c H) as [->|[->|[->| ->]]]; reflexivity. Qed.

Lemma digits1_tail s : digits1 (s ++ w) = (fun r => r ++ w) <$> digits1 s.
Proof.
  destruct s as [|c r]; cbn.
  - destruct w as [|c w']; [reflexivity|]. cbn in *.
    apply andb_true_iff in Hw. rewrite ws_not_digit by tauto. reflexivity.
  - destruct (is_digit c); [|reflexivity]. cbn.
    rewrite drop_while_tail by apply ws_not_digit. reflexivity.
Qed.

Lemma int_part_tail s : int_part (s ++ w) = (fun r => r ++ w) <$> int_part s.
Proof.
  destruct s as [|c r].
  - cbn [app int_part fmap option_fmap option_map].
    destruct w as [|c w']; [reflexivity|]. cbn in *.
    apply andb_true_iff in Hw. destruct Hw as [Hc _].
    destruct (ws_cases c Hc) as [->|[->|[->| ->]]]; reflexivity.
  - change ((c :: r) ++ w) with (c :: (r ++ w)). cbn [int_part].
    destruct (c =? 48)%N; [reflexivity|].
    change (c :: (r ++ w)) with ((c :: r) ++ w). apply digits1_tail.
Qed.

Lemma frac_part_tail s : frac_part (s ++ w) = (fun r => r ++ w) <$> frac_part s.
Proof.
  destruct s as [|c r].
  - cbn [app frac_part fmap option_fmap option_map].
    destruct w as [|c w']; [reflexivity|]. cbn in *.
    apply andb_true_iff in Hw. destruct Hw as [Hc _].
    destruct (ws_cases c Hc) as [->|[->|[->| ->]]]; reflexivity.
  - change ((c :: r) ++ w) with (c :: (r ++ w)). cbn [frac_part].
    destruct (c =? 46)%N; [apply digits1_tail|reflexivity].
Qed.

Lemma exp_part_tail s : exp_part (s ++ w) = (fun r => r ++ w) <$> exp_part s.
Proof.
  destruct s as [|c r].
  - cbn [app exp_part fmap option_fmap option_map].
    destruct w as [|c w']; [reflexivity|]. cbn in *.
    apply andb_true_iff in Hw. destruct Hw as [Hc _].
    destruct (ws_cases c Hc) as [->|[->|[->| ->]]]; reflexivity.
  - change ((c :: r) ++ w) with (c :: (r ++ w)). cbn [exp_part].
    destruct ((c =? 101)%N || (c =? 69)%N); [|reflexivity].
    rewrite skip_if_tail.
    + apply digits1_tail.
    + intros d Hd. destruct (ws_cases d Hd) as [->|[->|[->| ->]]]; reflexivity.
Qed.

Lemma parse_number_tail s :
  parse_number (s ++ w) = opt_with_tail w (parse_number s).
Proof.
  unfold parse_number. rewrite skip_if_tail.
  2:{ intros d Hd. destruct (ws_cases d Hd) as [->|[->|[->| ->]]]; reflexivity. }
  rewrite int_part_tail.
  destruct (int_part _) as [s2|] eqn:E2; [|reflexivity]. cbn.
  rewrite frac_part_tail.
  destruct (frac_part s2) as [s3|] eqn:E3; [|reflexivity]. cbn.
  rewrite exp_part_tail.
  destruct (exp_part s3) as [s4|] eqn:E4; [|reflexivity]. cbn.
  assert (Hlen : length s4 <= length s).
  { assert (Hp : parse_number s = Some (take (length s - length s4) s, s4)).
    { unfold parse_number. rewrite E2, E3, E4. reflexivity. }
    apply parse_number_consumed, consumed_shorter in Hp. lia. }
  rewrite !length_app.
  replace (length s + length w - (length s4 + length w)) with (length s - length s4)
    by lia.
  rewrite take_app_le by lia. reflexivity.
Qed.

Lemma string_body_ws : forall v acc,
  forallb is_json_ws v = true -> parse_string_body v acc = None.
Proof.
  induction v as [|c v IH]; intros acc H; [reflexivity|]. cbn in H.
  apply andb_true_iff in H. destruct H as [Hc Hv]. cbn [parse_string_body].
  destruct (ws_cases c Hc) as [->|[->|[->| ->]]]; cbn; try reflexivity.
  apply IH, Hv.
Qed.

Lemma ws_not_hex c : is_json_ws c = true -> hex_value c = None.
Proof. intros H. destruct (ws_cases c H) as [->|[->|[->| ->]]]; reflexivity. Qed.

Lemma hex4_short (hs : list N) (acc : list N) :
  length hs < 4 ->
  match hs ++ w with
  | h1 :: h2 :: h3 :: h4 :: r2 =>
      match hex_value h1, hex_value h2, hex_value h3, hex_value h4 with
      | Some a, Some b, Some c', Some d =>
          parse_string_body r2 ((((a * 16 + b) * 16 + c') * 16 + d)%N :: acc)
      | _, _, _, _ => None
      end
  | _ => None
  end = None.
Proof.
  intros Hlen.
  assert (Hall : forall i c, (hs ++ w) !! i = Some c -> length hs <= i ->
                        hex_value c = None).
  { intros i c Hc Hi. rewrite lookup_app_r in Hc by exact Hi.
    apply ws_not_hex. rewrite forallb_forall in Hw. apply Hw.
    apply list_elem_of_In. eapply list_elem_of_lookup_2, Hc. }
  destruct (hs ++ w) as [|h1 [|h2 [|h3 [|h4 r2]]]] eqn:E; try reflexivity.
  assert (H4 : hex_value h4 = None) by (apply (Hall 3); [reflexivity|lia]).
  rewrite H4.
  destruct (hex_value h1), (hex_value h2), (hex_value h3); reflexivity.
Qed.

Lemma parse_string_body_tail n : forall s acc,
  length s <= n ->
  parse_string_body (s ++ w) acc = opt_with_tail w (parse_string_body s acc).
Proof.
  induction n as [|n IH]; intros s acc Hn.
  - destruct s; [|cbn in Hn; lia]. cbn [app]. rewrite string_body_ws by exact Hw.
    reflexivity.
  - destruct s as [|c s'].
    { cbn [app]. rewrite string_body_ws by exact Hw. reflexivity. }
    cbn [length] in Hn. change ((c :: s') ++ w) with (c :: (s' ++ w)).
    cbn [parse_string_body].
    destruct (c =? 34)%N; [reflexivity|].
    destruct (c =? 92)%N.
    + destruct s' as [|e r1].
      { cbn [app opt_with_tail]. destruct w as [|e w'] eqn:Ew; [reflexivity|].
        cbn in Hw. apply andb_true_iff in Hw. destruct Hw as [He _].
        destruct (ws_cases e He) as [->|[->|[->| ->]]]; reflexivity. }
      change ((e :: r1) ++ w) with (e :: (r1 ++ w)). cbn [length] in Hn.
      cbv iota. destruct (e =? 117)%N.
      * destruct r1 as [|h1 [|h2 [|h3 [|h4 r2]]]].
        { apply (hex4_short [] acc). cbn. lia. }
        { apply (hex4_short [h1] acc). cbn. lia. }
        { apply (hex4_short [h1; h2] acc). cbn. lia. }
        { apply (hex4_short [h1; h2; h3] acc). cbn. lia. }
        change ((h1 :: h2 :: h3 :: h4 :: r2) ++ w)
          with (h1 :: h2 :: h3 :: h4 :: (r2 ++ w)).
        cbv iota.
        destruct (hex_value h1), (hex_value h2), (hex_value h3), (hex_value h4);
          try reflexivity.
        apply IH. cbn [length] in Hn. lia.
      * destruct (simple_escape e); [|reflexivity]. apply IH. lia.
    + destruct (c <? 32)%N; [reflexivity|]. apply IH. lia.
Qed.

Lemma starts_with_length p s : starts_with p s = true -> length p <= length s.
Proof.
  revert s. induction p as [|a p IH]; intros s H; [cbn; lia|].
  destruct s as [|b s]; [discriminate|]. cbn in H.
  apply andb_true_iff in H. destruct H as [_ H]. apply IH in H. cbn. lia.
Qed.

Lemma starts_with_tail p s :
  forallb (fun c => negb (is_json_ws c)) p = true ->
  starts_with p (s ++ w) = starts_with p s.
Proof.
  revert s. induction p as [|a p IH]; intros s Hp; [reflexivity|].
  cbn in Hp. apply andb_true_iff in Hp. destruct Hp as [Ha Hp].
  destruct s as [|b s].
  - cbn [app starts_with]. destruct w as [|c w'] eqn:Ew; [reflexivity|].
    cbn in Hw. apply andb_true_iff in Hw. destruct Hw as [Hc _].
    destruct (N.eqb_spec a c) as [->|Hne]; [|reflexivity].
    rewrite Hc in Ha. discriminate.
  - cbn. rewrite IH by exact Hp. reflexivity.
Qed.

Lemma with_tail_error {A} (x : presult (A * list N)) :
  (forall v r, x <> POk (v, r)) -> with_tail w x = x.
Proof. destruct x as [[v r]| |]; [intros H; destruct (H v r eq_refl)|reflexivity..]. Qed.

Lemma after_skip_ws (P : list N -> presult (json * list N)) (r : list N) :
  (forall s, P (s ++ w) = with_tail w (P s)) ->
  (forall v q, P [] <> POk (v, q)) ->
  P (skip_ws (r ++ w)) = with_tail w (P (skip_ws r)).
Proof.
  intros Htail Hnil. rewrite skip_ws_tail.
  destruct (skip_ws r) as [|d r'] eqn:E.
  - rewrite with_tail_error by exact Hnil. reflexivity.
  - apply Htail.
Qed.

Lemma parser_nil fuel :
  (forall v q, parse_value fuel [] <> POk (v, q)) /\
  (forall acc v q, parse_elements fuel [] acc <> POk (v, q)) /\
  (forall acc v q, parse_members fuel [] acc <> POk (v, q)).
Proof.
  destruct (parser_shorter fuel) as (Hv & He & Hm).
  split; [|split]; intros; intros H;
    [apply Hv in H|apply He in H|apply Hm in H]; cbn in H; lia.
Qed.

Lemma parser_tail fuel :
  (forall s, parse_value fuel (s ++ w) = with_tail w (parse_value fuel s)) /\
  (forall s acc, parse_elements fuel (s ++ w) acc
                 = with_tail w (parse_elements fuel s acc)) /\
  (forall s acc, parse_members fuel (s ++ w) acc
                 = with_tail w (parse_members fuel s acc)).
Proof.
  induction fuel as [|f (IHv & IHe & IHm)]; [repeat split|].
  destruct (parser_nil f) as (Nv & Ne & Nm).
  split; [|split].
  - intros s. destruct s as [|c s'].
    + cbn [app]. destruct w as [|c w'] eqn:Ew; [reflexivity|].
      cbn in Hw. apply andb_true_iff in Hw. destruct Hw as [Hc _].
      destruct (ws_cases c Hc) as [->|[->|[->| ->]]]; reflexivity.
    + change ((c :: s') ++ w) with (c :: (s' ++ w)). cbn [parse_value].
      destruct (c =? 123)%N.
      { rewrite skip_ws_tail. destruct (skip_ws s') as [|d r']; [reflexivity|].
        change ((d :: r') ++ w) with (d :: (r' ++ w)). cbv iota.
        destruct (d =? 125)%N; [reflexivity|].
        change (d :: (r' ++ w)) with ((d :: r') ++ w). apply IHm. }
      destruct (c =? 91)%N.
      { rewrite skip_ws_tail. destruct (skip_ws s') as [|d r']; [reflexivity|].
        change ((d :: r') ++ w) with (d :: (r' ++ w)). cbv iota.
        destruct (d =? 93)%N; [reflexivity|].
        change (d :: (r' ++ w)) with ((d :: r') ++ w). apply IHe. }
      destruct (c =? 34)%N.
      { rewrite (parse_string_body_tail (length s')) by lia.
        destruct (parse_string_body s' []) as [[str r']|]; reflexivity. }
      change (c :: (s' ++ w)) with ((c :: s') ++ w).
      rewrite !starts_with_tail by reflexivity.
      destruct (starts_with (js "true") (c :: s')) eqn:Et.
      { change (with_tail w (POk (JBool true, drop 4 (c :: s'))))
          with (POk (JBool true, drop 4 (c :: s') ++ w)).
        rewrite drop_app_le; [reflexivity|].
        apply starts_with_length in Et. exact Et. }
      destruct (starts_with (js "false") (c :: s')) eqn:Ef.
      { change (with_tail w (POk (JBool false, drop 5 (c :: s'))))
          with (POk (JBool false, drop 5 (c :: s') ++ w)).
        rewrite drop_app_le; [reflexivity|].
        apply starts_with_length in Ef. exact Ef. }
      destruct (starts_with (js "null") (c :: s')) eqn:En.
      { change (with_tail w (POk (JNull, drop 4 (c :: s'))))
          with (POk (JNull, drop 4 (c :: s') ++ w)).
        rewrite drop_app_le; [reflexivity|].
        apply starts_with_length in En. exact En. }
      rewrite parse_number_tail.
      destruct (parse_number (c :: s')) as [[lex r']|]; reflexivity.
  - intros s acc. cbn [parse_elements]. rewrite IHv.
    destruct (parse_value f s) as [[v1 r1]| |]; try reflexivity.
    cbn [with_tail]. rewrite skip_ws_tail.
    destruct (skip_ws r1) as [|d r']; [reflexivity|].
    change ((d :: r') ++ w) with (d :: (r' ++ w)). cbv iota.
    destruct (d =? 44)%N.
    { apply (after_skip_ws (fun x => parse_elements f x (v1 :: acc)));
        [intros x; apply IHe|intros v q; apply Ne]. }
    destruct (d =? 93)%N; reflexivity.
  - intros s acc. destruct s as [|q s'].
    + cbn [app]. destruct w as [|c w'] eqn:Ew; [reflexivity|].
      cbn in Hw. apply andb_true_iff in Hw. destruct Hw as [Hc _].
      destruct (ws_cases c Hc) as [->|[->|[->| ->]]]; reflexivity.
    + change ((q :: s') ++ w) with (q :: (s' ++ w)). cbn [parse_members].
      destruct (q =? 34)%N; [|reflexivity].
      rewrite (parse_string_body_tail (length s')) by lia.
      destruct (parse_string_body s' []) as [[key r1]|]; [|reflexivity].
      cbn [opt_with_tail]. rewrite skip_ws_tail.
      destruct (skip_ws r1) as [|col r2]; [reflexivity|].
      change ((col :: r2) ++ w) with (col :: (r2 ++ w)). cbv iota.
      destruct (col =? 58)%N; [|reflexivity].
      rewrite (after_skip_ws (parse_value f) r2 IHv Nv).
      destruct (parse_value f (skip_ws r2)) as [[v1 r3]| |]; try reflexivity.
      cbn [with_tail]. rewrite skip_ws_tail.
      destruct (skip_ws r3) as [|d r4]; [reflexivity|].
      change ((d :: r4) ++ w) with (d :: (r4 ++ w)). cbv iota.
      destruct (d =? 44)%N.
      { apply (after_skip_ws (fun x => parse_members f x ((key, v1) :: acc)));
          [intros x; apply IHm|intros v q'; apply Nm]. }
      destruct (d =? 125)%N; reflexivity.
Qed.

End Tail.

(** *** A text that parses as an array *)

Lemma JSON_parse_array text l :
  JSON_parse text = POk (JArray l) ->
  exists lead body trail,
    text = lead ++ body ++ trail /\
    forallb is_json_ws lead = true /\ forallb is_json_ws trail = true /\
    (exists b, body = 91%N :: b) /\ (exists b, body = b ++ [93%N]) /\
    JSON_parse body = POk (JArray l).
Proof.
  unfold JSON_parse. intros H.
  destruct (parse_value (2 * length text + 2) (skip_ws text)) as [[v r]| |] eqn:E;
    try discriminate.
  destruct (skip_ws r) as [|x r'] eqn:Er; [|discriminate].
  injection H as ->.
  destruct (drop_while_split is_json_ws text) as (lead & Etext & Hlead).
  fold (skip_ws text) in Etext.
  destruct (proj1 (parser_consumed _) _ _ _ E) as [_ Hc].
  destruct (Hc l eq_refl) as [[s' Es'] [pre Epre]].
  assert (Htrail : forallb is_json_ws r = true) by (apply drop_while_none, Er).
  assert (Hpre : exists b, pre = 91%N :: b).
  { rewrite Es' in Epre. destruct pre as [|y pre']; [discriminate|].
    injection Epre as <- _. eauto. }
  destruct Hpre as [b Eb].
  exists lead, (pre ++ [93%N]), r.
  split; [rewrite <- app_assoc; cbn; congruence|].
  split; [exact Hlead|]. split; [exact Htrail|].
  split; [exists (b ++ [93%N]); rewrite Eb; reflexivity|].
  split; [eauto|].
  assert (Hlen : length (pre ++ [93%N]) <= length text).
  { rewrite Etext, Epre, !length_app. cbn. lia. }
  assert (Hbody : parse_value (2 * length text + 2) (pre ++ [93%N])
                  = POk (JArray l, [])).
  { pose proof (proj1 (parser_tail r Htrail (2 * length text + 2)) (pre ++ [93%N]))
      as Ht.
    rewrite <- app_assoc in Ht. cbn [app] in Ht. rewrite <- Epre, E in Ht.
    destruct (parse_value (2 * length text + 2) (pre ++ [93%N]))
      as [[v0 r0]| |]; try discriminate.
    cbn in Ht. injection Ht as <- Hr.
    assert (r0 = []).
    { apply (f_equal (@length N)) in Hr. rewrite length_app in Hr.
      destruct r0; [reflexivity|cbn in Hr; lia]. }
    subst r0. reflexivity. }
  assert (Hskip : skip_ws (pre ++ [93%N]) = pre ++ [93%N]).
  { rewrite Eb. reflexivity. }
  rewrite Hskip.
  rewrite (parse_value_enough _ (2 * length text + 2)) by lia.
  rewrite Hbody. reflexivity.
Qed.

End JsonFacts.

(** ** [cleanJsonResponse] *)

Module CleanFacts.

Local Open Scope N_scope.

Lemma replace_go_no_match m r s :
  occurs m s = false -> replace_go m r O s = s.
Proof.
  induction s as [|c rest IH]; [reflexivity|].
  cbn [occurs replace_go]. destruct (m (c :: rest)) as [[|k]|]; try discriminate;
    intros H; rewrite (IH H); reflexivity.
Qed.

Lemma replace_all_no_match m r s : occurs m s = false -> replace_all m r s = s.
Proof. apply replace_go_no_match. Qed.

Lemma indexOf_from_range c s : forall i,
  (indexOf_from c s i = -1 \/ i <= indexOf_from c s i)%Z.
Proof.
  induction s as [|x r IH]; intros i; cbn [indexOf_from]; [left; reflexivity|].
  destruct (x =? c); [right; lia|].
  destruct (IH (i + 1)%Z) as [H|H]; [left; exact H|right; lia].
Qed.

Lemma substring_whole s : substring s 0 (Z.of_nat (length s)) = s.
Proof.
  unfold substring, clamp.
  replace (Z.to_nat (Z.min (Z.max 0 0) (Z.of_nat (length s)))) with O by lia.
  replace (Z.to_nat (Z.min (Z.max (Z.of_nat (length s)) 0) (Z.of_nat (length s))))
    with (length s) by lia.
  rewrite Nat.max_r, Nat.min_l, Nat.sub_0_r by lia.
  rewrite drop_0. apply firstn_all.
Qed.

Lemma cut_before_json_opening text :
  opens_json text = true -> cut_before_json text = text.
Proof.
  destruct text as [|c r]; [discriminate|]. cbn [opens_json]. intros H.
  unfold cut_before_json, indexOf. cbn [indexOf_from].
  assert (Hmin : forall a : option Z,
             (forall z, a = Some z -> (0 <= z)%Z) ->
             Math_min (Some 0%Z) a = Some 0%Z /\ Math_min a (Some 0%Z) = Some 0%Z).
  { intros [z|] Hz; cbn; [|split; reflexivity].
    specialize (Hz z eq_refl). split; f_equal; lia. }
  assert (Hidx : forall d z,
             (if negb (indexOf_from d r 1 =? -1)%Z
              then Some (indexOf_from d r 1) else None) = Some z -> (0 <= z)%Z).
  { intros d z. destruct (indexOf_from_range d r 1) as [E|E].
    - rewrite E. discriminate.
    - destruct (indexOf_from d r 1 =? -1)%Z; [discriminate|]. intros [= <-]. lia. }
  change (0 + 1)%Z with 1%Z.
  destruct (c =? 91) eqn:E1; destruct (c =? 123) eqn:E2; try discriminate;
    cbn [Z.eqb negb].
  - cbn. apply substring_whole.
  - rewrite (proj1 (Hmin _ (Hidx 123))). apply substring_whole.
  - rewrite (proj2 (Hmin _ (Hidx 91))). apply substring_whole.
Qed.

Lemma lastIndexOf_from_bound c s : forall i last,
  (last < i)%Z ->
  (lastIndexOf_from c s i last < i + Z.of_nat (length s))%Z.
Proof.
  induction s as [|x r IH]; intros i last Hl; cbn [lastIndexOf_from length].
  - lia.
  - specialize (IH (i + 1)%Z (if x =? c then i else last)).
    destruct (x =? c); lia.
Qed.

Lemma lastIndexOf_from_last c s : forall i last,
  (last < i)%Z -> List.last s (c + 1) = c -> s <> [] ->
  lastIndexOf_from c s i last = (i + Z.of_nat (length s) - 1)%Z.
Proof.
  induction s as [|x r IH]; intros i last Hl Hlast Hne; [congruence|].
  cbn [lastIndexOf_from length]. destruct r as [|y r'].
  - cbn in Hlast. subst x. rewrite N.eqb_refl. cbn. lia.
  - rewrite IH.
    + cbn [length]. lia.
    + destruct (x =? c); lia.
    + exact Hlast.
    + discriminate.
Qed.

Lemma last_default (s : list N) (c d : N) :
  last s = Some c -> List.last s d = c.
Proof.
  induction s as [|x r IH]; [discriminate|].
  destruct r as [|y r']; [intros [= <-]; reflexivity|].
  intros H. apply IH. exact H.
Qed.

(** A text that ends with a closing bracket or brace loses nothing at
    its end. *)
Lemma cut_after_json_closing text :
  closes_json text = true -> cut_after_json text = text.
Proof.
  unfold closes_json. destruct (last text) as [c|] eqn:Hl; [|discriminate].
  intros H. assert (Hne : text <> []) by (intros ->; discriminate).
  unfold cut_after_json, lastIndexOf.
  pose proof (lastIndexOf_from_bound 93 text 0 (-1) ltac:(lia)) as B1.
  pose proof (lastIndexOf_from_bound 125 text 0 (-1) ltac:(lia)) as B2.
  assert (Hlen : (0 < length text)%nat) by (destruct text; [congruence|cbn; lia]).
  assert (Hmax : Z.max (lastIndexOf_from 93 text 0 (-1))
                   (lastIndexOf_from 125 text 0 (-1))
                 = (Z.of_nat (length text) - 1)%Z).
  { apply orb_true_iff in H. destruct H as [H|H]; apply N.eqb_eq in H; subst c.
    - rewrite (lastIndexOf_from_last 93 text 0 (-1)); [lia|lia| |exact Hne].
      apply last_default, Hl.
    - rewrite (lastIndexOf_from_last 125 text 0 (-1)); [lia|lia| |exact Hne].
      apply last_default, Hl. }
  rewrite Hmax.
  destruct (Z.eqb_spec (Z.of_nat (length text) - 1) (-1)); [lia|]. cbn [negb].
  replace (Z.of_nat (length text) - 1 + 1)%Z with (Z.of_nat (length text)) by lia.
  apply substring_whole.
Qed.

Lemma trim_bracketed text :
  opens_json text = true -> closes_json text = true -> trim text = text.
Proof.
  intros Ho Hc. unfold trim.
  destruct text as [|c r]; [discriminate|]. cbn [opens_json] in Ho.
  rewrite JsonFacts.drop_while_stop.
  2:{ apply orb_true_iff in Ho. destruct Ho as [H|H]; apply N.eqb_eq in H;
      subst c; reflexivity. }
  unfold closes_json in Hc. destruct (last (c :: r)) as [d|] eqn:Hl; [|discriminate].
  apply last_Some in Hl. destruct Hl as [front Hl]. rewrite Hl.
  rewrite rev_app_distr. cbn [rev app].
  rewrite JsonFacts.drop_while_stop.
  2:{ apply orb_true_iff in Hc. destruct Hc as [H|H]; apply N.eqb_eq in H;
      subst d; reflexivity. }
  change (d :: rev front) with ([d] ++ rev front).
  rewrite rev_app_distr, rev_involutive. reflexivity.
Qed.

Lemma cleaned_text_plain text :
  has_markup text = false -> opens_json text = true ->
  closes_json text = true -> cleaned_text text = text.
Proof.
  unfold has_markup. intros Hm Ho Hc.
  repeat (apply orb_false_iff in Hm; destruct Hm as [Hm ?]).
  unfold cleaned_text, strip_fences, strip_tags, fix_entities.
  rewrite (replace_all_no_match fence_json) by assumption.
  rewrite (replace_all_no_match fence) by assumption.
  rewrite cut_before_json_opening by assumption.
  rewrite cut_after_json_closing by assumption.
  cbv zeta.
  rewrite (replace_all_no_match (match_lit (js "&quot;"))) by assumption.
  rewrite (replace_all_no_match (match_lit (js "&amp;"))) by assumption.
  rewrite (replace_all_no_match (match_lit (js "&lt;"))) by assumption.
  rewrite (replace_all_no_match (match_lit (js "&gt;"))) by assumption.
  rewrite (replace_all_no_match (match_lit (js "&apos;"))) by assumption.
  rewrite (replace_all_no_match html_tag) by assumption.
  apply trim_bracketed; assumption.
Qed.

(** *** Parts of a text without markup *)

Lemma occurs_app_r m a b : occurs m (a ++ b) = false -> occurs m b = false.
Proof.
  induction a as [|x a IH]; [trivial|]. cbn [app occurs].
  destruct (m (x :: a ++ b)) as [[|k]|]; try discriminate; exact IH.
Qed.

Lemma occurs_app_l m b c :
  prefix_stable m -> occurs m (b ++ c) = false -> occurs m b = false.
Proof.
  intros Hm. induction b as [|x b IH]; [reflexivity|].
  cbn [app occurs]. intros H.
  destruct (m (x :: b)) as [[|k]|] eqn:E.
  - destruct (m (x :: b ++ c)) as [[|k']|]; try discriminate; apply IH, H.
  - destruct (Hm (x :: b) c k E) as [k' E']. cbn [app] in E'.
    rewrite E' in H. discriminate.
  - destruct (m (x :: b ++ c)) as [[|k']|]; try discriminate; apply IH, H.
Qed.

Lemma starts_with_app p x y :
  starts_with p x = true -> starts_with p (x ++ y) = true.
Proof.
  revert x. induction p as [|a p IH]; intros x H; [reflexivity|].
  destruct x as [|b x]; [discriminate|]. cbn in *.
  apply andb_true_iff in H. destruct H as [H1 H2].
  rewrite H1, (IH _ H2). reflexivity.
Qed.

Lemma starts_with_ci_app p x y :
  starts_with_ci p x = true -> starts_with_ci p (x ++ y) = true.
Proof.
  revert x. induction p as [|a p IH]; intros x H; [reflexivity|].
  destruct x as [|b x]; [discriminate|]. cbn in *.
  apply andb_true_iff in H. destruct H as [H1 H2].
  rewrite H1, (IH _ H2). reflexivity.
Qed.

Lemma match_lit_stable p : prefix_stable (match_lit p).
Proof.
  intros x y n. unfold match_lit.
  destruct (starts_with p x) eqn:E; [|discriminate].
  rewrite (starts_with_app _ _ y E). eauto.
Qed.

Lemma fence_stable : prefix_stable fence.
Proof.
  intros x y n. unfold fence.
  destruct (starts_with (js "```") x) eqn:E; [|discriminate].
  rewrite (starts_with_app _ _ y E). intros _. eexists. reflexivity.
Qed.

Lemma fence_json_stable : prefix_stable fence_json.
Proof.
  intros x y n. unfold fence_json.
  destruct (starts_with_ci (js "```json") x) eqn:E; [|discriminate].
  rewrite (starts_with_ci_app _ _ y E). intros _. eexists. reflexivity.
Qed.

Lemma span_length_inside f r y :
  (span_length f r < length r)%nat ->
  span_length f (r ++ y) = span_length f r.
Proof.
  induction r as [|c r IH]; cbn; [lia|].
  destruct (f c); [|reflexivity]. intros H. rewrite IH by lia. reflexivity.
Qed.

Lemma html_tag_stable : prefix_stable html_tag.
Proof.
  intros x y n. unfold html_tag.
  destruct x as [|c r]; [discriminate|]. cbn [app].
  destruct (c =? 60); [|discriminate].
  destruct (span_length (fun x => negb (x =? 62)) r) as [|k] eqn:Es; [discriminate|].
  destruct (drop (S k) r) as [|d rest] eqn:Ed; [discriminate|].
  destruct (d =? 62) eqn:E62; [|discriminate]. intros _.
  assert (Hlen : (S k < length r)%nat).
  { apply (f_equal (@length N)) in Ed. rewrite length_drop in Ed. cbn in Ed. lia. }
  rewrite span_length_inside by lia. rewrite Es.
  rewrite drop_app_le by lia. rewrite Ed. cbn [app]. rewrite E62. eauto.
Qed.

Lemma has_markup_middle a b c :
  has_markup (a ++ b ++ c) = false -> has_markup b = false.
Proof.
  unfold has_markup. intros H.
  repeat (apply orb_false_iff in H; destruct H as [H ?]).
  repeat (apply orb_false_iff; split);
    eapply occurs_app_l;
    try (eapply occurs_app_r; eassumption);
    first [apply match_lit_stable | apply fence_stable
          | apply fence_json_stable | apply html_tag_stable].
Qed.

Lemma rewrite_plain text :
  has_markup text = false -> strip_tags (fix_entities text) = text.
Proof.
  unfold has_markup. intros Hm.
  repeat (apply orb_false_iff in Hm; destruct Hm as [Hm ?]).
  unfold strip_tags, fix_entities. cbv zeta.
  rewrite (replace_all_no_match (match_lit (js "&quot;"))) by assumption.
  rewrite (replace_all_no_match (match_lit (js "&amp;"))) by assumption.
  rewrite (replace_all_no_match (match_lit (js "&lt;"))) by assumption.
  rewrite (replace_all_no_match (match_lit (js "&gt;"))) by assumption.
  rewrite (replace_all_no_match (match_lit (js "&apos;"))) by assumption.
  apply replace_all_no_match. assumption.
Qed.

Lemma strip_fences_plain text :
  has_markup text = false -> strip_fences text = text.
Proof.
  unfold has_markup. intros Hm.
  repeat (apply orb_false_iff in Hm; destruct Hm as [Hm ?]).
  unfold strip_fences.
  rewrite (replace_all_no_match fence_json) by assumption.
  apply replace_all_no_match. assumption.
Qed.

(** *** White space around the array *)

Lemma indexOf_from_skip c lead rest : forall i,
  forallb (fun x => negb (x =? c)) lead = true ->
  indexOf_from c (lead ++ rest) i
  = indexOf_from c rest (i + Z.of_nat (length lead))%Z.
Proof.
  induction lead as [|x lead IH]; intros i H; cbn [app length].
  - f_equal. lia.
  - cbn in H. apply andb_true_iff in H. destruct H as [Hx H].
    cbn [indexOf_from]. apply negb_true_iff in Hx. rewrite Hx.
    rewrite IH by exact H. f_equal. lia.
Qed.

Lemma ws_forall (P : N -> bool) (ws : list N) :
  P 9 = true -> P 10 = true -> P 13 = true -> P 32 = true ->
  forallb is_json_ws ws = true -> forallb P ws = true.
Proof.
  intros H9 H10 H13 H32. induction ws as [|x ws IH]; [reflexivity|].
  cbn. intros H. apply andb_true_iff in H. destruct H as [Hx H].
  rewrite (IH H), andb_true_r.
  destruct (JsonFacts.ws_cases x Hx) as [->|[->|[->| ->]]]; assumption.
Qed.

Lemma substring_from_drop s n :
  (n <= length s)%nat -> substring_from s (Z.of_nat n) = drop n s.
Proof.
  intros H. unfold substring_from, substring, clamp.
  replace (Z.to_nat (Z.min (Z.max (Z.of_nat n) 0) (Z.of_nat (length s))))
    with n by lia.
  replace (Z.to_nat (Z.min (Z.max (Z.of_nat (length s)) 0) (Z.of_nat (length s))))
    with (length s) by lia.
  rewrite Nat.max_r, Nat.min_l by lia.
  apply take_ge. rewrite length_drop. lia.
Qed.

Lemma substring_take s n :
  (n <= length s)%nat -> substring s 0 (Z.of_nat n) = take n s.
Proof.
  intros H. unfold substring, clamp.
  replace (Z.to_nat (Z.min (Z.max 0 0) (Z.of_nat (length s)))) with O by lia.
  replace (Z.to_nat (Z.min (Z.max (Z.of_nat n) 0) (Z.of_nat (length s))))
    with n by lia.
  rewrite Nat.max_r, Nat.min_l, Nat.sub_0_r by lia. rewrite drop_0. reflexivity.
Qed.

Lemma cut_before_json_lead lead b rest :
  forallb is_json_ws lead = true ->
  cut_before_json (lead ++ 91 :: b ++ rest) = 91 :: b ++ rest.
Proof.
  intros Hlead. unfold cut_before_json, indexOf.
  rewrite !indexOf_from_skip by (apply ws_forall; [reflexivity..|exact Hlead]).
  cbn [indexOf_from]. change (91 =? 91) with true. change (91 =? 123) with false.
  cbv iota.
  destruct (indexOf_from_range 123 (b ++ rest) (0 + Z.of_nat (length lead) + 1))
    as [E|E].
  - rewrite E. change (-1 =? -1)%Z with true.
    destruct (Z.eqb_spec (0 + Z.of_nat (length lead)) (-1)); [lia|].
    cbn [negb Math_min].
    replace (0 + Z.of_nat (length lead))%Z with (Z.of_nat (length lead)) by lia.
    rewrite substring_from_drop by (rewrite length_app; lia).
    rewrite drop_app_length. reflexivity.
  - destruct (Z.eqb_spec (0 + Z.of_nat (length lead)) (-1)); [lia|].
    destruct (Z.eqb_spec
                (indexOf_from 123 (b ++ rest) (0 + Z.of_nat (length lead) + 1)) (-1));
      [lia|].
    cbn [negb Math_min].
    rewrite Z.min_l by lia.
    replace (0 + Z.of_nat (length lead))%Z with (Z.of_nat (length lead)) by lia.
    rewrite substring_from_drop by (rewrite length_app; lia).
    rewrite drop_app_length. reflexivity.
Qed.

Lemma lastIndexOf_from_skip c s trail : forall i last,
  forallb (fun x => negb (x =? c)) trail = true ->
  lastIndexOf_from c (s ++ trail) i last = lastIndexOf_from c s i last.
Proof.
  induction s as [|x s IH]; intros i last H; cbn [app lastIndexOf_from].
  - revert i last. induction trail as [|y trail IHt]; intros i last; [reflexivity|].
    cbn in H. apply andb_true_iff in H. destruct H as [Hy H].
    cbn [lastIndexOf_from]. apply negb_true_iff in Hy. rewrite Hy.
    apply IHt, H.
  - apply IH, H.
Qed.

Lemma lastIndexOf_from_lower c s : forall i last,
  (last < i)%Z -> (last <= lastIndexOf_from c s i last)%Z.
Proof.
  induction s as [|x r IH]; intros i last Hl; cbn [lastIndexOf_from]; [lia|].
  specialize (IH (i + 1)%Z (if x =? c then i else last)).
  destruct (x =? c); lia.
Qed.

Lemma cut_after_json_trail body trail :
  closes_json body = true -> forallb is_json_ws trail = true ->
  cut_after_json (body ++ trail) = body.
Proof.
  intros Hc Htrail.
  pose proof (cut_after_json_closing body Hc) as Hbody.
  unfold cut_after_json, lastIndexOf in *.
  rewrite !lastIndexOf_from_skip by (apply ws_forall; [reflexivity..|exact Htrail]).
  set (jsonEnd := Z.max (lastIndexOf_from 93 body 0 (-1))
                    (lastIndexOf_from 125 body 0 (-1))) in *.
  pose proof (lastIndexOf_from_bound 93 body 0 (-1) ltac:(lia)) as B1.
  pose proof (lastIndexOf_from_bound 125 body 0 (-1) ltac:(lia)) as B2.
  destruct (Z.eqb_spec jsonEnd (-1)) as [E|E]; cbn [negb] in *.
  - (* no closing bracket at all: impossible *)
    exfalso. unfold closes_json in Hc.
    destruct (last body) as [c|] eqn:Hl; [|discriminate].
    assert (Hne : body <> []) by (intros ->; discriminate).
    apply orb_true_iff in Hc. destruct Hc as [H|H]; apply N.eqb_eq in H; subst c.
    + pose proof (lastIndexOf_from_last 93 body 0 (-1) ltac:(lia)
                    (last_default _ _ _ Hl) Hne).
      destruct body; [congruence|cbn [length] in *; lia].
    + pose proof (lastIndexOf_from_last 125 body 0 (-1) ltac:(lia)
                    (last_default _ _ _ Hl) Hne).
      destruct body; [congruence|cbn [length] in *; lia].
  - pose proof (lastIndexOf_from_lower 93 body 0 (-1) ltac:(lia)) as L1.
    assert (Hz : (0 <= jsonEnd + 1 <= Z.of_nat (length body))%Z)
      by (unfold jsonEnd in *; lia).
    replace (jsonEnd + 1)%Z with (Z.of_nat (Z.to_nat (jsonEnd + 1))) in * by lia.
    rewrite substring_take in Hbody by lia.
    rewrite substring_take by (rewrite length_app; lia).
    rewrite take_app_le by lia. exact Hbody.
Qed.

(** A text without markup that parses as an array is cleaned to the
    array without the white space around it. *)
Lemma cleaned_text_array text l :
  has_markup text = false -> JSON_parse text = POk (JArray l) ->
  exists lead trail,
    text = lead ++ cleaned_text text ++ trail /\
    forallb is_json_ws lead = true /\ forallb is_json_ws trail = true /\
    JSON_parse (cleaned_text text) = POk (JArray l).
Proof.
  intros Hm Hp.
  destruct (JsonFacts.JSON_parse_array text l Hp)
    as (lead & body & trail & Et & Hlead & Htrail & [b Eb] & [b' Eb'] & Hbody).
  assert (Hopen : opens_json body = true) by (rewrite Eb; reflexivity).
  assert (Hclose : closes_json body = true).
  { unfold closes_json. rewrite Eb', last_snoc. reflexivity. }
  assert (Hmb : has_markup body = false).
  { apply (has_markup_middle lead body trail). rewrite <- Et. exact Hm. }
  assert (Hclean : cleaned_text text = body).
  { unfold cleaned_text. rewrite strip_fences_plain by exact Hm.
    rewrite Et, Eb. rewrite <- app_comm_cons.
    rewrite cut_before_json_lead by exact Hlead.
    rewrite app_comm_cons, <- Eb.
    rewrite cut_after_json_trail by assumption.
    rewrite rewrite_plain by exact Hmb.
    apply trim_bracketed; assumption. }
  exists lead, trail. rewrite Hclean. repeat split; assumption.
Qed.

(** C1, as stated, fails: the text [with_entity] parses as an array of
    one record, and [cleanJsonResponse] returns a text whose record has
    another question. *)
Lemma cleaning_alters_valid_json :
  JSON_parse with_entity
    = POk (JArray [JObject [(js "question", JString (js "A &amp; B"))]]) /\
  cleanJsonResponse with_entity = Some (Return entity_decoded) /\
  JSON_parse entity_decoded
    = POk (JArray [JObject [(js "question", JString (js "A & B"))]]) /\
  JSON_parse entity_decoded <> JSON_parse with_entity.
Proof.
  repeat split; try (vm_compute; reflexivity).
  vm_compute. discriminate.
Qed.

(** C1, amended.  For every text that parses as a JSON array and
    contains no code fence, none of the five HTML entities and no HTML
    tag, [cleanJsonResponse] returns the text without the white space
    around it, and the returned text parses to the same array of records
    as the original. *)
Theorem clean_preserves_plain_arrays (text : list N) (l : list json)
    (Hmarkup : has_markup text = false)
    (Hparse : JSON_parse text = POk (JArray l)) :
  exists cleaned lead trail,
    cleanJsonResponse text = Some (Return cleaned) /\
    text = lead ++ cleaned ++ trail /\
    forallb is_json_ws lead = true /\ forallb is_json_ws trail = true /\
    JSON_parse cleaned = JSON_parse text.
Proof.
  destruct (cleaned_text_array text l Hmarkup Hparse)
    as (lead & trail & Et & Hlead & Htrail & Hp).
  exists (cleaned_text text), lead, trail.
  unfold cleanJsonResponse. rewrite Hp, Hparse. repeat split; assumption.
Qed.

Lemma clean_preserves_plain_arrays_witness :
  exists cleaned,
    cleanJsonResponse (js " " ++ one_record ++ js " ") = Some (Return cleaned) /\
    JSON_parse cleaned = JSON_parse (js " " ++ one_record ++ js " ").
Proof.
  destruct (clean_preserves_plain_arrays (js " " ++ one_record ++ js " ")
              [JObject [(js "id", JNumber (js "1"));
                        (js "question", JString (js "Q?"))]]
              ltac:(vm_compute; reflexivity) ltac:(vm_compute; reflexivity))
    as (cleaned & lead & trail & H1 & _ & _ & _ & H2).
  exists cleaned. split; assumption.
Defined.

(** On a text that has no markup, begins with an opening bracket or
    brace and ends with a closing one, the cleaning is the identity, be
    the text an array or not. *)
Lemma clean_is_identity_on_plain_json (text : list N) :
  has_markup text = false -> opens_json text = true ->
  closes_json text = true ->
  cleaned_text text = text /\
  forall v, JSON_parse text = POk v ->
    cleanJsonResponse text = Some (Return text).
Proof.
  intros Hmarkup Hopen Hclose.
  pose proof (cleaned_text_plain text Hmarkup Hopen Hclose) as E.
  split; [exact E|]. intros v Hv.
  unfold cleanJsonResponse. rewrite E, Hv. reflexivity.
Qed.

(** C9, as stated, fails: for the array followed by one extra closing
    bracket no text is returned, hence no record. *)
Lemma extra_bracket_returns_no_record :
  ~ exists cleaned, cleanJsonResponse extra_bracket = Some (Return cleaned).
Proof. intros [cleaned H]. vm_compute in H. discriminate. Qed.

(** C9, amended.  [cleanJsonResponse] cuts after the last closing
    bracket or brace of the text, matching or not, so a text that ends
    with a closing bracket is not trimmed.  For the array followed by one
    extra closing bracket the text reaches [JSON.parse] unchanged and the
    call throws the syntax error; trailing text without a closing bracket
    is cut and the one record comes back. *)
Theorem extra_closing_bracket_is_kept :
  (forall text, closes_json text = true -> cut_after_json text = text) /\
  cleaned_text extra_bracket = extra_bracket /\
  JSON_parse extra_bracket = PSyntaxError /\
  cleanJsonResponse extra_bracket = Some (Throw SyntaxError) /\
  cleanJsonResponse (one_record ++ js " Here are the MCQs")
    = Some (Return one_record) /\
  JSON_parse one_record
    = POk (JArray [JObject [(js "id", JNumber (js "1"));
                            (js "question", JString (js "Q?"))]]).
Proof.
  split; [exact cut_after_json_closing|].
  repeat split; vm_compute; reflexivity.
Qed.

Lemma extra_closing_bracket_is_kept_witness :
  cut_after_json extra_bracket = extra_bracket.
Proof. apply (proj1 extra_closing_bracket_is_kept). reflexivity. Defined.

End CleanFacts.

(** ** The completion detector *)

Module DetectorFacts.

Import Detector.
Local Open Scope Z_scope.

Lemma streak_zero log : streak log 0.
Proof. exists log. reflexivity. Qed.

Lemma streak_succ log n : streak log n -> streak (Poll true :: log) (S n).
Proof. intros [older ->]. exists older. reflexivity. Qed.

Lemma on_mutations_startTime m now records :
  startTime (on_mutations m now records) = startTime m.
Proof. unfold on_mutations. destruct (relevantMutation records); reflexivity. Qed.

Lemma on_tick_startTime maxWaitMs m t1 t2 dom m' :
  on_tick maxWaitMs m t1 t2 dom = inl m' -> startTime m' = startTime m.
Proof.
  unfold on_tick. intros H.
  destruct (maxWaitMs <=? t1 - startTime m); [discriminate|].
  destruct (isComplete _); [destruct (_ <=? _)%nat|]; inversion H; reflexivity.
Qed.

(** A poll that does not see the completion condition puts the count
    back to zero. *)
Lemma incomplete_poll_resets maxWaitMs m t1 t2 dom :
  t1 - startTime m < maxWaitMs ->
  isComplete (checkCompletionSignals m dom t2) = false ->
  on_tick maxWaitMs m t1 t2 dom = inl (with_count m 0).
Proof.
  intros Hlt Hc. unfold on_tick.
  destruct (Z.leb_spec maxWaitMs (t1 - startTime m)); [lia|].
  rewrite Hc. reflexivity.
Qed.

(** A relevant mutation does the same. *)
Lemma relevant_mutation_resets m now records :
  relevantMutation records = true ->
  stableCount (on_mutations m now records) = 0%nat.
Proof. intros H. unfold on_mutations. rewrite H. reflexivity. Qed.

Lemma monitor_loop_app maxWaitMs m pre post :
  monitor_loop maxWaitMs m (pre ++ post) =
  match monitor_loop maxWaitMs m pre with
  | inl m' => monitor_loop maxWaitMs m' post
  | inr g => inr g
  end.
Proof.
  revert m. induction pre as [|ev pre IH]; intros m; simpl; [reflexivity|].
  destruct ev as [now records|t1 t2 dom]; [apply IH|].
  destruct (on_tick maxWaitMs m t1 t2 dom); [apply IH|reflexivity].
Qed.

Lemma monitor_loop_startTime maxWaitMs m evs m' :
  monitor_loop maxWaitMs m evs = inl m' -> startTime m' = startTime m.
Proof.
  revert m. induction evs as [|ev evs IH]; intros m; simpl.
  - intros H. inversion H. reflexivity.
  - destruct ev as [now records|t1 t2 dom].
    + intros H. rewrite (IH _ H). apply on_mutations_startTime.
    + destruct (on_tick maxWaitMs m t1 t2 dom) eqn:E; [|discriminate].
      intros H. rewrite (IH _ H). eapply on_tick_startTime, E.
Qed.

(** The count is the length of the current run of complete polls. *)
Lemma completed_after_streak maxWaitMs evs : forall m log s,
  streak log (stableCount m) ->
  monitor_loop maxWaitMs m evs = inr (Completed s) ->
  isComplete s = true /\
  streak (poll_log maxWaitMs m evs log) STABLE_CHECKS_NEEDED.
Proof.
  induction evs as [|ev evs IH]; intros m log s Hs;
    cbn [monitor_loop poll_log]; [discriminate|].
  destruct ev as [now records|t1 t2 dom].
  - intros H. eapply IH; [|exact H].
    unfold on_mutations. destruct (relevantMutation records).
    + apply streak_zero.
    + exact Hs.
  - unfold on_tick.
    destruct (maxWaitMs <=? t1 - startTime m); [discriminate|].
    destruct (isComplete (checkCompletionSignals m dom t2)) eqn:Hc;
      cbn [stableCount with_count].
    + destruct (Nat.leb_spec STABLE_CHECKS_NEEDED (S (stableCount m))) as [Hq|Hq].
      * intros [= <-]. split; [exact Hc|].
        apply streak_succ in Hs. destruct Hs as [older Ho].
        rewrite Ho.
        replace (S (stableCount m))
          with (STABLE_CHECKS_NEEDED + (S (stableCount m) - STABLE_CHECKS_NEEDED))%nat
          by lia.
        rewrite repeat_app, <- app_assoc. eexists. reflexivity.
      * intros H. eapply IH; [|exact H].
        apply streak_succ, Hs.
    + intros H. eapply IH; [|exact H]. apply streak_zero.
Qed.

(** C3. The detector resolves with [completed: true] only when the
    completion condition, copy button visible or else stop button gone,
    text unchanged for [STABLE_DURATION_MS] = 1500 and typing cursor gone,
    has held at the five most recent polls with no reset between them:
    the most recent entries of the poll log are five complete polls.  A
    poll that misses the condition puts the count back to zero, so fewer
    than five complete polls followed by a miss never complete. *)
Theorem completion_needs_quorum (maxWaitMs now : Z) (evs : list page_event)
    (s : signals)
    (Hdone : monitor_loop maxWaitMs (start_monitor now) evs = inr (Completed s)) :
  STABLE_CHECKS_NEEDED = 5%nat /\ STABLE_DURATION_MS = 1500 /\
  POLL_INTERVAL_MS = 500 /\
  isComplete s = true /\
  (forall m dom t,
     isComplete (checkCompletionSignals m dom t) =
     (copyButton (checkCompletionSignals m dom t)
      || (stopButton (checkCompletionSignals m dom t)
          && (1500 <=? t - lastMutationTime m)
          && cursorGone (checkCompletionSignals m dom t)))) /\
  (forall m t1 t2 dom,
     t1 - startTime m < maxWaitMs ->
     isComplete (checkCompletionSignals m dom t2) = false ->
     on_tick maxWaitMs m t1 t2 dom = inl (with_count m 0)) /\
  exists older,
    poll_log maxWaitMs (start_monitor now) evs [] =
    [Poll true; Poll true; Poll true; Poll true; Poll true] ++ older.
Proof.
  destruct (completed_after_streak maxWaitMs evs (start_monitor now) [] s
              (streak_zero _) Hdone) as [Hc Hlog].
  repeat split; try reflexivity; try exact Hc.
  - intros. apply incomplete_poll_resets; assumption.
  - exact Hlog.
Qed.

Lemma completion_needs_quorum_witness :
  exists s older,
    monitor_loop 180000 (start_monitor 0) five_polls = inr (Completed s) /\
    poll_log 180000 (start_monitor 0) five_polls [] =
    [Poll true; Poll true; Poll true; Poll true; Poll true] ++ older.
Proof.
  eexists. 
  destruct (completion_needs_quorum 180000 0 five_polls
              (checkCompletionSignals (start_monitor 0) done_dom 2500) eq_refl)
    as (_ & _ & _ & _ & _ & _ & older & H).
  exists older. split; [reflexivity|exact H].
Defined.

(** Four complete polls, then a poll with the stop button back, then
    four more complete polls: the promise is still pending. *)
Example flicker_does_not_complete :
  monitor_loop 180000 (start_monitor 0)
    [Tick 500 500 done_dom; Tick 1000 1000 done_dom; Tick 1500 1500 done_dom;
     Tick 2000 2000 done_dom; Tick 2500 2500 busy_dom;
     Tick 3000 3000 done_dom; Tick 3500 3500 done_dom; Tick 4000 4000 done_dom;
     Tick 4500 4500 done_dom]
  = inl {| startTime := 0; lastMutationTime := 0; stableCount := 4 |}.
Proof. reflexivity. Qed.

(** A poll that finds the deadline passed resolves the promise. *)
Lemma deadline_resolves maxWaitMs m t1 t2 dom rest :
  maxWaitMs <= t1 - startTime m ->
  monitor_loop maxWaitMs m (Tick t1 t2 dom :: rest) = inr TimedOut.
Proof.
  intros H. cbn [monitor_loop]. unfold on_tick.
  destruct (Z.leb_spec maxWaitMs (t1 - startTime m)); [reflexivity|lia].
Qed.

(** Whatever the page does, the promise is settled once a poll has run
    at or after the deadline. *)
Lemma monitor_settles_by_deadline maxWaitMs evs : forall m t1 t2 dom,
  In (Tick t1 t2 dom) evs -> maxWaitMs <= t1 - startTime m ->
  exists g, monitor_loop maxWaitMs m evs = inr g.
Proof.
  induction evs as [|ev evs IH]; intros m t1 t2 dom Hin Hd; [destruct Hin|].
  destruct Hin as [->|Hin].
  - exists TimedOut. apply deadline_resolves, Hd.
  - cbn [monitor_loop]. destruct ev as [now records|u1 u2 d].
    + apply (IH _ t1 t2 dom Hin). rewrite on_mutations_startTime. exact Hd.
    + destruct (on_tick maxWaitMs m u1 u2 d) as [m'|g] eqn:E.
      * apply (IH _ t1 t2 dom Hin).
        rewrite (on_tick_startTime _ _ _ _ _ _ E). exact Hd.
      * exists g. reflexivity.
Qed.

(** C7. When a poll finds the deadline passed and the quorum has not
    been met before, the detection promise resolves with
    [{completed: false}]; it does not reject.  [waitForResponse] goes on
    to the extraction exactly as after a confirmed completion, and it
    returns the text of the last message when that text has at least 50
    characters. *)
Theorem deadline_degrades_to_extraction (timeoutMs : Z) (run : page_run)
    (pre post : list page_event) (t1 t2 : Z) (dom : observation) (m : monitor)
    (Hsel : selector_appears run = true)
    (Hmsg : messages_at_start run <> O)
    (Hevs : events run = pre ++ Tick t1 t2 dom :: post)
    (Hpending : monitor_loop timeoutMs (start_monitor (evaluate_now run)) pre
                = inl m)
    (Hdeadline : timeoutMs <= t1 - evaluate_now run) :
  monitor_loop timeoutMs (start_monitor (evaluate_now run)) (events run)
    = inr TimedOut /\
  completed TimedOut = false /\
  try_block timeoutMs run
    = Some (extract_after_detection TimedOut (messages_after run)) /\
  (forall s, extract_after_detection TimedOut (messages_after run)
             = extract_after_detection (Completed s) (messages_after run)) /\
  (forall el, last (messages_after run) = Some el ->
     (50 <= length (extract el))%nat ->
     waitForResponse timeoutMs run = Some (Return (extract el))).
Proof.
  assert (Hloop : monitor_loop timeoutMs (start_monitor (evaluate_now run))
                    (events run) = inr TimedOut).
  { rewrite Hevs, monitor_loop_app, Hpending. apply deadline_resolves.
    rewrite (monitor_loop_startTime _ _ _ _ Hpending). exact Hdeadline. }
  assert (Htry : try_block timeoutMs run
                 = Some (extract_after_detection TimedOut (messages_after run))).
  { unfold try_block. rewrite Hsel, Hloop. cbn [negb].
    destruct (Nat.eqb_spec (messages_at_start run) 0); [contradiction|reflexivity]. }
  repeat split; try assumption; try reflexivity.
  intros el Hlast Hlen. unfold waitForResponse. rewrite Htry.
  unfold extract_after_detection. rewrite Hlast.
  destruct (Nat.ltb_spec (length (extract el)) 50); [lia|reflexivity].
Qed.

Lemma deadline_degrades_to_extraction_witness :
  monitor_loop 180000 (start_monitor 0) (events (stalled_run 60)) = inr TimedOut /\
  waitForResponse 180000 (stalled_run 60) = Some (Return (long_text 60)).
Proof.
  destruct (deadline_degrades_to_extraction 180000 (stalled_run 60)
              [Tick 500 500 busy_dom] [] 180000 180000 busy_dom
              {| startTime := 0; lastMutationTime := 0; stableCount := 0 |}
              eq_refl ltac:(discriminate) eq_refl eq_refl ltac:(cbn; lia))
    as (H1 & _ & _ & _ & H5).
  split; [exact H1|].
  apply (H5 {| codeBlock := None; markdown := None; textContent := long_text 60 |}).
  - reflexivity.
  - vm_compute. lia.
Defined.

End DetectorFacts.

(** ** The request coordinator *)

Module ServerFacts.

Import Server.
Local Open Scope Z_scope.

#[local] Arguments generateCacheKey : simpl never.

(** *** What [settle] changes *)

Lemma resume_call_calls p o now st c :
  calls (resume_call p o now st c) = calls st ++ [resumed p o now c].
Proof.
  unfold resume_call, resumed.
  destruct c as [why|q|q key|r until key|fin]; try reflexivity;
    destruct (decide (q = p)); try reflexivity; destruct o; try reflexivity.
  destruct (decide (activeRequestText st = Some key)); reflexivity.
Qed.

Lemma resume_call_rest p o now st c :
  isInitialized (resume_call p o now st c) = isInitialized st /\
  isPaused (resume_call p o now st c) = isPaused st /\
  pauseTimestamp (resume_call p o now st c) = pauseTimestamp st /\
  responseCache (resume_call p o now st c) = responseCache st /\
  exchanges (resume_call p o now st c) = exchanges st /\
  page_input (resume_call p o now st c) = page_input st.
Proof.
  unfold resume_call.
  destruct c as [why|q|q key|r until key|fin]; try (repeat split; reflexivity);
    destruct (decide (q = p)); try (repeat split; reflexivity);
    destruct o; try (repeat split; reflexivity).
  destruct (decide (activeRequestText st = Some key)); repeat split; reflexivity.
Qed.

Lemma resume_call_active_return p r now st c :
  activeRequest (resume_call p (Return r) now st c) = activeRequest st /\
  activeRequestText (resume_call p (Return r) now st c) = activeRequestText st.
Proof.
  unfold resume_call.
  destruct c as [why|q|q key|r' until key|fin]; try (split; reflexivity);
    destruct (decide (q = p)); split; reflexivity.
Qed.

Lemma fold_resume_calls p o now l : forall acc,
  calls (fold_left (resume_call p o now) l acc)
  = calls acc ++ (resumed p o now <$> l).
Proof.
  induction l as [|c l IH]; intros acc; cbn [fold_left].
  - rewrite app_nil_r. reflexivity.
  - rewrite IH, resume_call_calls, fmap_cons, <- app_assoc. reflexivity.
Qed.

Lemma fold_resume_rest p o now l : forall acc,
  isInitialized (fold_left (resume_call p o now) l acc) = isInitialized acc /\
  isPaused (fold_left (resume_call p o now) l acc) = isPaused acc /\
  pauseTimestamp (fold_left (resume_call p o now) l acc) = pauseTimestamp acc /\
  responseCache (fold_left (resume_call p o now) l acc) = responseCache acc /\
  exchanges (fold_left (resume_call p o now) l acc) = exchanges acc /\
  page_input (fold_left (resume_call p o now) l acc) = page_input acc.
Proof.
  induction l as [|c l IH]; intros acc; cbn [fold_left]; [repeat split|].
  destruct (IH (resume_call p o now acc c)) as (H1 & H2 & H3 & H4 & H5 & H6).
  destruct (resume_call_rest p o now acc c) as (G1 & G2 & G3 & G4 & G5 & G6).
  repeat split; congruence.
Qed.

Lemma fold_resume_active_return p r now l : forall acc,
  activeRequest (fold_left (resume_call p (Return r) now) l acc)
    = activeRequest acc /\
  activeRequestText (fold_left (resume_call p (Return r) now) l acc)
    = activeRequestText acc.
Proof.
  induction l as [|c l IH]; intros acc; cbn [fold_left]; [split; reflexivity|].
  destruct (IH (resume_call p (Return r) now acc c)) as [H1 H2].
  destruct (resume_call_active_return p r now acc c) as [G1 G2].
  split; congruence.
Qed.

Lemma settle_calls st p o now :
  calls (settle st p o now) = resumed p o now <$> calls st.
Proof. unfold settle. rewrite fold_resume_calls. reflexivity. Qed.

Lemma settle_cache st p o now :
  responseCache (settle st p o now) = responseCache st.
Proof.
  unfold settle.
  destruct (fold_resume_rest p o now (calls st) (set_calls st []))
    as (_ & _ & _ & H & _). exact H.
Qed.

Lemma settle_exchanges st p o now :
  exchanges (settle st p o now) = exchanges st.
Proof.
  unfold settle.
  destruct (fold_resume_rest p o now (calls st) (set_calls st []))
    as (_ & _ & _ & _ & H & _). exact H.
Qed.

Lemma settle_page_input st p o now :
  page_input (settle st p o now) = page_input st.
Proof.
  unfold settle.
  destruct (fold_resume_rest p o now (calls st) (set_calls st []))
    as (_ & _ & _ & _ & _ & H). exact H.
Qed.

Lemma settle_flags st p o now :
  isInitialized (settle st p o now) = isInitialized st /\
  isPaused (settle st p o now) = isPaused st /\
  pauseTimestamp (settle st p o now) = pauseTimestamp st.
Proof.
  unfold settle.
  destruct (fold_resume_rest p o now (calls st) (set_calls st []))
    as (H1 & H2 & H3 & _). repeat split; assumption.
Qed.

Lemma settle_active_return st p r now :
  activeRequest (settle st p (Return r) now) = activeRequest st /\
  activeRequestText (settle st p (Return r) now) = activeRequestText st.
Proof.
  unfold settle.
  destruct (fold_resume_active_return p r now (calls st) (set_calls st []))
    as [H1 H2]. split; [exact H1|exact H2].
Qed.

(** *** The cache *)

Lemma cleanCache_lookup (now : Z) (cache : gmap (list N) cache_entry) (k : list N) :
  cleanCache now cache !! k =
  match cache !! k with
  | Some e => if decide (now - timestamp e > CACHE_EXPIRY_MS) then None else Some e
  | None => None
  end.
Proof.
  unfold cleanCache. rewrite map_lookup_filter.
  destruct (cache !! k) as [e|]; cbn; [|reflexivity].
  destruct (decide (now - timestamp e > CACHE_EXPIRY_MS)) as [H|H].
  - rewrite option_guard_False; [reflexivity|]. cbn. tauto.
  - rewrite option_guard_True; [reflexivity|]. exact H.
Qed.

Lemma cleanCache_expired (now : Z) (cache : gmap (list N) cache_entry)
    (k : list N) (e : cache_entry) :
  cache !! k = Some e -> now - timestamp e > CACHE_EXPIRY_MS ->
  cleanCache now (delete k cache) = cleanCache now cache.
Proof.
  intros Hk He. apply map_eq. intros j. rewrite !cleanCache_lookup.
  destruct (decide (j = k)) as [->|Hne].
  - rewrite lookup_delete_eq, Hk.
    destruct (decide (now - timestamp e > CACHE_EXPIRY_MS)); [reflexivity|lia].
  - rewrite lookup_delete_ne by congruence. reflexivity.
Qed.

(** *** The three ways through [sendToGemini] *)

Lemma sendToGemini_cached st text sp d now e :
  cleanCache now (responseCache st) !! generateCacheKey text = Some e ->
  sendToGemini st text sp d now
  = add_call (set_cache st (cleanCache now (responseCache st)))
      (Finished (Return (response e))).
Proof. intros H. unfold sendToGemini. cbn. rewrite H. reflexivity. Qed.

Lemma sendToGemini_starts st text sp d now :
  cleanCache now (responseCache st) !! generateCacheKey text = None ->
  activeRequestText st <> Some (generateCacheKey text) ->
  sendToGemini st text sp d now
  = start_request (set_cache st (cleanCache now (responseCache st)))
      (generateCacheKey text) text sp d.
Proof.
  intros H Hne. unfold sendToGemini. cbn. rewrite H.
  destruct (activeRequest st); [|reflexivity].
  destruct (decide _); [contradiction|reflexivity].
Qed.

Lemma sendToGemini_attaches st text sp d now p :
  cleanCache now (responseCache st) !! generateCacheKey text = None ->
  activeRequest st = Some p ->
  activeRequestText st = Some (generateCacheKey text) ->
  sendToGemini st text sp d now
  = await_active (set_cache st (cleanCache now (responseCache st))) p.
Proof.
  intros H Ha Ht. unfold sendToGemini. cbn. rewrite H, Ha.
  destruct (decide _); [reflexivity|contradiction].
Qed.

Lemma generate_mcqs_accepted st (b : body) now t :
  text b = Some t -> t <> [] -> isInitialized st = true -> isPaused st = false ->
  generate_mcqs st b now
  = sendToGemini st t
      (if decide (string_or (content_type b) (js "mcq") = js "short_notes")
       then ShortNotesPrompt (number_or (expected_mcqs b) 10)
       else McqPrompt (number_or (expected_mcqs b) 10))
      (number_or (dom_delay_seconds b) 1 * 1000) now.
Proof.
  intros Ht Hne Hi Hp. unfold generate_mcqs. rewrite Ht, Hi, Hp.
  destruct t; [contradiction|reflexivity].
Qed.

(** C5. A submission whose fingerprint has a cache entry not older than
    the retention of 300000 ms returns the cached text: no exchange is
    created, nothing is sent to the page and the active request is left
    as it is.  An entry older than that is evicted by [cleanCache] and the
    call proceeds as if the entry had never been there.  In particular,
    once an exchange has stored its response [r], the same text submitted
    again within the retention returns [r] without a second write. *)
Theorem cached_response_is_served (st : state) (text : list N)
    (sp : system_prompt) (d now : Z) (entry : cache_entry)
    (Hcached : responseCache st !! generateCacheKey text = Some entry) :
  CACHE_EXPIRY_MS = 300000 /\
  (now - timestamp entry <= CACHE_EXPIRY_MS ->
   let st' := sendToGemini st text sp d now in
   calls st' = calls st ++ [Finished (Return (response entry))] /\
   page_input st' = page_input st /\
   exchanges st' = exchanges st /\
   activeRequest st' = activeRequest st /\
   activeRequestText st' = activeRequestText st /\
   responseCache st' !! generateCacheKey text = Some entry) /\
  (now - timestamp entry > CACHE_EXPIRY_MS ->
   cleanCache now (responseCache st) !! generateCacheKey text = None /\
   sendToGemini st text sp d now
   = sendToGemini
       (set_cache st (delete (generateCacheKey text) (responseCache st)))
       text sp d now) /\
  (forall st0 p ex r t0,
     exchanges st0 !! p = Some ex -> ex_phase ex = AwaitingResponse ->
     ex_key ex = generateCacheKey text -> (50 <= length r)%nat ->
     now - t0 <= CACHE_EXPIRY_MS ->
     let st1 := step st0 (RaceSettled p (Return r) t0) in
     let st2 := sendToGemini st1 text sp d now in
     calls st2 = calls st1 ++ [Finished (Return r)] /\
     page_input st2 = page_input st1 /\
     exchanges st2 = exchanges st1).
Proof.
  split; [reflexivity|]. split; [|split].
  - intros Hfresh st'. subst st'.
    rewrite (sendToGemini_cached _ _ _ _ _ entry).
    + repeat split; cbn. rewrite cleanCache_lookup, Hcached.
      destruct (decide _); [lia|reflexivity].
    + rewrite cleanCache_lookup, Hcached. destruct (decide _); [lia|reflexivity].
  - intros Hold. split.
    + rewrite cleanCache_lookup, Hcached. destruct (decide _); [reflexivity|lia].
    + unfold sendToGemini. cbn.
      rewrite (cleanCache_expired now _ _ entry Hcached Hold). reflexivity.
  - intros st0 p ex r t0 Hex Hph Hkey Hlen Hfresh st1 st2.
    assert (Hst1 : responseCache st1 !! generateCacheKey text
                   = Some {| response := r; timestamp := t0 |}).
    { subst st1. cbn [step]. rewrite Hex, Hph.
      destruct (Nat.ltb_spec (length r) 50); [lia|].
      rewrite settle_cache. cbn. rewrite Hkey. apply lookup_insert_eq. }
    subst st2.
    rewrite (sendToGemini_cached _ _ _ _ _ {| response := r; timestamp := t0 |}).
    + repeat split.
    + rewrite cleanCache_lookup, Hst1. cbn.
      destruct (decide _); [lia|reflexivity].
Qed.

Lemma cached_response_is_served_witness :
  calls (sendToGemini served_state (js "a") (ShortNotesPrompt 10) 1000 2000)
  = calls served_state ++ [Finished (Return sample_response)].
Proof.
  destruct (cached_response_is_served served_state (js "a")
              (ShortNotesPrompt 10) 1000 2000
              {| response := sample_response; timestamp := 1000 |}
              ltac:(vm_compute; reflexivity)) as (_ & H & _).
  apply H. vm_compute. discriminate.
Defined.

(** *** The pause flag *)

Lemma resume_call_set_pause p o now st c b ts :
  resume_call p o now (set_pause st b ts) c
  = set_pause (resume_call p o now st c) b ts.
Proof.
  unfold resume_call.
  destruct c as [why|q|q key|r until key|fin]; try reflexivity;
    destruct (decide (q = p)); try reflexivity; destruct o; try reflexivity.
  cbn. destruct (decide (activeRequestText st = Some key)); reflexivity.
Qed.

Lemma fold_resume_set_pause p o now b ts l : forall acc,
  fold_left (resume_call p o now) l (set_pause acc b ts)
  = set_pause (fold_left (resume_call p o now) l acc) b ts.
Proof.
  induction l as [|c l IH]; intros acc; cbn [fold_left]; [reflexivity|].
  rewrite resume_call_set_pause. apply IH.
Qed.

Lemma settle_set_pause st p o now b ts :
  settle (set_pause st b ts) p o now = set_pause (settle st p o now) b ts.
Proof.
  unfold settle.
  exact (fold_resume_set_pause p o now b ts (calls st) (set_calls st [])).
Qed.

(** No step of an exchange or of a waiting caller reads the pause flag. *)
Lemma internal_step_ignores_pause st ev b ts :
  internal ev = true ->
  step (set_pause st b ts) ev = set_pause (step st ev) b ts.
Proof.
  destruct ev as [bd now|now|now| |p|p now|p o now|p now|c now];
    try discriminate; intros _; cbn [step].
  - change (exchanges (set_pause st b ts)) with (exchanges st).
    destruct (exchanges st !! p) as [ex|]; [|reflexivity].
    destruct (ex_phase ex); reflexivity.
  - change (phase_of (set_pause st b ts) p) with (phase_of st p).
    destruct (phase_of st p) as [[| |e until|r|e]|]; reflexivity.
  - change (exchanges (set_pause st b ts)) with (exchanges st).
    destruct (exchanges st !! p) as [ex|]; [|reflexivity].
    destruct (ex_phase ex); try reflexivity.
    destruct o as [r|e]; [|reflexivity].
    destruct (length r <? 50)%nat; [reflexivity|].
    rewrite <- settle_set_pause. reflexivity.
  - change (phase_of (set_pause st b ts) p) with (phase_of st p).
    destruct (phase_of st p) as [[| |e until|r|e]|]; try reflexivity.
    destruct (until <=? now); [|reflexivity].
    rewrite <- settle_set_pause. reflexivity.
  - change (calls (set_pause st b ts)) with (calls st).
    destruct (calls st !! c) as [[why|q|q key|r until key|fin]|]; try reflexivity.
    destruct (until <=? now); [|reflexivity].
    change (activeRequestText (set_pause st b ts)) with (activeRequestText st).
    destruct (decide (activeRequestText st = Some key)); reflexivity.
Qed.

(** The server never leaves the initialised state in which it starts to
    listen. *)
Lemma step_initialized st ev : isInitialized (step st ev) = isInitialized st.
Proof.
  destruct ev as [bd now|now|now| |p|p now|p o now|p now|c now]; cbn [step].
  - unfold generate_mcqs.
    destruct (text bd) as [[|c0 t]|]; try reflexivity.
    destruct (isInitialized st) eqn:Ei; [|exact Ei]. cbn [negb].
    destruct (isPaused st); [exact Ei|].
    unfold sendToGemini. cbn.
    destruct (cleanCache now (responseCache st) !! _); [exact Ei|].
    destruct (activeRequest st) as [q|]; [|exact Ei].
    destruct (decide _); [|exact Ei].
    unfold await_active. destruct (phase_of _ q) as [[| |e0 u0|r0|e0]|]; exact Ei.
  - destruct (isPaused st); reflexivity.
  - destruct (isPaused st); reflexivity.
  - destruct (isInitialized st) eqn:Ei; exact Ei.
  - destruct (exchanges st !! p) as [ex|]; [|reflexivity].
    destruct (ex_phase ex); reflexivity.
  - destruct (phase_of st p) as [[| |e until|r|e]|]; reflexivity.
  - destruct (exchanges st !! p) as [ex|]; [|reflexivity].
    destruct (ex_phase ex); try reflexivity.
    destruct o as [r|e]; [|reflexivity].
    destruct (length r <? 50)%nat; [reflexivity|].
    rewrite (proj1 (settle_flags _ _ _ _)). reflexivity.
  - destruct (phase_of st p) as [[| |e until|r|e]|]; try reflexivity.
    destruct (until <=? now); [|reflexivity].
    rewrite (proj1 (settle_flags _ _ _ _)). reflexivity.
  - destruct (calls st !! c) as [[why|q|q key|r until key|fin]|]; try reflexivity.
    destruct (until <=? now); [|reflexivity].
    destruct (decide _); reflexivity.
Qed.

Lemma run_initialized tr : forall st,
  isInitialized (run st tr) = isInitialized st.
Proof.
  induction tr as [|ev tr IH]; intros st; [reflexivity|].
  cbn [run fold_left]. fold (run (step st ev) tr).
  rewrite IH. apply step_initialized.
Qed.

(** C6. Whatever has happened since the server started, once
    [/api/pause] has set the flag a request with a text is answered with
    the [PAUSED] code before [sendToGemini] is called: no exchange is
    created, nothing is sent to the page and the cache is not touched.
    The steps of an exchange that is already under way, and of the callers
    that wait for it, do not read the flag and run as they would without
    it. *)
Theorem pause_fails_fast (tr : list event) (b : body) (t : list N) (t0 now : Z)
    (Htext : text b = Some t) (Hne : t <> []) :
  let st := run initial tr in
  let paused := step st (Pause t0) in
  isPaused paused = true /\
  step paused (GenerateMcqs b now)
    = add_call paused (Refused (PAUSED (pauseTimestamp paused))) /\
  page_input (step paused (GenerateMcqs b now)) = page_input st /\
  exchanges (step paused (GenerateMcqs b now)) = exchanges st /\
  responseCache (step paused (GenerateMcqs b now)) = responseCache st /\
  (forall s ev flag ts, internal ev = true ->
     step (set_pause s flag ts) ev = set_pause (step s ev) flag ts).
Proof.
  intros st paused.
  assert (Hinit : isInitialized st = true) by apply (run_initialized tr initial).
  assert (Hp : isPaused paused = true).
  { subst paused. cbn [step]. destruct (isPaused st) eqn:E; [exact E|reflexivity]. }
  assert (Hi : isInitialized paused = true).
  { subst paused. cbn [step]. destruct (isPaused st); [exact Hinit|exact Hinit]. }
  assert (Hstep : step paused (GenerateMcqs b now)
                  = add_call paused (Refused (PAUSED (pauseTimestamp paused)))).
  { cbn [step]. unfold generate_mcqs. rewrite Htext, Hi, Hp.
    destruct t; [contradiction|reflexivity]. }
  split; [exact Hp|]. split; [exact Hstep|]. rewrite Hstep.
  repeat split; try (subst paused; cbn [step]; destruct (isPaused st); reflexivity).
  intros s ev flag ts. apply internal_step_ignores_pause.
Qed.

Lemma pause_fails_fast_witness :
  calls (run waiting_state
           [Pause 500; GenerateMcqs (request (js "b") (js "mcq")) 600;
            RaceSettled 0 (Return sample_response) 1000])
  = [Pacing sample_response 3000 (generateCacheKey (js "a"));
     Refused (PAUSED (Some 500))] /\
  step (step waiting_state (Pause 500))
    (GenerateMcqs (request (js "b") (js "mcq")) 600)
  = add_call (step waiting_state (Pause 500)) (Refused (PAUSED (Some 500))).
Proof.
  split; [vm_compute; reflexivity|].
  destruct (pause_fails_fast
              [GenerateMcqs (request (js "a") (js "mcq")) 0; PromptSent 0]
              (request (js "b") (js "mcq")) (js "b")
              500 600 eq_refl ltac:(discriminate)) as (_ & H & _).
  exact H.
Defined.

(** *** The delay after an exchange *)

(** C8. The code at the success and at the failure of an exchange: the
    caller of a fulfilled exchange waits [SUCCESS_DELAY_MS] = 2000 ms
    and the promise of a failed exchange is rejected after
    [ERROR_DELAY_MS] = 5000 ms.  The two delays are not the same. *)
Theorem pacing_delay_differs_by_outcome :
  calls (step waiting_state (RaceSettled 0 (Return sample_response) 1000)) !! 0%nat
    = Some (Pacing sample_response (1000 + 2000) (generateCacheKey (js "a"))) /\
  calls (run waiting_state [RaceSettled 0 (Return sample_response) 1000;
                            PacingElapsed 0 2999]) !! 0%nat
    = Some (Pacing sample_response 3000 (generateCacheKey (js "a"))) /\
  calls (run waiting_state [RaceSettled 0 (Return sample_response) 1000;
                            PacingElapsed 0 3000]) !! 0%nat
    = Some (Finished (Return sample_response)) /\
  phase_of (step waiting_state (RaceSettled 0 (Throw OverallTimeout) 1000)) 0
    = Some (ErrorDelay OverallTimeout (1000 + 5000)) /\
  calls (run waiting_state [RaceSettled 0 (Throw OverallTimeout) 1000;
                            ErrorDelayElapsed 0 5999]) !! 0%nat
    = Some (AwaitOwn 0 (generateCacheKey (js "a"))) /\
  calls (run waiting_state [RaceSettled 0 (Throw OverallTimeout) 1000;
                            ErrorDelayElapsed 0 6000]) !! 0%nat
    = Some (Finished (Throw OverallTimeout)) /\
  SUCCESS_DELAY_MS = 2000 /\ ERROR_DELAY_MS = 5000 /\
  SUCCESS_DELAY_MS <> ERROR_DELAY_MS.
Proof. repeat split; try (vm_compute; reflexivity). discriminate. Qed.

(** *** Exchanges in flight *)

Lemma in_flight_alter (f : exchange -> exchange) p (l : list exchange) :
  (forall ex, l !! p = Some ex ->
     in_flight (ex_phase (f ex)) = true -> in_flight (ex_phase ex) = true) ->
  (length (List.filter (fun ex => in_flight (ex_phase ex)) (alter f p l))
   <= length (List.filter (fun ex => in_flight (ex_phase ex)) l))%nat.
Proof.
  revert p. induction l as [|x l IH]; intros p H; [destruct p; cbn; lia|].
  destruct p as [|p].
  - cbn [alter list_alter List.filter]. specialize (H x eq_refl).
    destruct (in_flight (ex_phase (f x))).
    + rewrite (H eq_refl). cbn. lia.
    + destruct (in_flight (ex_phase x)); cbn; lia.
  - change (alter f (S p) (x :: l)) with (x :: alter f p l).
    cbn [List.filter]. specialize (IH p H).
    destruct (in_flight (ex_phase x)); cbn [length]; lia.
Qed.

Lemma set_phase_in_flight st p ph :
  (in_flight ph = true ->
   exists ph0, phase_of st p = Some ph0 /\ in_flight ph0 = true) ->
  (length (exchanges_in_flight (set_phase st p ph))
   <= length (exchanges_in_flight st))%nat.
Proof.
  intros H. unfold exchanges_in_flight, set_phase. cbn [exchanges set_exchanges].
  apply in_flight_alter. intros ex Hex Hf. cbn in Hf.
  destruct (H Hf) as (ph0 & Hp & Hin). unfold phase_of in Hp.
  rewrite Hex in Hp. cbn in Hp. congruence.
Qed.

Lemma settle_in_flight st p o now :
  exchanges_in_flight (settle st p o now) = exchanges_in_flight st.
Proof. unfold exchanges_in_flight. rewrite settle_exchanges. reflexivity. Qed.

Lemma fold_resume_paired p o now l : forall acc,
  active_paired acc -> active_paired (fold_left (resume_call p o now) l acc).
Proof.
  induction l as [|c l IH]; intros acc Ha; cbn [fold_left]; [exact Ha|].
  apply IH. unfold resume_call.
  destruct c as [why|q|q key|r until key|fin]; try exact Ha;
    destruct (decide (q = p)); try exact Ha; destruct o; try exact Ha;
    try (destruct (decide (activeRequestText acc = Some key)); [|exact Ha]);
    split; reflexivity.
Qed.

Lemma settle_paired st p o now :
  active_paired st -> active_paired (settle st p o now).
Proof. intros H. unfold settle. apply fold_resume_paired. exact H. Qed.

Lemma step_paired st ev : active_paired st -> active_paired (step st ev).
Proof.
  intros Ha.
  destruct ev as [bd now|now|now| |p|p now|p o now|p now|c now]; cbn [step].
  - unfold generate_mcqs.
    destruct (text bd) as [[|c0 t]|]; try exact Ha.
    destruct (isInitialized st); [|exact Ha]. cbn [negb].
    destruct (isPaused st); [exact Ha|].
    unfold sendToGemini. cbn.
    destruct (cleanCache now (responseCache st) !! _); [exact Ha|].
    destruct (activeRequest st) as [q|] eqn:Eq.
    + destruct (decide _).
      * unfold await_active.
        destruct (phase_of _ q) as [[| |e0 u0|r0|e0]|]; try exact Ha.
        split; reflexivity.
      * split; discriminate.
    + split; discriminate.
  - destruct (isPaused st); exact Ha.
  - destruct (isPaused st); exact Ha.
  - destruct (isInitialized st); [split; reflexivity|exact Ha].
  - destruct (exchanges st !! p) as [ex|]; [|exact Ha].
    destruct (ex_phase ex); exact Ha.
  - destruct (phase_of st p) as [[| |e until|r|e]|]; exact Ha.
  - destruct (exchanges st !! p) as [ex|]; [|exact Ha].
    destruct (ex_phase ex); try exact Ha.
    destruct o as [r|e]; [|exact Ha].
    destruct (length r <? 50)%nat; [exact Ha|].
    apply settle_paired. exact Ha.
  - destruct (phase_of st p) as [[| |e until|r|e]|]; try exact Ha.
    destruct (until <=? now); [|exact Ha].
    apply settle_paired. exact Ha.
  - destruct (calls st !! c) as [[why|q|q key|r until key|fin]|]; try exact Ha.
    destruct (until <=? now); [|exact Ha].
    destruct (decide _); [split; reflexivity|exact Ha].
Qed.

Lemma step_in_flight st ev :
  active_paired st -> serial st ev ->
  (length (exchanges_in_flight st) <= 1)%nat ->
  (length (exchanges_in_flight (step st ev)) <= 1)%nat.
Proof.
  intros Ha Hs Hone.
  destruct ev as [bd now|now|now| |p|p now|p o now|p now|c now]; cbn [step].
  - unfold generate_mcqs.
    destruct (text bd) as [[|c0 t]|] eqn:Et; try exact Hone.
    destruct (isInitialized st); [|exact Hone]. cbn [negb].
    destruct (isPaused st); [exact Hone|].
    cbn [serial] in Hs. specialize (Hs _ Et).
    unfold sendToGemini. cbn.
    destruct (cleanCache now (responseCache st) !! _); [exact Hone|].
    assert (Hnew : forall sp d,
              activeRequestText st <> Some (generateCacheKey (c0 :: t)) ->
              (length (exchanges_in_flight
                 (start_request (set_cache st (cleanCache now (responseCache st)))
                    (generateCacheKey (c0 :: t)) (c0 :: t) sp d)) <= 1)%nat).
    { intros sp d Hne. destruct Hs as [Hs|Hs]; [|contradiction].
      unfold exchanges_in_flight in *. cbn.
      rewrite List.filter_app, Hs. cbn. lia. }
    destruct (activeRequest st) as [q|] eqn:Eq.
    + destruct (decide _) as [Heq|Hne].
      * unfold await_active.
        destruct (phase_of _ q) as [[| |e0 u0|r0|e0]|]; exact Hone.
      * apply Hnew. exact Hne.
    + apply Hnew. apply Ha in Eq. rewrite Eq. discriminate.
  - destruct (isPaused st); exact Hone.
  - destruct (isPaused st); exact Hone.
  - destruct (isInitialized st); exact Hone.
  - destruct (exchanges st !! p) as [ex|] eqn:Ex; [|exact Hone].
    destruct (ex_phase ex) eqn:Ep; try exact Hone.
    change (length (exchanges_in_flight (set_phase st p AwaitingResponse)) <= 1)%nat.
    etransitivity; [apply set_phase_in_flight|exact Hone].
    intros _. exists Preparing. unfold phase_of. rewrite Ex. cbn. rewrite Ep.
    split; reflexivity.
  - destruct (phase_of st p) as [[| |e until|r|e]|] eqn:Ep; try exact Hone.
    etransitivity; [apply set_phase_in_flight|exact Hone].
    intros _. exists Preparing. split; [exact Ep|reflexivity].
  - destruct (exchanges st !! p) as [ex|] eqn:Ex; [|exact Hone].
    destruct (ex_phase ex) eqn:Ep; try exact Hone.
    assert (Hph : phase_of st p = Some AwaitingResponse).
    { unfold phase_of. rewrite Ex. cbn. rewrite Ep. reflexivity. }
    destruct o as [r|e].
    + destruct (length r <? 50)%nat.
      * etransitivity; [apply set_phase_in_flight|exact Hone].
        intros _. exists AwaitingResponse. split; [exact Hph|reflexivity].
      * rewrite settle_in_flight.
        change (length (exchanges_in_flight (set_phase st p (Fulfilled r))) <= 1)%nat.
        etransitivity; [apply set_phase_in_flight|exact Hone]. discriminate.
    + etransitivity; [apply set_phase_in_flight|exact Hone].
      intros _. exists AwaitingResponse. split; [exact Hph|reflexivity].
  - destruct (phase_of st p) as [[| |e until|r|e]|] eqn:Ep; try exact Hone.
    destruct (until <=? now); [|exact Hone].
    rewrite settle_in_flight.
    etransitivity; [apply set_phase_in_flight|exact Hone]. discriminate.
  - destruct (calls st !! c) as [[why|q|q key|r until key|fin]|]; try exact Hone.
    destruct (until <=? now); [|exact Hone].
    destruct (decide _); exact Hone.
Qed.

Lemma serial_trace_in_flight tr : forall st,
  active_paired st -> (length (exchanges_in_flight st) <= 1)%nat ->
  serial_trace st tr ->
  (length (exchanges_in_flight (run st tr)) <= 1)%nat.
Proof.
  induction tr as [|ev tr IH]; intros st Ha Hone Hs; [exact Hone|].
  destruct Hs as [Hev Htr]. cbn [run fold_left]. apply IH.
  - apply step_paired, Ha.
  - apply step_in_flight; assumption.
  - exact Htr.
Qed.

(** C4, as stated, fails: a request with another fingerprint arrives
    while the first exchange is in flight; it is not blocked, both
    exchanges are in flight at once and both prompts reach the page. *)
Lemma second_fingerprint_is_not_blocked :
  let st := run initial [GenerateMcqs (request (js "a") (js "mcq")) 0;
                         GenerateMcqs (request (js "b") (js "mcq")) 10;
                         PromptSent 0; PromptSent 1] in
  generateCacheKey (js "a") <> generateCacheKey (js "b") /\
  map ex_phase (exchanges st) = [AwaitingResponse; AwaitingResponse] /\
  length (exchanges_in_flight st) = 2%nat /\
  map promptText (page_input st) = [js "a"; js "b"] /\
  calls st = [AwaitOwn 0 (generateCacheKey (js "a"));
              AwaitOwn 1 (generateCacheKey (js "b"))].
Proof. repeat split; try (vm_compute; reflexivity). vm_compute. discriminate. Qed.

(** C4, amended.  A caller whose text is not cached and whose
    fingerprint is not that of the active request is not blocked:
    [sendToGemini] creates a further exchange at once and makes it the
    active request, whatever is in flight.  At most one exchange is in
    flight as long as every request arrives while no exchange is in
    flight or carries the fingerprint of the active request. *)
Theorem only_same_fingerprint_waits :
  (forall st text sp d now,
     cleanCache now (responseCache st) !! generateCacheKey text = None ->
     activeRequestText st <> Some (generateCacheKey text) ->
     let st' := sendToGemini st text sp d now in
     exchanges st'
     = exchanges st
       ++ [{| ex_key := generateCacheKey text;
              ex_prompt := {| systemPrompt := sp; promptText := text |};
              ex_domDelayMs := d; ex_phase := Preparing |}] /\
     activeRequest st' = Some (length (exchanges st)) /\
     activeRequestText st' = Some (generateCacheKey text) /\
     calls st'
     = calls st ++ [AwaitOwn (length (exchanges st)) (generateCacheKey text)] /\
     length (exchanges_in_flight st') = S (length (exchanges_in_flight st))) /\
  (forall tr, serial_trace initial tr ->
     (length (exchanges_in_flight (run initial tr)) <= 1)%nat).
Proof.
  split.
  - intros st text sp d now Hmiss Hother st'. subst st'.
    rewrite sendToGemini_starts by assumption.
    repeat split. unfold exchanges_in_flight. cbn.
    rewrite List.filter_app, length_app. cbn. lia.
  - intros tr Hs. apply serial_trace_in_flight; [split; reflexivity|cbn; lia|exact Hs].
Qed.

Lemma only_same_fingerprint_waits_witness :
  length (exchanges_in_flight
            (sendToGemini waiting_state (js "b") (McqPrompt 10) 1000 10)) = 2%nat /\
  (length (exchanges_in_flight
             (run initial [GenerateMcqs (request (js "a") (js "mcq")) 0;
                           GenerateMcqs (request (js "a") (js "short_notes")) 10;
                           PromptSent 0])) <= 1)%nat.
Proof.
  destruct only_same_fingerprint_waits as [H1 H2]. split.
  - destruct (H1 waiting_state (js "b") (McqPrompt 10) 1000 10
                ltac:(vm_compute; reflexivity)
                ltac:(vm_compute; discriminate)) as (_ & _ & _ & _ & H).
    exact H.
  - apply H2. cbn [serial_trace serial]. repeat split.
    + intros t [= <-]. left. reflexivity.
    + intros t [= <-]. right. vm_compute. reflexivity.
Defined.

(** *** The fingerprint *)

#[local] Arguments cleanCache : simpl never.

Lemma cleanCache_twice_miss (t1 t2 : Z) (cache : gmap (list N) cache_entry)
    (k : list N) :
  cleanCache t1 cache !! k = None ->
  cleanCache t2 (cleanCache t1 cache) !! k = None.
Proof. intros H. rewrite cleanCache_lookup, H. reflexivity. Qed.

Lemma request_mcq st t now :
  t <> [] -> isInitialized st = true -> isPaused st = false ->
  step st (GenerateMcqs (request t (js "mcq")) now)
  = sendToGemini st t (McqPrompt 10) 1000 now.
Proof.
  intros Hne Hi Hp. cbn [step].
  rewrite (generate_mcqs_accepted st (request t (js "mcq")) now t eq_refl Hne Hi Hp).
  cbn [content_type request string_or js].
  destruct (decide _) as [E|_]; [discriminate E|reflexivity].
Qed.

Lemma request_short_notes st t now :
  t <> [] -> isInitialized st = true -> isPaused st = false ->
  step st (GenerateMcqs (request t (js "short_notes")) now)
  = sendToGemini st t (ShortNotesPrompt 10) 1000 now.
Proof.
  intros Hne Hi Hp. cbn [step].
  rewrite (generate_mcqs_accepted st (request t (js "short_notes")) now t
             eq_refl Hne Hi Hp).
  cbn [content_type request string_or js].
  destruct (decide _) as [_|E]; [reflexivity|contradiction E; reflexivity].
Qed.

(** C10. The cache key is the MD5 digest of the text alone.  A request
    for MCQs and a request for short notes with the same text share one
    exchange and one cache entry: while the first is in flight the second
    waits for its promise, only the MCQ prompt is sent to the page, both
    callers get the response to that prompt, and within the retention a
    further request for short notes gets it again from the cache. *)
Theorem content_type_is_not_fingerprinted (st : state) (t r : list N)
    (t1 t2 t3 t4 : Z)
    (Ht : t <> []) (Hinit : isInitialized st = true)
    (Hrun : isPaused st = false)
    (Hmiss : cleanCache t1 (responseCache st) !! generateCacheKey t = None)
    (Hnew : activeRequestText st <> Some (generateCacheKey t))
    (Hlen : (50 <= length r)%nat)
    (Hfresh : t4 - t3 <= CACHE_EXPIRY_MS) :
  let p := length (exchanges st) in
  let key := generateCacheKey t in
  let prompt_sent := {| systemPrompt := McqPrompt 10; promptText := t |} in
  let st1 := step st (GenerateMcqs (request t (js "mcq")) t1) in
  let st2 := step st1 (GenerateMcqs (request t (js "short_notes")) t2) in
  let st3 := run st2 [PromptSent p; RaceSettled p (Return r) t3] in
  let st4 := step st3 (GenerateMcqs (request t (js "short_notes")) t4) in
  key = MD5.hex (MD5.digest (MD5.utf8 t)) /\
  exchanges st1
  = exchanges st ++ [{| ex_key := key; ex_prompt := prompt_sent;
                        ex_domDelayMs := 1000; ex_phase := Preparing |}] /\
  calls st1 = calls st ++ [AwaitOwn p key] /\
  exchanges st2 = exchanges st1 /\
  calls st2 = calls st ++ [AwaitOwn p key; AwaitActive p] /\
  page_input st3 = page_input st ++ [prompt_sent] /\
  calls st3 !! length (calls st) = Some (Pacing r (t3 + SUCCESS_DELAY_MS) key) /\
  calls st3 !! S (length (calls st)) = Some (Finished (Return r)) /\
  responseCache st3 !! key = Some {| response := r; timestamp := t3 |} /\
  calls st4 = calls st3 ++ [Finished (Return r)] /\
  page_input st4 = page_input st3 /\
  length (exchanges st4) = S (length (exchanges st)).
Proof.
  intros p key prompt_sent st1 st2 st3 st4.
  set (ex := {| ex_key := key; ex_prompt := prompt_sent;
                ex_domDelayMs := 1000; ex_phase := Preparing |}).
  assert (E1 : st1 = start_request (set_cache st (cleanCache t1 (responseCache st)))
                       key t (McqPrompt 10) 1000).
  { subst st1. rewrite request_mcq by assumption.
    apply sendToGemini_starts; assumption. }
  assert (X1 : exchanges st1 = exchanges st ++ [ex]) by (rewrite E1; reflexivity).
  assert (C1 : calls st1 = calls st ++ [AwaitOwn p key]) by (rewrite E1; reflexivity).
  assert (P1 : page_input st1 = page_input st) by (rewrite E1; reflexivity).
  assert (E2 : st2 = add_call (set_cache st1 (cleanCache t2 (responseCache st1)))
                       (AwaitActive p)).
  { subst st2. rewrite request_short_notes; [|exact Ht|rewrite E1; exact Hinit
                                              |rewrite E1; exact Hrun].
    rewrite (sendToGemini_attaches _ _ _ _ _ p).
    - unfold await_active, phase_of. cbn [exchanges set_cache].
      rewrite X1. unfold p. rewrite list_lookup_middle by reflexivity. reflexivity.
    - rewrite E1. apply cleanCache_twice_miss. exact Hmiss.
    - rewrite E1. reflexivity.
    - rewrite E1. reflexivity. }
  assert (X2 : exchanges st2 = exchanges st ++ [ex]) by (rewrite E2; exact X1).
  assert (C2 : calls st2 = calls st ++ [AwaitOwn p key; AwaitActive p]).
  { rewrite E2. cbn [calls add_call set_calls set_cache]. rewrite C1, <- app_assoc.
    reflexivity. }
  assert (P2 : page_input st2 = page_input st) by (rewrite E2; exact P1).
  set (st2a := step st2 (PromptSent p)).
  assert (E2a : st2a = set_page_input (set_phase st2 p AwaitingResponse)
                         (page_input st2 ++ [prompt_sent])).
  { subst st2a. cbn [step]. rewrite X2. unfold p.
    rewrite list_lookup_middle by reflexivity. reflexivity. }
  assert (X2a : exchanges st2a !! p
                = Some {| ex_key := key; ex_prompt := prompt_sent;
                          ex_domDelayMs := 1000; ex_phase := AwaitingResponse |}).
  { rewrite E2a. cbn [exchanges set_page_input set_phase set_exchanges].
    rewrite list_lookup_alter_eq, X2. unfold p.
    rewrite list_lookup_middle by reflexivity. reflexivity. }
  assert (E3 : st3 = settle
                       (set_cache (set_phase st2a p (Fulfilled r))
                          (<[key := {| response := r; timestamp := t3 |}]>
                             (responseCache st2a)))
                       p (Return r) t3).
  { subst st3. cbn [run fold_left]. fold st2a. cbn [step]. rewrite X2a.
    cbn [ex_phase ex_key].
    destruct (Nat.ltb_spec (length r) 50); [lia|reflexivity]. }
  assert (C3 : calls st3 = resumed p (Return r) t3 <$> calls st2).
  { rewrite E3, settle_calls, E2a. reflexivity. }
  assert (P3 : page_input st3 = page_input st ++ [prompt_sent]).
  { rewrite E3, settle_page_input, E2a.
    cbn [page_input set_cache set_phase set_exchanges set_page_input].
    rewrite P2. reflexivity. }
  assert (K3 : responseCache st3 !! key = Some {| response := r; timestamp := t3 |}).
  { rewrite E3, settle_cache. cbn [responseCache set_cache]. apply lookup_insert_eq. }
  assert (X3 : length (exchanges st3) = S (length (exchanges st))).
  { rewrite E3, settle_exchanges, E2a.
    cbn [exchanges set_cache set_phase set_page_input set_exchanges].
    rewrite !length_alter, X2, length_app. cbn. lia. }
  assert (E4 : st4 = add_call (set_cache st3 (cleanCache t4 (responseCache st3)))
                       (Finished (Return r))).
  { subst st4. rewrite request_short_notes.
    - apply (sendToGemini_cached _ _ _ _ _ {| response := r; timestamp := t3 |}).
      rewrite cleanCache_lookup. fold key. rewrite K3. cbn [timestamp].
      destruct (decide _); [lia|reflexivity].
    - exact Ht.
    - rewrite E3. rewrite (proj1 (settle_flags _ _ _ _)), E2a, E2, E1. exact Hinit.
    - rewrite E3.
      rewrite (proj1 (proj2 (settle_flags _ _ _ _))), E2a, E2, E1. exact Hrun. }
  split; [reflexivity|]. split; [exact X1|]. split; [exact C1|].
  split; [rewrite X2, X1; reflexivity|]. split; [exact C2|].
  split; [exact P3|].
  split.
  { rewrite C3, C2, list_lookup_fmap.
    rewrite (list_lookup_middle (calls st) [AwaitActive p] _ _ eq_refl).
    cbn. destruct (decide (p = p)); [reflexivity|congruence]. }
  split.
  { rewrite C3, C2, list_lookup_fmap.
    change (calls st ++ [AwaitOwn p key; AwaitActive p])
      with (calls st ++ [AwaitOwn p key] ++ [AwaitActive p]).
    rewrite app_assoc.
    rewrite (list_lookup_middle (calls st ++ [AwaitOwn p key]) [] (AwaitActive p)).
    - cbn. destruct (decide (p = p)); [reflexivity|congruence].
    - rewrite length_app. cbn. lia. }
  split; [exact K3|].
  split; [rewrite E4; reflexivity|].
  split; [rewrite E4; reflexivity|].
  rewrite E4. exact X3.
Qed.

Lemma content_type_is_not_fingerprinted_witness :
  calls (run initial [GenerateMcqs (request (js "a") (js "mcq")) 0;
                      GenerateMcqs (request (js "a") (js "short_notes")) 10;
                      PromptSent 0;
                      RaceSettled 0 (Return sample_response) 1000;
                      GenerateMcqs (request (js "a") (js "short_notes")) 2000])
  = [Pacing sample_response 3000 (generateCacheKey (js "a"));
     Finished (Return sample_response);
     Finished (Return sample_response)] /\
  page_input (run initial [GenerateMcqs (request (js "a") (js "mcq")) 0;
                           GenerateMcqs (request (js "a") (js "short_notes")) 10;
                           PromptSent 0;
                           RaceSettled 0 (Return sample_response) 1000])
  = [{| systemPrompt := McqPrompt 10; promptText := js "a" |}].
Proof.
  split; [vm_compute; reflexivity|].
  destruct (content_type_is_not_fingerprinted initial (js "a") sample_response
              0 10 1000 2000 ltac:(discriminate) eq_refl eq_refl
              ltac:(vm_compute; reflexivity) ltac:(discriminate)
              ltac:(vm_compute; lia) ltac:(vm_compute; discriminate))
    as (_ & _ & _ & _ & _ & H & _).
  exact H.
Defined.

(** *** Single flight *)

Lemma cleanCache_empty (now : Z) : cleanCache now ∅ = ∅.
Proof. apply map_eq. intros k. rewrite cleanCache_lookup, lookup_empty. reflexivity. Qed.

Lemma lookup_snoc (l : list call_phase) (x c : call_phase) (i : nat) :
  (l ++ [x]) !! i = Some c ->
  l !! i = Some c \/ (i = length l /\ c = x).
Proof.
  intros H. destruct (decide (i < length l)%nat) as [Hlt|Hge].
  - left. rewrite lookup_app_l in H by exact Hlt. exact H.
  - right. rewrite lookup_app_r in H by lia.
    destruct (i - length l)%nat as [|n] eqn:E; [|destruct n; discriminate].
    cbn in H. split; [lia|congruence].
Qed.

Lemma lookup_snoc_old (l : list call_phase) (x c : call_phase) (o : nat) :
  l !! o = Some c -> (l ++ [x]) !! o = Some c.
Proof. intros H. rewrite lookup_app_l; [exact H|]. eapply lookup_lt_Some, H. Qed.

Lemma answered_not_busy (l : list call_phase) c0 :
  (forall i c, l !! i = Some c -> refused c \/ c = Finished c0) ->
  existsb waiting l = false.
Proof.
  induction l as [|x l IH]; intros H; [reflexivity|].
  cbn [existsb]. rewrite IH.
  - destruct (H O x eq_refl) as [[why ->]| ->]; reflexivity.
  - intros i c Hc. apply (H (S i) c). exact Hc.
Qed.

Lemma single_flight_set_pause k st b ts :
  single_flight k st -> single_flight k (set_pause st b ts).
Proof.
  intros [H1 H2 H3 H4 H5 H6
         |ex o H1 H2 H3 H4 H5 H6 H7 H8 H9 H10
         |ex o r u H1 H2 H3 H4 H5 H6 H7 H8 H9
         |ex c0 H1 Hk0 H2 H3 H4].
  - apply sf_idle; assumption.
  - eapply sf_in_flight; eassumption.
  - eapply sf_paced; eassumption.
  - eapply sf_done; eassumption.
Qed.

Lemma single_flight_refuse k st why :
  single_flight k st -> single_flight k (add_call st (Refused why)).
Proof.
  intros [H1 H2 H3 H4 H5 H6
         |ex o H1 H2 H3 H4 H5 H6 H7 H8 H9 H10
         |ex o r u H1 H2 H3 H4 H5 H6 H7 H8 H9
         |ex c0 H1 Hk0 H2 H3 H4].
  - apply sf_idle; try assumption. cbn. intros i c Hc.
    apply lookup_snoc in Hc. destruct Hc as [Hc|[_ ->]]; [eauto|eexists; reflexivity].
  - eapply (sf_in_flight _ _ ex o); try eassumption.
    + cbn. apply lookup_snoc_old, H9.
    + cbn. intros i c Hi Hc. apply lookup_snoc in Hc.
      destruct Hc as [Hc|[_ ->]]; [eauto|left; eexists; reflexivity].
  - eapply (sf_paced _ _ ex o r u); try eassumption.
    + cbn. apply lookup_snoc_old, H8.
    + cbn. intros i c Hi Hc. apply lookup_snoc in Hc.
      destruct Hc as [Hc|[_ ->]]; [eauto|left; eexists; reflexivity].
  - eapply (sf_done _ _ ex c0); try eassumption.
    cbn. intros i c Hc. apply lookup_snoc in Hc.
    destruct Hc as [Hc|[_ ->]]; [eauto|left; eexists; reflexivity].
Qed.

Lemma sendToGemini_single_flight k st t sp d now :
  single_flight k st -> generateCacheKey t = k ->
  exchanges st = [] \/ busy st = true ->
  single_flight k (sendToGemini st t sp d now).
Proof.
  intros Hinv Hk Hc.
  destruct Hinv as [H1 H2 H3 H4 H5 H6
         |ex o H1 H2 H3 H4 H5 H6 H7 H8 H9 H10
         |ex o r u H1 H2 H3 H4 H5 H6 H7 H8 H9
         |ex c0 H1 Hk0 H2 H3 H4].
  - rewrite sendToGemini_starts.
    + eapply (sf_in_flight _ _ _ (length (calls st))); cbn.
      * rewrite H1. reflexivity.
      * exact Hk.
      * reflexivity.
      * intros _. exact H2.
      * rewrite H2. cbn. lia.
      * rewrite H3. apply cleanCache_empty.
      * rewrite H1. reflexivity.
      * rewrite Hk. reflexivity.
      * rewrite H1, Hk. cbn. apply list_lookup_middle. reflexivity.
      * intros i c Hi Hl. apply lookup_snoc in Hl.
        destruct Hl as [Hl|[Hl _]]; [left; eauto|contradiction].
    + rewrite H3, cleanCache_empty. apply lookup_empty.
    + rewrite H5. discriminate.
  - rewrite (sendToGemini_attaches _ _ _ _ _ O).
    + assert (Ha : await_active (set_cache st (cleanCache now (responseCache st))) 0
                   = add_call (set_cache st (cleanCache now (responseCache st)))
                       (AwaitActive 0)).
      { unfold await_active, phase_of. cbn [exchanges set_cache]. rewrite H1. cbn.
        destruct (ex_phase ex); try discriminate; reflexivity. }
      rewrite Ha. eapply (sf_in_flight _ _ ex o); cbn; try eassumption.
      * rewrite H6. apply cleanCache_empty.
      * apply lookup_snoc_old, H9.
      * intros i c Hi Hl. apply lookup_snoc in Hl.
        destruct Hl as [Hl|[_ ->]]; [eauto|right; reflexivity].
    + rewrite H6, cleanCache_empty. apply lookup_empty.
    + exact H7.
    + rewrite Hk. exact H8.
  - assert (Hcache : forall e,
              cleanCache now (responseCache st) !! k = Some e -> response e = r).
    { intros e He. rewrite cleanCache_lookup in He.
      destruct (responseCache st !! k) as [e'|]; [|discriminate].
      destruct (decide _); [discriminate|]. injection He as <-.
      apply H5. reflexivity. }
    assert (Hgoal : single_flight k
                      (add_call (set_cache st (cleanCache now (responseCache st)))
                         (Finished (Return r)))).
    { eapply (sf_paced _ _ ex o r u); cbn; try eassumption.
      - apply lookup_snoc_old, H8.
      - intros i c Hi Hl. apply lookup_snoc in Hl.
        destruct Hl as [Hl|[_ ->]]; [eauto|right; reflexivity]. }
    destruct (cleanCache now (responseCache st) !! generateCacheKey t) as [e|] eqn:E.
    + rewrite (sendToGemini_cached _ _ _ _ _ e E).
      rewrite Hk in E. rewrite (Hcache e E). exact Hgoal.
    + rewrite (sendToGemini_attaches _ _ _ _ _ O); [|exact E|exact H6|rewrite Hk; exact H7].
      unfold await_active, phase_of. cbn [exchanges set_cache]. rewrite H1. cbn.
      rewrite H3. exact Hgoal.
  - exfalso. destruct Hc as [Hc|Hc]; [congruence|].
    unfold busy in Hc. rewrite (answered_not_busy _ c0 H4) in Hc. discriminate.
Qed.

Lemma resumed_attached r now c :
  refused c \/ c = AwaitActive 0 ->
  refused (resumed 0 (Return r) now c)
  \/ resumed 0 (Return r) now c = Finished (Return r).
Proof. intros [[why ->]| ->]; [left; eexists; reflexivity|right; reflexivity]. Qed.

Lemma resumed_attached_error e now c :
  refused c \/ c = AwaitActive 0 ->
  refused (resumed 0 (Throw e) now c)
  \/ resumed 0 (Throw e) now c = Finished (Throw e).
Proof. intros [[why ->]| ->]; [left; eexists; reflexivity|right; reflexivity]. Qed.

Lemma prompt_sent_single_flight k st p :
  single_flight k st -> single_flight k (step st (PromptSent p)).
Proof.
  intros Hinv. pose proof Hinv as Hinv0.
  destruct Hinv as [H1 H2 H3 H4 H5 H6
         |ex o H1 H2 H3 H4 H5 H6 H7 H8 H9 H10
         |ex o r u H1 H2 H3 H4 H5 H6 H7 H8 H9
         |ex c0 H1 Hk0 H2 H3 H4]; cbn [step]; rewrite H1.
  - exact Hinv0.
  - destruct p as [|p]; [|exact Hinv0]. cbn [lookup list_lookup].
    destruct (ex_phase ex) eqn:Ep; try exact Hinv0.
    eapply (sf_in_flight _ _
              {| ex_key := ex_key ex; ex_prompt := ex_prompt ex;
                 ex_domDelayMs := ex_domDelayMs ex;
                 ex_phase := AwaitingResponse |} o);
      cbn [exchanges page_input responseCache activeRequest activeRequestText
           calls set_page_input set_phase set_exchanges ex_key ex_phase];
      try eassumption; try reflexivity.
    + rewrite H1. reflexivity.
    + discriminate.
    + rewrite (H4 eq_refl). cbn. lia.
  - destruct p as [|p]; [|exact Hinv0]. cbn [lookup list_lookup].
    rewrite H3. exact Hinv0.
  - destruct p as [|p]; [|exact Hinv0]. cbn [lookup list_lookup].
    destruct (ex_phase ex); try exact Hinv0; destruct c0; cbn in H2; discriminate.
Qed.

Lemma fail_exchange_single_flight k st ex o e now :
  exchanges st = [ex] -> ex_key ex = k ->
  (length (page_input st) <= 1)%nat ->
  responseCache st = ∅ ->
  activeRequest st = Some O -> activeRequestText st = Some k ->
  calls st !! o = Some (AwaitOwn 0 k) ->
  (forall i c, i <> o -> calls st !! i = Some c -> refused c \/ c = AwaitActive 0) ->
  single_flight k (fail_exchange st 0 e now).
Proof.
  intros H1 H2 H5 H6 H7 H8 H9 H10.
  eapply (sf_in_flight _ _
            {| ex_key := ex_key ex; ex_prompt := ex_prompt ex;
               ex_domDelayMs := ex_domDelayMs ex;
               ex_phase := ErrorDelay e (now + ERROR_DELAY_MS) |} o);
    unfold fail_exchange;
    cbn [exchanges page_input responseCache activeRequest activeRequestText
         calls set_phase set_exchanges ex_key ex_phase];
    try eassumption; try reflexivity.
  - rewrite H1. reflexivity.
  - discriminate.
Qed.

Lemma page_failed_single_flight k st p now :
  single_flight k st -> single_flight k (step st (PageFailed p now)).
Proof.
  intros Hinv. pose proof Hinv as Hinv0.
  destruct Hinv as [H1 H2 H3 H4 H5 H6
         |ex o H1 H2 H3 H4 H5 H6 H7 H8 H9 H10
         |ex o r u H1 H2 H3 H4 H5 H6 H7 H8 H9
         |ex c0 H1 Hk0 H2 H3 H4]; cbn [step]; unfold phase_of; rewrite H1.
  - exact Hinv0.
  - destruct p as [|p]; [|exact Hinv0]. cbn [lookup list_lookup fmap option_fmap option_map].
    destruct (ex_phase ex) eqn:Ep; try exact Hinv0.
    eapply fail_exchange_single_flight; eassumption.
  - destruct p as [|p]; [|exact Hinv0]. cbn [lookup list_lookup fmap option_fmap option_map].
    rewrite H3. exact Hinv0.
  - destruct p as [|p]; [|exact Hinv0]. cbn [lookup list_lookup fmap option_fmap option_map].
    destruct (ex_phase ex); try exact Hinv0; destruct c0; cbn in H2; discriminate.
Qed.

Lemma race_settled_single_flight k st p out now :
  single_flight k st -> single_flight k (step st (RaceSettled p out now)).
Proof.
  intros Hinv. pose proof Hinv as Hinv0.
  destruct Hinv as [H1 H2 H3 H4 H5 H6
         |ex o H1 H2 H3 H4 H5 H6 H7 H8 H9 H10
         |ex o r u H1 H2 H3 H4 H5 H6 H7 H8 H9
         |ex c0 H1 Hk0 H2 H3 H4]; cbn [step]; rewrite H1.
  - exact Hinv0.
  - destruct p as [|p]; [|exact Hinv0]. cbn [lookup list_lookup].
    destruct (ex_phase ex) eqn:Ep; try exact Hinv0.
    destruct out as [r|e]; [|eapply fail_exchange_single_flight; eassumption].
    destruct (length r <? 50)%nat;
      [eapply fail_exchange_single_flight; eassumption|].
    eapply (sf_paced _ _
              {| ex_key := ex_key ex; ex_prompt := ex_prompt ex;
                 ex_domDelayMs := ex_domDelayMs ex; ex_phase := Fulfilled r |}
              o r (now + SUCCESS_DELAY_MS)).
    + rewrite settle_exchanges. cbn [exchanges set_cache set_phase set_exchanges].
      rewrite H1. reflexivity.
    + exact H2.
    + reflexivity.
    + rewrite settle_page_input. exact H5.
    + rewrite settle_cache. cbn [responseCache set_cache]. rewrite H2.
      intros e0. rewrite lookup_insert_eq. intros [= <-]. reflexivity.
    + rewrite (proj1 (settle_active_return _ _ _ _)). exact H7.
    + rewrite (proj2 (settle_active_return _ _ _ _)). exact H8.
    + rewrite settle_calls. cbn [calls set_cache set_phase set_exchanges].
      rewrite (list_lookup_fmap_Some_2 _ _ _ _ H9). reflexivity.
    + rewrite settle_calls. cbn [calls set_cache set_phase set_exchanges].
      intros i c Hi Hc. apply list_lookup_fmap_Some_1 in Hc.
      destruct Hc as (c' & -> & Hc). apply resumed_attached. eauto.
  - destruct p as [|p]; [|exact Hinv0]. cbn [lookup list_lookup].
    rewrite H3. exact Hinv0.
  - destruct p as [|p]; [|exact Hinv0]. cbn [lookup list_lookup].
    destruct (ex_phase ex); try exact Hinv0; destruct c0; cbn in H2; discriminate.
Qed.

Lemma error_delay_single_flight k st p now :
  single_flight k st -> single_flight k (step st (ErrorDelayElapsed p now)).
Proof.
  intros Hinv. pose proof Hinv as Hinv0.
  destruct Hinv as [H1 H2 H3 H4 H5 H6
         |ex o H1 H2 H3 H4 H5 H6 H7 H8 H9 H10
         |ex o r u H1 H2 H3 H4 H5 H6 H7 H8 H9
         |ex c0 H1 Hk0 H2 H3 H4]; cbn [step]; unfold phase_of; rewrite H1.
  - exact Hinv0.
  - destruct p as [|p]; [|exact Hinv0]. cbn [lookup list_lookup fmap option_fmap option_map].
    destruct (ex_phase ex) as [| |e until|r|e] eqn:Ep; try exact Hinv0.
    destruct (until <=? now); [|exact Hinv0].
    eapply (sf_done _ _
              {| ex_key := ex_key ex; ex_prompt := ex_prompt ex;
                 ex_domDelayMs := ex_domDelayMs ex; ex_phase := Rejected e |}
              (Throw e)).
    + rewrite settle_exchanges. cbn [exchanges set_phase set_exchanges].
      rewrite H1. reflexivity.
    + exact H2.
    + reflexivity.
    + rewrite settle_page_input. exact H5.
    + rewrite settle_calls. cbn [calls set_phase set_exchanges].
      intros i c Hc. apply list_lookup_fmap_Some_1 in Hc.
      destruct Hc as (c' & -> & Hc).
      destruct (decide (i = o)) as [->|Hi].
      * rewrite H9 in Hc. injection Hc as <-. right. reflexivity.
      * apply resumed_attached_error. eauto.
  - destruct p as [|p]; [|exact Hinv0]. cbn [lookup list_lookup fmap option_fmap option_map].
    rewrite H3. exact Hinv0.
  - destruct p as [|p]; [|exact Hinv0]. cbn [lookup list_lookup fmap option_fmap option_map].
    destruct (ex_phase ex); try exact Hinv0; destruct c0; cbn in H2; discriminate.
Qed.

Lemma pacing_elapsed_single_flight k st c now :
  single_flight k st -> single_flight k (step st (PacingElapsed c now)).
Proof.
  intros Hinv. pose proof Hinv as Hinv0.
  destruct Hinv as [H1 H2 H3 H4 H5 H6
         |ex o H1 H2 H3 H4 H5 H6 H7 H8 H9 H10
         |ex o r u H1 H2 H3 H4 H5 H6 H7 H8 H9
         |ex c0 H1 Hk0 H2 H3 H4]; cbn [step].
  - destruct (calls st !! c) as [x|] eqn:Ec; [|exact Hinv0].
    destruct (H6 _ _ Ec) as [why ->]. exact Hinv0.
  - destruct (calls st !! c) as [x|] eqn:Ec; [|exact Hinv0].
    destruct (decide (c = o)) as [->|Hne].
    + rewrite H9 in Ec. injection Ec as <-. exact Hinv0.
    + destruct (H10 _ _ Hne Ec) as [[why ->]| ->]; exact Hinv0.
  - destruct (calls st !! c) as [x|] eqn:Ec; [|exact Hinv0].
    destruct (decide (c = o)) as [->|Hne].
    + rewrite H8 in Ec. injection Ec as <-.
      destruct (u <=? now); [|exact Hinv0].
      eapply (sf_done _ _ ex (Return r)).
      * destruct (decide _); exact H1.
      * exact H2.
      * exact H3.
      * destruct (decide _); exact H4.
      * assert (Hcalls : forall s, calls (set_calls s
                  (<[o := Finished (Return r)]> (calls st)))
                  = <[o := Finished (Return r)]> (calls st)) by reflexivity.
        rewrite Hcalls. intros i x Hx.
        apply list_lookup_insert_Some in Hx.
        destruct Hx as [(-> & <- & _)|[Hi Hx]]; [right; reflexivity|eauto].
    + destruct (H9 _ _ Hne Ec) as [[why ->]| ->]; exact Hinv0.
  - destruct (calls st !! c) as [x|] eqn:Ec; [|exact Hinv0].
    destruct (H4 _ _ Ec) as [[why ->]| ->]; exact Hinv0.
Qed.

Lemma step_single_flight k st ev :
  single_flight k st -> concurrent k st ev -> single_flight k (step st ev).
Proof.
  intros Hinv Hc.
  destruct ev as [bd now|now|now| |p|p now|p o now|p now|c now].
  - destruct Hc as [Hkey Hconc]. cbn [step]. unfold generate_mcqs.
    destruct (text bd) as [[|c0 t]|] eqn:Et;
      try (apply single_flight_refuse, Hinv).
    destruct (isInitialized st); cbn [negb];
      [|apply single_flight_refuse, Hinv].
    destruct (isPaused st); [apply single_flight_refuse, Hinv|].
    apply sendToGemini_single_flight; [exact Hinv|apply Hkey; reflexivity|exact Hconc].
  - cbn [step]. destruct (isPaused st);
      [exact Hinv|apply single_flight_set_pause, Hinv].
  - cbn [step]. destruct (isPaused st);
      [apply single_flight_set_pause, Hinv|exact Hinv].
  - destruct Hc.
  - apply prompt_sent_single_flight, Hinv.
  - apply page_failed_single_flight, Hinv.
  - apply race_settled_single_flight, Hinv.
  - apply error_delay_single_flight, Hinv.
  - apply pacing_elapsed_single_flight, Hinv.
Qed.

Lemma run_single_flight k tr : forall st,
  single_flight k st -> concurrent_trace k st tr ->
  single_flight k (run st tr).
Proof.
  induction tr as [|ev tr IH]; intros st Hinv Hc; [exact Hinv|].
  destruct Hc as [Hev Htr]. cbn [run fold_left]. apply IH; [|exact Htr].
  apply step_single_flight; assumption.
Qed.

Lemma single_flight_initial k : single_flight k initial.
Proof.
  apply sf_idle; try reflexivity. intros i c Hc.
  cbn in Hc. rewrite lookup_nil in Hc. discriminate.
Qed.

(** C2, as stated, fails: two requests for the text [a] are concurrent,
    but a request for the text [b] arrives between them and becomes the
    active request.  The second request for [a] then starts an exchange
    of its own: both exchanges for [a] are in flight at once, the prompt
    for [a] is sent twice, and the two callers get different texts. *)
Lemma interleaved_fingerprint_starts_twice :
  let before := run initial (take 6 interleaved_submissions) in
  let st := run initial interleaved_submissions in
  map (fun ex => (promptText (ex_prompt ex), ex_phase ex)) (exchanges before)
  = [(js "a", AwaitingResponse); (js "b", AwaitingResponse);
     (js "a", AwaitingResponse)] /\
  map promptText (page_input st) = [js "a"; js "b"; js "a"] /\
  calls st !! 0%nat = Some (Finished (Return sample_response)) /\
  calls st !! 2%nat = Some (Finished (Return other_response)) /\
  sample_response <> other_response.
Proof. repeat split; try (vm_compute; reflexivity). vm_compute. discriminate. Qed.

(** C2, amended.  In a round of concurrent submissions in which every
    request has one and the same fingerprint and the chat is not reset, a
    single exchange is created and at most one prompt is sent to the page;
    every caller that [sendToGemini] has answered got the same outcome,
    and a returned text is the response of that one exchange.  A caller
    that finds the exchange for its fingerprint recorded as the active
    request and in flight waits for its promise and starts nothing. *)
Theorem single_flight_for_one_fingerprint (k : list N) (tr : list event)
    (Hround : concurrent_trace k initial tr) :
  let st := run initial tr in
  (length (exchanges st) <= 1)%nat /\
  (length (page_input st) <= 1)%nat /\
  (forall i j c1 c2,
     calls st !! i = Some (Finished c1) -> calls st !! j = Some (Finished c2) ->
     c1 = c2) /\
  (forall i r, calls st !! i = Some (Finished (Return r)) ->
     exists ex, exchanges st = [ex] /\ ex_key ex = k /\ ex_phase ex = Fulfilled r) /\
  (forall s t sp d now p ph,
     cleanCache now (responseCache s) !! generateCacheKey t = None ->
     activeRequest s = Some p ->
     activeRequestText s = Some (generateCacheKey t) ->
     phase_of s p = Some ph -> in_flight ph = true ->
     sendToGemini s t sp d now
     = add_call (set_cache s (cleanCache now (responseCache s))) (AwaitActive p)).
Proof.
  intros st.
  assert (Hawait : forall s t sp d now p ph,
     cleanCache now (responseCache s) !! generateCacheKey t = None ->
     activeRequest s = Some p ->
     activeRequestText s = Some (generateCacheKey t) ->
     phase_of s p = Some ph -> in_flight ph = true ->
     sendToGemini s t sp d now
     = add_call (set_cache s (cleanCache now (responseCache s))) (AwaitActive p)).
  { intros s t sp d now p ph Hmiss Ha Ht Hph Hin.
    rewrite (sendToGemini_attaches _ _ _ _ _ p Hmiss Ha Ht).
    unfold await_active.
    change (phase_of (set_cache s (cleanCache now (responseCache s))) p)
      with (phase_of s p).
    rewrite Hph. destruct ph; try discriminate; reflexivity. }
  pose proof (run_single_flight k tr initial (single_flight_initial k) Hround) as Hinv.
  fold st in Hinv.
  destruct Hinv as [H1 H2 H3 H4 H5 H6
         |ex o H1 H2 H3 H4 H5 H6 H7 H8 H9 H10
         |ex o r u H1 H2 H3 H4 H5 H6 H7 H8 H9
         |ex c0 H1 Hk0 H2 H3 H4].
  - rewrite H1, H2. repeat split; try exact Hawait; try (cbn; lia).
    + intros i j c1 c2 Hi _. destruct (H6 _ _ Hi) as [why Hw]. discriminate.
    + intros i r Hi. destruct (H6 _ _ Hi) as [why Hw]. discriminate.
  - rewrite H1. repeat split; try exact Hawait; try (cbn; lia); try exact H5.
    + intros i j c1 c2 Hi _. destruct (decide (i = o)) as [->|Hne].
      * rewrite H9 in Hi. discriminate.
      * destruct (H10 _ _ Hne Hi) as [[why Hw]|Hw]; discriminate.
    + intros i r Hi. destruct (decide (i = o)) as [->|Hne].
      * rewrite H9 in Hi. discriminate.
      * destruct (H10 _ _ Hne Hi) as [[why Hw]|Hw]; discriminate.
  - assert (Hfin : forall i c, calls st !! i = Some (Finished c) -> c = Return r).
    { intros i c Hi. destruct (decide (i = o)) as [->|Hne].
      - rewrite H8 in Hi. discriminate.
      - destruct (H9 _ _ Hne Hi) as [[why Hw]|Hw]; [discriminate|congruence]. }
    rewrite H1. repeat split; try exact Hawait; try (cbn; lia); try exact H4.
    + intros i j c1 c2 Hi Hj. rewrite (Hfin _ _ Hi), (Hfin _ _ Hj). reflexivity.
    + intros i r' Hi. apply Hfin in Hi. injection Hi as ->.
      exists ex. repeat split; assumption.
  - assert (Hfin : forall i c, calls st !! i = Some (Finished c) -> c = c0).
    { intros i c Hi. destruct (H4 _ _ Hi) as [[why Hw]|Hw]; [discriminate|congruence]. }
    rewrite H1. repeat split; try exact Hawait; try (cbn; lia); try exact H3.
    + intros i j c1 c2 Hi Hj. rewrite (Hfin _ _ Hi), (Hfin _ _ Hj). reflexivity.
    + intros i r' Hi. apply Hfin in Hi. subst c0. cbn in H2.
      exists ex. repeat split; try assumption.
Qed.

Lemma single_flight_for_one_fingerprint_witness :
  calls (run initial four_submissions)
  = [Finished (Return sample_response); Finished (Return sample_response);
     Finished (Return sample_response); Finished (Return sample_response)] /\
  (length (page_input (run initial four_submissions)) <= 1)%nat.
Proof.
  split; [vm_compute; reflexivity|].
  apply (single_flight_for_one_fingerprint (generateCacheKey (js "a"))
           four_submissions).
  cbn [four_submissions concurrent_trace concurrent].
  repeat split;
    try (intros t [= <-]; reflexivity);
    try (left; reflexivity);
    try (right; vm_compute; reflexivity).
Defined.

End ServerFacts.

(** ** [cleanJsonResponse]: what it returns *)

Module CleanOutput.

Import CleanShape.

Local Open Scope N_scope.

(** *** Texts made of characters that no pattern starts with *)

Lemma occurs_heads (P : N -> bool) m s :
  (forall c rest, P c = true -> m (c :: rest) = None) ->
  forallb P s = true -> occurs m s = false.
Proof.
  intros Hm. induction s as [|c rest IH]; [reflexivity|].
  cbn [forallb occurs]. intros H. apply andb_true_iff in H. destruct H as [Hc H].
  rewrite (Hm c rest Hc). apply IH, H.
Qed.

Lemma match_lit_head a p c rest : a <> c -> match_lit (a :: p) (c :: rest) = None.
Proof.
  intros H. unfold match_lit. cbn [starts_with].
  destruct (N.eqb_spec a c); [contradiction|reflexivity].
Qed.

Lemma fence_head c rest : c <> 96 -> fence (c :: rest) = None.
Proof.
  intros H. unfold fence. cbn [js starts_with].
  destruct (N.eqb_spec (N_of_ascii "`") c) as [E|E]; [|reflexivity].
  exfalso. apply H. rewrite <- E. reflexivity.
Qed.

Lemma to_lower_backtick c : to_lower_ascii c = 96 -> c = 96.
Proof.
  unfold to_lower_ascii.
  destruct (N.leb_spec 65 c); destruct (N.leb_spec c 90); cbn [andb]; lia.
Qed.

Lemma fence_json_head c rest : c <> 96 -> fence_json (c :: rest) = None.
Proof.
  intros H. unfold fence_json. cbn [js starts_with_ci].
  destruct (N.eqb_spec (to_lower_ascii (N_of_ascii "`")) (to_lower_ascii c)) as [E|E];
    [|reflexivity].
  exfalso. apply H. apply to_lower_backtick. rewrite <- E. reflexivity.
Qed.

Lemma html_tag_head c rest : c <> 60 -> html_tag (c :: rest) = None.
Proof.
  intros H. unfold html_tag. destruct (N.eqb_spec c 60); [contradiction|reflexivity].
Qed.

(** A text in which no backtick, ampersand or [<] occurs has no
    markup. *)
Lemma has_markup_heads (P : N -> bool) text :
  (forall c, P c = true -> c <> 96 /\ c <> 38 /\ c <> 60) ->
  forallb P text = true -> has_markup text = false.
Proof.
  intros HP Hall. unfold has_markup.
  repeat (apply orb_false_iff; split);
    apply (occurs_heads P); try exact Hall; intros c rest Hc;
    destruct (HP c Hc) as (H96 & H38 & H60).
  - apply fence_json_head, H96.
  - apply fence_head, H96.
  - apply match_lit_head. intros E. apply H38. rewrite <- E. reflexivity.
  - apply match_lit_head. intros E. apply H38. rewrite <- E. reflexivity.
  - apply match_lit_head. intros E. apply H38. rewrite <- E. reflexivity.
  - apply match_lit_head. intros E. apply H38. rewrite <- E. reflexivity.
  - apply match_lit_head. intros E. apply H38. rewrite <- E. reflexivity.
  - apply html_tag_head, H60.
Qed.

Lemma whitespace_range c :
  is_whitespace c = true -> 9 <= c <= 13 \/ c = 32 \/ 160 <= c.
Proof.
  unfold is_whitespace. intros H.
  repeat (apply orb_true_iff in H; destruct H as [H|H]);
    repeat (apply andb_true_iff in H; destruct H as [H ?]);
    repeat match goal with
           | E : (_ <=? _) = true |- _ => apply N.leb_le in E
           | E : (_ =? _) = true |- _ => apply N.eqb_eq in E
           end; lia.
Qed.

Lemma forallb_weaken (P Q : N -> bool) (s : list N) :
  (forall c, P c = true -> Q c = true) -> forallb P s = true -> forallb Q s = true.
Proof.
  intros H. induction s as [|c r IH]; [reflexivity|]. cbn.
  intros Hs. apply andb_true_iff in Hs. destruct Hs as [Hc Hs].
  rewrite (H c Hc), (IH Hs). reflexivity.
Qed.

Lemma differs c d : c <> d -> negb (c =? d) = true.
Proof. intros H. destruct (N.eqb_spec c d); [contradiction|reflexivity]. Qed.

(** *** Texts without a bracket *)

Lemma indexOf_absent c s :
  forallb (fun x => negb (x =? c)) s = true -> indexOf c s = (-1)%Z.
Proof.
  intros H. unfold indexOf.
  rewrite <- (app_nil_r s), (CleanFacts.indexOf_from_skip c s [] 0 H). reflexivity.
Qed.

Lemma lastIndexOf_absent c s :
  forallb (fun x => negb (x =? c)) s = true -> lastIndexOf c s = (-1)%Z.
Proof.
  intros H. unfold lastIndexOf.
  change s with ([] ++ s).
  rewrite (CleanFacts.lastIndexOf_from_skip c [] s 0 (-1) H). reflexivity.
Qed.

Lemma cut_before_json_none text :
  forallb (fun x => negb (x =? 91)) text = true ->
  forallb (fun x => negb (x =? 123)) text = true ->
  cut_before_json text = text.
Proof.
  intros H1 H2. unfold cut_before_json.
  rewrite (indexOf_absent 91 text H1), (indexOf_absent 123 text H2). reflexivity.
Qed.

Lemma cut_after_json_none text :
  forallb (fun x => negb (x =? 93)) text = true ->
  forallb (fun x => negb (x =? 125)) text = true ->
  cut_after_json text = text.
Proof.
  intros H1 H2. unfold cut_after_json.
  rewrite (lastIndexOf_absent 93 text H1), (lastIndexOf_absent 125 text H2).
  reflexivity.
Qed.

Lemma trim_blank text : forallb is_whitespace text = true -> trim text = [].
Proof.
  intros H. unfold trim. rewrite (JsonFacts.drop_while_all _ _ H). reflexivity.
Qed.

Lemma cleaned_text_blank text :
  forallb is_whitespace text = true -> cleaned_text text = [].
Proof.
  intros H.
  assert (Hm : has_markup text = false).
  { apply (has_markup_heads is_whitespace); [|exact H].
    intros c Hc. pose proof (whitespace_range c Hc). lia. }
  unfold cleaned_text.
  rewrite (CleanFacts.strip_fences_plain text Hm).
  rewrite cut_before_json_none.
  2,3: apply (forallb_weaken is_whitespace); [|exact H]; intros c Hc;
       apply differs; pose proof (whitespace_range c Hc); lia.
  rewrite cut_after_json_none.
  2,3: apply (forallb_weaken is_whitespace); [|exact H]; intros c Hc;
       apply differs; pose proof (whitespace_range c Hc); lia.
  rewrite (CleanFacts.rewrite_plain text Hm).
  apply trim_blank, H.
Qed.

(** X1.  An empty text, or one of white space only, is answered with the
    [SyntaxError] of [JSON.parse]. *)
Theorem blank_text_is_rejected (text : list N)
    (Hblank : forallb is_whitespace text = true) :
  cleanJsonResponse text = Some (Throw SyntaxError).
Proof.
  unfold cleanJsonResponse. rewrite (cleaned_text_blank text Hblank). reflexivity.
Qed.

Lemma blank_text_is_rejected_witness :
  cleanJsonResponse [32; 10; 9; 160] = Some (Throw SyntaxError).
Proof. apply blank_text_is_rejected. reflexivity. Defined.

(** *** Prose around the JSON text *)

Lemma indexOf_found c pre rest :
  forallb (fun x => negb (x =? c)) pre = true ->
  indexOf c (pre ++ c :: rest) = Z.of_nat (length pre).
Proof.
  intros H. unfold indexOf. rewrite (CleanFacts.indexOf_from_skip c pre _ 0 H).
  cbn [indexOf_from]. rewrite N.eqb_refl. lia.
Qed.

Lemma indexOf_later c pre x rest :
  forallb (fun y => negb (y =? c)) pre = true -> x <> c ->
  (indexOf c (pre ++ x :: rest) = -1
   \/ Z.of_nat (length pre) < indexOf c (pre ++ x :: rest))%Z.
Proof.
  intros H Hx. unfold indexOf. rewrite (CleanFacts.indexOf_from_skip c pre _ 0 H).
  cbn [indexOf_from]. destruct (N.eqb_spec x c); [contradiction|].
  destruct (CleanFacts.indexOf_from_range c rest (0 + Z.of_nat (length pre) + 1))
    as [E|E]; [left; exact E|right; lia].
Qed.

Lemma cut_before_json_at (pre : list N) (c : N) (rest : list N) (i j : Z) :
  i = Z.of_nat (length pre) -> (j = -1 \/ i < j)%Z ->
  (match Math_min (if negb (i =? -1)%Z then Some i else None)
                  (if negb (j =? -1)%Z then Some j else None) with
   | Some k => substring_from (pre ++ c :: rest) k
   | None => pre ++ c :: rest
   end = c :: rest) /\
  (match Math_min (if negb (j =? -1)%Z then Some j else None)
                  (if negb (i =? -1)%Z then Some i else None) with
   | Some k => substring_from (pre ++ c :: rest) k
   | None => pre ++ c :: rest
   end = c :: rest).
Proof.
  intros Hi Hj.
  assert (Hdrop : substring_from (pre ++ c :: rest) i = c :: rest).
  { subst i. rewrite CleanFacts.substring_from_drop by (rewrite length_app; lia).
    apply drop_app_length. }
  destruct (Z.eqb_spec i (-1)); [lia|]. cbn [negb].
  destruct (Z.eqb_spec j (-1)); cbn [negb Math_min].
  - split; exact Hdrop.
  - rewrite Z.min_l, Z.min_r by lia. split; exact Hdrop.
Qed.

Lemma cut_before_json_skip pre body :
  forallb (fun x => negb (x =? 91)) pre = true ->
  forallb (fun x => negb (x =? 123)) pre = true ->
  opens_json body = true ->
  cut_before_json (pre ++ body) = body.
Proof.
  intros H1 H2 Ho. destruct body as [|c rest]; [discriminate|].
  cbn [opens_json] in Ho. unfold cut_before_json.
  apply orb_true_iff in Ho. destruct Ho as [E|E]; apply N.eqb_eq in E; subst c.
  - eapply proj1. apply (cut_before_json_at pre 91 rest).
    + apply indexOf_found, H1.
    + rewrite (indexOf_found 91 pre rest H1).
      apply (indexOf_later 123 pre 91 rest H2). discriminate.
  - eapply proj2. apply (cut_before_json_at pre 123 rest).
    + apply indexOf_found, H2.
    + rewrite (indexOf_found 123 pre rest H2).
      apply (indexOf_later 91 pre 123 rest H1). discriminate.
Qed.

Lemma jsonEnd_closing body :
  closes_json body = true ->
  Z.max (lastIndexOf 93 body) (lastIndexOf 125 body)
  = (Z.of_nat (length body) - 1)%Z /\ (0 < length body)%nat.
Proof.
  unfold closes_json. destruct (last body) as [c|] eqn:Hl; [|discriminate].
  intros H. assert (Hne : body <> []) by (intros ->; discriminate).
  assert (Hlen : (0 < length body)%nat) by (destruct body; [congruence|cbn; lia]).
  split; [|exact Hlen]. unfold lastIndexOf.
  pose proof (CleanFacts.lastIndexOf_from_bound 93 body 0 (-1) ltac:(lia)) as B1.
  pose proof (CleanFacts.lastIndexOf_from_bound 125 body 0 (-1) ltac:(lia)) as B2.
  apply orb_true_iff in H. destruct H as [H|H]; apply N.eqb_eq in H; subst c.
  - rewrite (CleanFacts.lastIndexOf_from_last 93 body 0 (-1)); [lia|lia| |exact Hne].
    apply CleanFacts.last_default, Hl.
  - rewrite (CleanFacts.lastIndexOf_from_last 125 body 0 (-1)); [lia|lia| |exact Hne].
    apply CleanFacts.last_default, Hl.
Qed.

Lemma cut_after_json_skip body post :
  closes_json body = true ->
  forallb (fun x => negb (x =? 93)) post = true ->
  forallb (fun x => negb (x =? 125)) post = true ->
  cut_after_json (body ++ post) = body.
Proof.
  intros Hc H1 H2. destruct (jsonEnd_closing body Hc) as [Hend Hlen].
  unfold cut_after_json, lastIndexOf in *.
  rewrite (CleanFacts.lastIndexOf_from_skip 93 body post 0 (-1) H1).
  rewrite (CleanFacts.lastIndexOf_from_skip 125 body post 0 (-1) H2).
  rewrite Hend.
  destruct (Z.eqb_spec (Z.of_nat (length body) - 1) (-1)); [lia|]. cbn [negb].
  replace (Z.of_nat (length body) - 1 + 1)%Z with (Z.of_nat (length body)) by lia.
  rewrite CleanFacts.substring_take by (rewrite length_app; lia).
  rewrite take_app_le by lia. apply firstn_all.
Qed.


Lemma cleaned_text_prose pre t post :
  has_markup (pre ++ t ++ post) = false ->
  forallb no_opening pre = true -> forallb no_closing post = true ->
  opens_json t = true -> closes_json t = true ->
  cleaned_text (pre ++ t ++ post) = t.
Proof.
  intros Hm Hpre Hpost Ho Hc. unfold cleaned_text.
  rewrite (CleanFacts.strip_fences_plain _ Hm).
  rewrite cut_before_json_skip.
  - rewrite cut_after_json_skip; [| exact Hc | |].
    + rewrite CleanFacts.rewrite_plain
        by (apply (CleanFacts.has_markup_middle pre t post), Hm).
      apply CleanFacts.trim_bracketed; assumption.
    + apply (forallb_weaken no_closing); [|exact Hpost].
      intros c H. apply andb_true_iff in H. apply H.
    + apply (forallb_weaken no_closing); [|exact Hpost].
      intros c H. apply andb_true_iff in H. apply H.
  - apply (forallb_weaken no_opening); [|exact Hpre].
    intros c H. apply andb_true_iff in H. apply H.
  - apply (forallb_weaken no_opening); [|exact Hpre].
    intros c H. apply andb_true_iff in H. apply H.
  - destruct t; [discriminate|]. exact Ho.
Qed.

(** X2.  Prose before and after the JSON text is cut away.  When the text is
    [pre ++ t ++ post] without code fences, entities or tags, [pre] has no
    opening bracket or brace, [post] has no closing one, and [t] is a JSON
    document from its opening to its closing bracket, the result is [t]
    itself. *)
Theorem prose_around_json_is_cut (pre t post : list N) (v : json)
    (Hmarkup : has_markup (pre ++ t ++ post) = false)
    (Hpre : forallb no_opening pre = true)
    (Hpost : forallb no_closing post = true)
    (Hopen : opens_json t = true) (Hclose : closes_json t = true)
    (Hparse : JSON_parse t = POk v) :
  cleanJsonResponse (pre ++ t ++ post) = Some (Return t).
Proof.
  unfold cleanJsonResponse.
  rewrite (cleaned_text_prose pre t post Hmarkup Hpre Hpost Hopen Hclose).
  rewrite Hparse. reflexivity.
Qed.

Lemma prose_around_json_is_cut_witness :
  cleanJsonResponse (js "Here are the MCQs: " ++ one_record ++ js " Done.")
  = Some (Return one_record).
Proof.
  apply (prose_around_json_is_cut _ _ _
           (JArray [JObject [(js "id", JNumber (js "1"));
                             (js "question", JString (js "Q?"))]]));
    vm_compute; reflexivity.
Defined.

(** *** No tag is left *)

Lemma replace_go_drop m r s : forall k,
  replace_go m r k s = replace_go m r O (drop k s).
Proof.
  induction s as [|c rest IH]; intros k.
  - destruct k; reflexivity.
  - destruct k as [|k]; [reflexivity|]. cbn [replace_go drop]. apply IH.
Qed.

Lemma replace_all_match m r c rest k :
  m (c :: rest) = Some (S k) ->
  replace_all m r (c :: rest) = r ++ replace_all m r (drop k rest).
Proof.
  intros H. unfold replace_all. cbn [replace_go]. rewrite H.
  rewrite replace_go_drop. reflexivity.
Qed.

Lemma replace_all_keep m r c rest :
  (forall k, m (c :: rest) <> Some (S k)) ->
  replace_all m r (c :: rest) = c :: replace_all m r rest.
Proof.
  intros H. unfold replace_all. cbn [replace_go].
  destruct (m (c :: rest)) as [[|k]|]; try reflexivity.
  exfalso. apply (H k). reflexivity.
Qed.

(** With an empty replacement, what is left was in the text. *)
Lemma replace_all_subset m (P : N -> bool) : forall n s,
  (length s <= n)%nat -> forallb P s = true ->
  forallb P (replace_all m [] s) = true.
Proof.
  induction n as [|n IH]; intros s Hn Hs.
  - destruct s; [reflexivity|cbn in Hn; lia].
  - destruct s as [|c rest]; [reflexivity|].
    cbn [length] in Hn. cbn [forallb] in Hs.
    apply andb_true_iff in Hs. destruct Hs as [Hc Hs].
    destruct (m (c :: rest)) as [[|k]|] eqn:E.
    + rewrite replace_all_keep by (intros k; rewrite E; discriminate).
      cbn [forallb]. rewrite Hc. apply IH; [lia|exact Hs].
    + rewrite (replace_all_match m [] c rest k E). cbn [app].
      apply IH.
      * rewrite length_drop. lia.
      * rewrite <- (take_drop k rest), forallb_app in Hs.
        apply andb_true_iff in Hs. apply Hs.
    + rewrite replace_all_keep by (intros k; rewrite E; discriminate).
      cbn [forallb]. rewrite Hc. apply IH; [lia|exact Hs].
Qed.


Lemma span_length_all f (s : list N) :
  forallb f s = true -> span_length f s = length s.
Proof.
  induction s as [|c r IH]; [reflexivity|]. cbn.
  intros H. apply andb_true_iff in H. destruct H as [Hc H].
  rewrite Hc, (IH H). reflexivity.
Qed.

(** A [<] that no [>] follows opens no tag. *)
Lemma html_tag_unclosed c s : forallb not_gt s = true -> html_tag (c :: s) = None.
Proof.
  intros H. unfold html_tag. destruct (c =? 60); [|reflexivity].
  fold not_gt. rewrite (span_length_all not_gt s H).
  destruct (length s) as [|k] eqn:El; [reflexivity|].
  rewrite <- El, drop_all. reflexivity.
Qed.

Lemma span_length_stops f (s : list N) d rest :
  drop (span_length f s) s = d :: rest -> f d = false.
Proof.
  induction s as [|c r IH]; [discriminate|]. cbn [span_length].
  destruct (f c) eqn:Ec.
  - cbn [drop]. exact IH.
  - cbn [drop]. intros [= <- _]. exact Ec.
Qed.

(** When no tag starts at a [<], either [>] follows at once or no [>]
    follows at all. *)
Lemma html_tag_none_cases rest :
  html_tag (60 :: rest) = None ->
  (exists rest', rest = 62 :: rest') \/ forallb not_gt rest = true.
Proof.
  unfold html_tag. change (60 =? 60) with true. cbv iota. fold not_gt.
  destruct (span_length not_gt rest) as [|k] eqn:Es.
  - intros _. destruct rest as [|d rest']; [right; reflexivity|].
    cbn [span_length] in Es. destruct (not_gt d) eqn:Ed; [discriminate|].
    left. exists rest'. unfold not_gt in Ed. apply negb_false_iff in Ed.
    apply N.eqb_eq in Ed. subst d. reflexivity.
  - destruct (drop (S k) rest) as [|d rest'] eqn:Ed.
    + intros _. right.
      assert (Hlen : (length rest <= span_length not_gt rest)%nat).
      { apply (f_equal (@length N)) in Ed. rewrite length_drop in Ed.
        cbn in Ed. lia. }
      clear Ed Es. induction rest as [|x r IH]; [reflexivity|].
      cbn [span_length] in Hlen. cbn [forallb].
      destruct (not_gt x); [|cbn in Hlen; lia].
      cbn [length] in Hlen. apply IH. lia.
    + rewrite <- Es in Ed. pose proof (span_length_stops _ _ _ _ Ed) as Hd.
      unfold not_gt in Hd. apply negb_false_iff in Hd. rewrite Hd. discriminate.
Qed.

Lemma strip_tags_leaves_none : forall n s,
  (length s <= n)%nat -> occurs html_tag (strip_tags s) = false.
Proof.
  unfold strip_tags.
  induction n as [|n IH]; intros s Hn.
  - destruct s; [reflexivity|cbn in Hn; lia].
  - destruct s as [|c rest]; [reflexivity|]. cbn [length] in Hn.
    destruct (html_tag (c :: rest)) as [[|k]|] eqn:E.
    + exfalso. revert E. unfold html_tag. destruct (c =? 60); [|discriminate].
      destruct (span_length _ rest); [discriminate|].
      destruct (drop _ rest) as [|d ?]; [discriminate|].
      destruct (d =? 62); discriminate.
    + rewrite (replace_all_match html_tag [] c rest k E). cbn [app].
      apply IH. rewrite length_drop. lia.
    + rewrite replace_all_keep by (intros k; rewrite E; discriminate).
      cbn [occurs].
      assert (Hhead : html_tag (c :: replace_all html_tag [] rest) = None).
      { destruct (N.eqb_spec c 60) as [->|Hc]; [|apply html_tag_head, Hc].
        destruct (html_tag_none_cases rest E) as [[rest' ->]|Hall].
        - rewrite replace_all_keep
            by (intros k; rewrite html_tag_head; discriminate).
          reflexivity.
        - apply html_tag_unclosed.
          apply (replace_all_subset html_tag not_gt (length rest));
            [lia|exact Hall]. }
      rewrite Hhead. apply IH. lia.
Qed.

Lemma trim_middle s : exists a b, s = a ++ trim s ++ b.
Proof.
  unfold trim.
  destruct (JsonFacts.drop_while_split is_whitespace s) as (a & Ea & _).
  destruct (JsonFacts.drop_while_split is_whitespace
              (rev (drop_while is_whitespace s))) as (b & Eb & _).
  exists a, (rev b).
  rewrite <- rev_app_distr, <- Eb, rev_involutive. exact Ea.
Qed.

Lemma cleaned_text_has_no_tag text : occurs html_tag (cleaned_text text) = false.
Proof.
  unfold cleaned_text.
  set (s := strip_tags _).
  assert (Hs : occurs html_tag s = false)
    by (apply strip_tags_leaves_none with (n := length (fix_entities
          (cut_after_json (cut_before_json (strip_fences text))))); lia).
  destruct (trim_middle s) as (a & b & E).
  rewrite E in Hs. apply CleanFacts.occurs_app_r in Hs.
  apply (CleanFacts.occurs_app_l html_tag _ b CleanFacts.html_tag_stable Hs).
Qed.

(** X3.  No tag is left in a text that [cleanJsonResponse] returns: nowhere
    in it does [<] come before a later [>] with something in between, also
    not inside a JSON string. *)
Theorem returned_text_has_no_tag (text cleaned : list N)
    (Hreturn : cleanJsonResponse text = Some (Return cleaned)) :
  occurs html_tag cleaned = false.
Proof.
  unfold cleanJsonResponse in Hreturn.
  destruct (JSON_parse (cleaned_text text)); try discriminate.
  injection Hreturn as <-. apply cleaned_text_has_no_tag.
Qed.

Lemma returned_text_has_no_tag_witness :
  cleanJsonResponse (jq "['<b>bold</b> and <i>more</i>']")
  = Some (Return (jq "['bold and more']")) /\
  occurs html_tag (jq "['bold and more']") = false.
Proof.
  split; [vm_compute; reflexivity|].
  apply (returned_text_has_no_tag (jq "['<b>bold</b> and <i>more</i>']")).
  vm_compute. reflexivity.
Defined.

(** *** A fenced JSON text *)

Lemma occurs_suffix m a b k :
  b <> [] -> m b = Some (S k) -> occurs m (a ++ b) = true.
Proof.
  intros Hb Hm. induction a as [|x a IH]; cbn [app].
  - destruct b as [|c r]; [congruence|]. cbn [occurs]. rewrite Hm. reflexivity.
  - cbn [occurs]. destruct (m (x :: a ++ b)) as [[|j]|]; try reflexivity; exact IH.
Qed.

Lemma replace_all_app_closed m r a b :
  (forall a1 a2 k, a = a1 ++ a2 -> a2 <> [] -> m (a2 ++ b) <> Some (S k)) ->
  replace_all m r (a ++ b) = a ++ replace_all m r b.
Proof.
  induction a as [|x a IH]; intros H; [reflexivity|].
  cbn [app]. rewrite replace_all_keep.
  - f_equal. apply IH. intros a1 a2 k E. apply (H (x :: a1) a2 k).
    rewrite E. reflexivity.
  - intros k. apply (H [] (x :: a) k); [reflexivity|discriminate].
Qed.

Lemma replace_all_app_heads (P : N -> bool) m r a b :
  (forall c rest, P c = true -> m (c :: rest) = None) ->
  forallb P a = true ->
  replace_all m r (a ++ b) = a ++ replace_all m r b.
Proof.
  intros Hm Ha. apply replace_all_app_closed. intros a1 a2 k E Hne.
  destruct a2 as [|c a2']; [congruence|]. cbn [app].
  rewrite Hm; [discriminate|].
  rewrite E, forallb_app in Ha. apply andb_true_iff in Ha.
  destruct Ha as [_ Ha]. cbn [forallb] in Ha. apply andb_true_iff in Ha. apply Ha.
Qed.

(** A pattern that begins with the literal [p] and matches at the head of
    [a ++ b] matches within [a], unless [a] is made of characters of
    [p]. *)
Lemma starts_with_ci_app_inv p : forall a b,
  starts_with_ci p (a ++ b) = true ->
  starts_with_ci p a = true
  \/ forallb (fun c => existsb (fun q => to_lower_ascii q =? to_lower_ascii c) p) a
     = true.
Proof.
  induction p as [|q p IH]; intros a b H; [left; reflexivity|].
  destruct a as [|x a]; [right; reflexivity|].
  cbn [app starts_with_ci] in H. apply andb_true_iff in H. destruct H as [Hq H].
  destruct (IH a b H) as [E|E].
  - left. cbn [starts_with_ci]. rewrite Hq, E. reflexivity.
  - right. cbn [forallb existsb]. rewrite Hq. cbn [orb andb].
    revert E. apply forallb_weaken. intros c Hc. rewrite Hc. apply orb_true_r.
Qed.

Lemma starts_with_app_inv p : forall a b,
  starts_with p (a ++ b) = true ->
  starts_with p a = true \/ forallb (fun c => existsb (fun q => q =? c) p) a = true.
Proof.
  induction p as [|q p IH]; intros a b H; [left; reflexivity|].
  destruct a as [|x a]; [right; reflexivity|].
  cbn [app starts_with] in H. apply andb_true_iff in H. destruct H as [Hq H].
  destruct (IH a b H) as [E|E].
  - left. cbn [starts_with]. rewrite Hq, E. reflexivity.
  - right. cbn [forallb existsb]. rewrite Hq. cbn [orb andb].
    revert E. apply forallb_weaken. intros c Hc. rewrite Hc. apply orb_true_r.
Qed.

Lemma last_holds (Q : N -> bool) (a : list N) z :
  last a = Some z -> forallb Q a = true -> Q z = true.
Proof.
  intros Hl Ha. apply last_Some in Hl. destruct Hl as [front ->].
  rewrite forallb_app in Ha. apply andb_true_iff in Ha. destruct Ha as [_ Ha].
  cbn in Ha. apply andb_true_iff in Ha. apply Ha.
Qed.

Lemma last_of_suffix (a1 a2 : list N) :
  a2 <> [] -> last (a1 ++ a2) = last a2.
Proof.
  intros H. rewrite last_app. destruct (last a2) eqn:E; [reflexivity|].
  apply last_None in E. contradiction.
Qed.

(** No fence starts inside a text that has none and ends with a closing
    bracket, whatever follows the text. *)
Lemma fence_not_across t b a1 a2 k :
  occurs fence t = false -> closes_json t = true ->
  t = a1 ++ a2 -> a2 <> [] -> fence (a2 ++ b) <> Some (S k).
Proof.
  intros Hocc Hc Et Hne. unfold fence.
  destruct (starts_with (js "```") (a2 ++ b)) eqn:E; [|discriminate].
  exfalso. apply starts_with_app_inv in E. destruct E as [E|E].
  - rewrite Et, (occurs_suffix fence a1 a2 (2 + span_length is_whitespace (drop 3 a2)))
      in Hocc; [discriminate|exact Hne|].
    unfold fence. rewrite E. reflexivity.
  - unfold closes_json in Hc. rewrite Et, (last_of_suffix a1 a2 Hne) in Hc.
    destruct (last a2) as [z|] eqn:Hl; [|discriminate].
    pose proof (last_holds _ a2 z Hl E) as Hz.
    apply orb_true_iff in Hc. destruct Hc as [H|H]; apply N.eqb_eq in H; subst z;
      discriminate.
Qed.

Lemma fence_json_not_across t b a1 a2 k :
  occurs fence_json t = false -> closes_json t = true ->
  t = a1 ++ a2 -> a2 <> [] -> fence_json (a2 ++ b) <> Some (S k).
Proof.
  intros Hocc Hc Et Hne. unfold fence_json.
  destruct (starts_with_ci (js "```json") (a2 ++ b)) eqn:E; [|discriminate].
  exfalso. apply starts_with_ci_app_inv in E. destruct E as [E|E].
  - rewrite Et, (occurs_suffix fence_json a1 a2
                   (6 + span_length is_whitespace (drop 7 a2))) in Hocc;
      [discriminate|exact Hne|].
    unfold fence_json. rewrite E. reflexivity.
  - unfold closes_json in Hc. rewrite Et, (last_of_suffix a1 a2 Hne) in Hc.
    destruct (last a2) as [z|] eqn:Hl; [|discriminate].
    pose proof (last_holds _ a2 z Hl E) as Hz.
    apply orb_true_iff in Hc. destruct Hc as [H|H]; apply N.eqb_eq in H; subst z;
      discriminate.
Qed.

Lemma span_length_app f (w : list N) c rest :
  forallb f w = true -> f c = false ->
  span_length f (w ++ c :: rest) = length w.
Proof.
  intros Hw Hc. induction w as [|x w IH]; cbn.
  - rewrite Hc. reflexivity.
  - cbn in Hw. apply andb_true_iff in Hw. destruct Hw as [Hx Hw].
    rewrite Hx, (IH Hw). reflexivity.
Qed.

Lemma whitespace_not_backtick c : is_whitespace c = true -> c <> 96.
Proof. intros H. pose proof (whitespace_range c H). lia. Qed.

Lemma opening_not_whitespace t :
  opens_json t = true -> exists c rest, t = c :: rest /\ is_whitespace c = false.
Proof.
  destruct t as [|c rest]; [discriminate|]. cbn [opens_json]. intros H.
  exists c, rest. split; [reflexivity|].
  apply orb_true_iff in H. destruct H as [H|H]; apply N.eqb_eq in H; subst c;
    reflexivity.
Qed.

(** The closing fence and the white space after it go as one match. *)
Lemma closing_fence_removed w :
  forallb is_whitespace w = true -> replace_all fence [] (js "```" ++ w) = [].
Proof.
  intros Hw. cbn [js app].
  rewrite (replace_all_match fence [] _ _ (2 + length w)).
  - cbn [app plus drop]. rewrite drop_all. reflexivity.
  - unfold fence. cbn [js starts_with drop]. rewrite !N.eqb_refl. cbn [andb].
    rewrite drop_0, (span_length_all _ _ Hw). reflexivity.
Qed.

Lemma to_lower_whitespace c : is_whitespace c = true -> to_lower_ascii c = c.
Proof.
  intros H. pose proof (whitespace_range c H) as R. unfold to_lower_ascii.
  destruct (N.leb_spec 65 c); destruct (N.leb_spec c 90); cbn [andb];
    try reflexivity; lia.
Qed.

(** The closing fence is not one that [json] follows. *)
Lemma closing_fence_is_plain w2 w3 :
  forallb is_whitespace w2 = true -> forallb is_whitespace w3 = true ->
  occurs fence_json (w2 ++ js "```" ++ w3) = false.
Proof.
  intros H2 H3.
  assert (Hws : forall s, forallb is_whitespace s = true ->
                          occurs fence_json s = false).
  { intros s. apply occurs_heads. intros c rest Hc.
    apply fence_json_head, whitespace_not_backtick, Hc. }
  assert (Htail : forall pre, (length pre <= 3)%nat ->
            forallb (fun c => c =? 96) pre = true ->
            fence_json (pre ++ w3) = None).
  { intros pre Hlen Hpre. unfold fence_json.
    destruct (starts_with_ci (js "```json") (pre ++ w3)) eqn:E; [|reflexivity].
    exfalso.
    destruct pre as [|p1 [|p2 [|p3 [|p4 pre]]]]; cbn [length] in Hlen; try lia;
      cbn [forallb] in Hpre;
      repeat (apply andb_true_iff in Hpre; destruct Hpre as [? Hpre]);
      repeat match goal with
             | G : (_ =? 96) = true |- _ => apply N.eqb_eq in G; subst
             end;
      (destruct w3 as [|x w3']; [vm_compute in E; discriminate|]);
      cbn [app js starts_with_ci forallb] in E, H3;
      apply andb_true_iff in H3; destruct H3 as [Hx _];
      rewrite (to_lower_whitespace x Hx) in E;
      pose proof (whitespace_range x Hx);
      repeat (apply andb_true_iff in E; destruct E as [? E]);
      repeat match goal with
             | G : (_ =? _) = true |- _ => apply N.eqb_eq in G; vm_compute in G
             end;
      lia. }
  induction w2 as [|x w2 IH].
  - pose proof (Htail [96; 96; 96] ltac:(cbn; lia) eq_refl) as T3.
    pose proof (Htail [96; 96] ltac:(cbn; lia) eq_refl) as T2.
    pose proof (Htail [96] ltac:(cbn; lia) eq_refl) as T1.
    change (js "```") with [96; 96; 96]. cbn [app occurs] in *.
    rewrite T3, T2, T1. apply Hws, H3.
  - cbn [forallb] in H2. apply andb_true_iff in H2. destruct H2 as [Hx H2].
    cbn [app occurs].
    rewrite fence_json_head by (apply whitespace_not_backtick, Hx).
    apply IH, H2.
Qed.

Lemma strip_fences_fenced w1 t w2 w3 :
  forallb is_whitespace w1 = true -> forallb is_whitespace w2 = true ->
  forallb is_whitespace w3 = true ->
  has_markup t = false -> opens_json t = true -> closes_json t = true ->
  strip_fences (js "```json" ++ w1 ++ t ++ w2 ++ js "```" ++ w3) = t ++ w2.
Proof.
  intros H1 H2 H3 Hm Ho Hc.
  assert (Hoj : occurs fence_json t = false /\ occurs fence t = false).
  { unfold has_markup in Hm.
    repeat (apply orb_false_iff in Hm; destruct Hm as [Hm ?]). split; assumption. }
  destruct Hoj as [Hoj Hof].
  destruct (opening_not_whitespace t Ho) as (c & rest & Et & Hcw).
  unfold strip_fences.
  (* the opening fence *)
  assert (Epass1 : replace_all fence_json []
                     (js "```json" ++ w1 ++ t ++ w2 ++ js "```" ++ w3)
                   = t ++ w2 ++ js "```" ++ w3).
  { change (js "```json" ++ w1 ++ t ++ w2 ++ js "```" ++ w3)
      with (96 :: (js "``json" ++ w1 ++ t ++ w2 ++ js "```" ++ w3)).
    rewrite (replace_all_match fence_json [] _ _ (6 + length w1)).
    - cbn [app]. rewrite (app_assoc (js "``json") w1).
      rewrite drop_app_length'
        by (rewrite length_app; reflexivity).
      rewrite replace_all_app_closed.
      + f_equal. apply CleanFacts.replace_all_no_match.
        apply closing_fence_is_plain; assumption.
      + intros a1 a2 k. apply fence_json_not_across; assumption.
    - unfold fence_json. cbn [js app starts_with_ci drop].
      rewrite !N.eqb_refl. cbn [andb].
      rewrite drop_0, Et. cbn [app].
      rewrite (span_length_app _ w1 c _ H1 Hcw). reflexivity. }
  rewrite Epass1.
  rewrite replace_all_app_closed
    by (intros a1 a2 k; apply fence_not_across; assumption).
  rewrite (replace_all_app_heads is_whitespace fence [] w2).
  - rewrite closing_fence_removed by exact H3. rewrite app_nil_r. reflexivity.
  - intros x r Hx. apply fence_head, whitespace_not_backtick, Hx.
  - exact H2.
Qed.

Lemma whitespace_no_closing (w : list N) :
  forallb is_whitespace w = true ->
  forallb (fun x => negb (x =? 93)) w = true
  /\ forallb (fun x => negb (x =? 125)) w = true.
Proof.
  intros H. split; apply (forallb_weaken is_whitespace); try exact H;
    intros c Hc; apply differs; pose proof (whitespace_range c Hc); lia.
Qed.

(** X4.  A JSON document inside a [json] code fence comes back without the
    fence: for a text [t] that runs from an opening to a closing bracket or
    brace, has no fence, entity or tag inside and parses, and for any
    white space [w1], [w2], [w3], cleaning the fenced text
    [```json w1 t w2 ``` w3] returns [t]. *)
Theorem fenced_json_is_unwrapped (w1 t w2 w3 : list N) (v : json)
    (Hw1 : forallb is_whitespace w1 = true)
    (Hw2 : forallb is_whitespace w2 = true)
    (Hw3 : forallb is_whitespace w3 = true)
    (Hmarkup : has_markup t = false)
    (Hopen : opens_json t = true) (Hclose : closes_json t = true)
    (Hparse : JSON_parse t = POk v) :
  cleanJsonResponse (js "```json" ++ w1 ++ t ++ w2 ++ js "```" ++ w3)
  = Some (Return t).
Proof.
  unfold cleanJsonResponse, cleaned_text.
  rewrite (strip_fences_fenced w1 t w2 w3 Hw1 Hw2 Hw3 Hmarkup Hopen Hclose).
  rewrite CleanFacts.cut_before_json_opening
    by (destruct t; [discriminate|exact Hopen]).
  destruct (whitespace_no_closing w2 Hw2) as [Ha Hb].
  rewrite (cut_after_json_skip t w2 Hclose Ha Hb).
  rewrite (CleanFacts.rewrite_plain t Hmarkup).
  rewrite (CleanFacts.trim_bracketed t Hopen Hclose).
  rewrite Hparse. reflexivity.
Qed.

Lemma fenced_json_is_unwrapped_witness :
  cleanJsonResponse (js "```json" ++ [10] ++ one_record ++ [10] ++ js "```" ++ [10])
  = Some (Return one_record).
Proof.
  apply (fenced_json_is_unwrapped [10] one_record [10] [10]
           (JArray [JObject [(js "id", JNumber (js "1"));
                             (js "question", JString (js "Q?"))]]));
    vm_compute; reflexivity.
Defined.

(** *** A text with a bracket *)

Lemma first_bracket s :
  forallb no_opening s = true
  \/ exists pre c rest, s = pre ++ c :: rest /\ forallb no_opening pre = true
                        /\ (c = 91 \/ c = 123).
Proof.
  induction s as [|x s IH]; [left; reflexivity|].
  destruct (no_opening x) eqn:Ex.
  - destruct IH as [IH|(pre & c & rest & E & Hpre & Hc)].
    + left. cbn. rewrite Ex. exact IH.
    + right. exists (x :: pre), c, rest. rewrite E. cbn. rewrite Ex. auto.
  - right. exists [], x, s. split; [reflexivity|]. split; [reflexivity|].
    unfold no_opening in Ex. apply andb_false_iff in Ex.
    destruct Ex as [E|E]; apply negb_false_iff, N.eqb_eq in E; auto.
Qed.

Lemma forallb_In (P : N -> bool) (s : list N) x :
  forallb P s = true -> In x s -> P x = true.
Proof. intros H Hx. rewrite forallb_forall in H. apply H, Hx. Qed.

Lemma cut_before_json_opens text :
  In 91 text \/ In 123 text -> opens_json (cut_before_json text) = true.
Proof.
  intros Hin. destruct (first_bracket text) as [Hnone|(pre & c & rest & E & Hpre & Hc)].
  - exfalso. destruct Hin as [H|H];
      pose proof (forallb_In _ _ _ Hnone H); discriminate.
  - rewrite E, cut_before_json_skip.
    + destruct Hc as [-> | ->]; reflexivity.
    + revert Hpre. apply forallb_weaken. intros y H.
      apply andb_true_iff in H. apply H.
    + revert Hpre. apply forallb_weaken. intros y H.
      apply andb_true_iff in H. apply H.
    + destruct Hc as [-> | ->]; reflexivity.
Qed.

Lemma cut_after_json_opens text :
  opens_json text = true -> opens_json (cut_after_json text) = true.
Proof.
  intros Ho. unfold cut_after_json.
  set (jsonEnd := Z.max (lastIndexOf 93 text) (lastIndexOf 125 text)).
  destruct (Z.eqb_spec jsonEnd (-1)) as [E|E]; [exact Ho|]. cbn [negb].
  pose proof (CleanFacts.lastIndexOf_from_lower 93 text 0 (-1) ltac:(lia)) as L.
  pose proof (CleanFacts.lastIndexOf_from_bound 93 text 0 (-1) ltac:(lia)) as B1.
  pose proof (CleanFacts.lastIndexOf_from_bound 125 text 0 (-1) ltac:(lia)) as B2.
  fold (lastIndexOf 93 text) in L, B1. fold (lastIndexOf 125 text) in B2.
  assert (Hz : (0 <= jsonEnd < Z.of_nat (length text))%Z) by (unfold jsonEnd in *; lia).
  replace (jsonEnd + 1)%Z with (Z.of_nat (S (Z.to_nat jsonEnd))) by lia.
  rewrite CleanFacts.substring_take by lia.
  destruct text; [discriminate|exact Ho].
Qed.

Lemma opens_json_head t :
  opens_json t = true ->
  exists c rest, t = c :: rest /\ (c = 91 \/ c = 123).
Proof.
  destruct t as [|c rest]; [discriminate|]. cbn [opens_json]. intros H.
  exists c, rest. split; [reflexivity|].
  apply orb_true_iff in H. destruct H as [H|H]; apply N.eqb_eq in H; auto.
Qed.

Lemma replace_all_opens m r t :
  (forall c rest, c = 91 \/ c = 123 -> m (c :: rest) = None) ->
  opens_json t = true -> opens_json (replace_all m r t) = true.
Proof.
  intros Hm Ho. destruct (opens_json_head t Ho) as (c & rest & -> & Hc).
  rewrite replace_all_keep by (intros k; rewrite (Hm c rest Hc); discriminate).
  exact Ho.
Qed.

Lemma fix_entities_opens t :
  opens_json t = true -> opens_json (fix_entities t) = true.
Proof.
  intros Ho. unfold fix_entities. cbv zeta.
  repeat (apply replace_all_opens;
          [intros c rest [-> | ->]; apply match_lit_head; discriminate|]).
  exact Ho.
Qed.

Lemma strip_tags_opens t :
  opens_json t = true -> opens_json (strip_tags t) = true.
Proof.
  apply replace_all_opens.
  intros c rest [-> | ->]; apply html_tag_head; discriminate.
Qed.

Lemma drop_while_snoc f (l : list N) c :
  f c = false -> exists l', drop_while f (l ++ [c]) = l' ++ [c].
Proof.
  intros Hc. induction l as [|x l IH]; cbn.
  - rewrite Hc. exists []. reflexivity.
  - destruct (f x); [exact IH|]. exists (x :: l). reflexivity.
Qed.

Lemma trim_opens t : opens_json t = true -> opens_json (trim t) = true.
Proof.
  intros Ho. destruct (opening_not_whitespace t Ho) as (c & rest & -> & Hc).
  unfold trim. rewrite (JsonFacts.drop_while_stop _ _ _ Hc).
  cbn [rev]. destruct (drop_while_snoc is_whitespace (rev rest) c Hc) as [l' ->].
  rewrite rev_app_distr. exact Ho.
Qed.

(** What a match of a fence pattern covers. *)
Lemma span_length_take f (s : list N) :
  forallb f (take (span_length f s) s) = true.
Proof.
  induction s as [|c r IH]; [reflexivity|]. cbn [span_length].
  destruct (f c) eqn:E; [|reflexivity]. cbn. rewrite E. exact IH.
Qed.

Lemma take_plus (a b : nat) (s : list N) :
  take (a + b) s = take a s ++ take b (drop a s).
Proof.
  revert s. induction a as [|a IH]; intros s; [reflexivity|].
  destruct s as [|c s]; [destruct b; reflexivity|].
  cbn. f_equal. apply IH.
Qed.

Lemma starts_with_ci_take p : forall s,
  starts_with_ci p s = true ->
  forallb (fun c => existsb (fun q => to_lower_ascii q =? to_lower_ascii c) p)
    (take (length p) s) = true.
Proof.
  induction p as [|q p IH]; intros s H; [reflexivity|].
  destruct s as [|x s]; [discriminate|].
  cbn [starts_with_ci] in H. apply andb_true_iff in H. destruct H as [Hq H].
  cbn [length take forallb existsb]. rewrite Hq. cbn [orb andb].
  generalize (IH s H). apply forallb_weaken. intros c Hc. rewrite Hc.
  apply orb_true_r.
Qed.

Lemma starts_with_take p : forall s,
  starts_with p s = true -> take (length p) s = p.
Proof.
  induction p as [|q p IH]; intros s H; [reflexivity|].
  destruct s as [|x s]; [discriminate|].
  cbn [starts_with] in H. apply andb_true_iff in H. destruct H as [Hq H].
  apply N.eqb_eq in Hq. subst x. cbn. f_equal. apply IH, H.
Qed.

Lemma fence_covers s n : fence s = Some n -> forallb fence_char (take n s) = true.
Proof.
  unfold fence. destruct (starts_with (js "```") s) eqn:E; [|discriminate].
  intros H. replace n with (3 + span_length is_whitespace (drop 3 s))%nat
    by congruence.
  clear H. rewrite take_plus, forallb_app.
  change 3%nat with (length (js "```")) at 1. rewrite (starts_with_take _ _ E).
  cbn [js forallb andb]. change (fence_char (N_of_ascii "`")) with true. cbn [andb].
  generalize (span_length_take is_whitespace (drop 3 s)).
  apply forallb_weaken. intros c Hc. unfold fence_char. rewrite Hc.
  apply orb_true_r.
Qed.

Lemma fence_json_covers s n :
  fence_json s = Some n -> forallb fence_char (take n s) = true.
Proof.
  unfold fence_json. destruct (starts_with_ci (js "```json") s) eqn:E; [|discriminate].
  intros H. replace n with (7 + span_length is_whitespace (drop 7 s))%nat
    by congruence.
  clear H. rewrite take_plus, forallb_app.
  apply andb_true_iff. split.
  - generalize (starts_with_ci_take _ _ E). apply forallb_weaken.
    intros c Hc. unfold fence_char. rewrite Hc. reflexivity.
  - generalize (span_length_take is_whitespace (drop 7 s)).
    apply forallb_weaken. intros c Hc. unfold fence_char. rewrite Hc.
    apply orb_true_r.
Qed.

(** With an empty replacement, a character that no match covers
    stays. *)
Lemma replace_all_keeps m (Q : N -> bool) x :
  (forall s n, m s = Some n -> forallb Q (take n s) = true) -> Q x = false ->
  forall n s, (length s <= n)%nat -> In x s -> In x (replace_all m [] s).
Proof.
  intros Hm Hx. induction n as [|n IH]; intros s Hn Hin.
  - destruct s; [contradiction|cbn in Hn; lia].
  - destruct s as [|c rest]; [contradiction|]. cbn [length] in Hn.
    destruct (m (c :: rest)) as [[|k]|] eqn:E.
    + rewrite replace_all_keep by (intros k; rewrite E; discriminate).
      destruct Hin as [->|Hin]; [left; reflexivity|right; apply IH; [lia|exact Hin]].
    + rewrite (replace_all_match m [] c rest k E). cbn [app].
      pose proof (Hm _ _ E) as Hcov. cbn [take forallb] in Hcov.
      apply andb_true_iff in Hcov. destruct Hcov as [Hc Hcov].
      apply IH; [rewrite length_drop; lia|].
      destruct Hin as [->|Hin]; [congruence|].
      rewrite <- (take_drop k rest) in Hin. apply in_app_or in Hin.
      destruct Hin as [Hin|Hin]; [|exact Hin].
      pose proof (forallb_In _ _ _ Hcov Hin). congruence.
    + rewrite replace_all_keep by (intros k; rewrite E; discriminate).
      destruct Hin as [->|Hin]; [left; reflexivity|right; apply IH; [lia|exact Hin]].
Qed.

Lemma strip_fences_keeps x text :
  fence_char x = false -> In x text -> In x (strip_fences text).
Proof.
  intros Hx Hin. unfold strip_fences.
  apply (replace_all_keeps fence fence_char x fence_covers Hx
           (length (replace_all fence_json [] text))); [lia|].
  apply (replace_all_keeps fence_json fence_char x fence_json_covers Hx
           (length text)); [lia|exact Hin].
Qed.

Lemma cleaned_text_opens text :
  In 91 text \/ In 123 text -> opens_json (cleaned_text text) = true.
Proof.
  intros Hin. unfold cleaned_text.
  apply trim_opens, strip_tags_opens, fix_entities_opens, cut_after_json_opens,
    cut_before_json_opens.
  destruct Hin as [H|H]; [left|right]; apply strip_fences_keeps;
    try exact H; reflexivity.
Qed.

Lemma parse_elements_array f : forall s acc v r,
  parse_elements f s acc = POk (v, r) -> is_container v = true.
Proof.
  induction f as [|f IH]; intros s acc v r; [discriminate|].
  cbn [parse_elements].
  destruct (parse_value f s) as [[v0 r0]| |]; try discriminate.
  destruct (skip_ws r0) as [|d r']; [discriminate|].
  destruct (d =? 44); [apply IH|].
  destruct (d =? 93); [|discriminate]. intros [= <- _]. reflexivity.
Qed.

Lemma parse_members_object f : forall s acc v r,
  parse_members f s acc = POk (v, r) -> is_container v = true.
Proof.
  induction f as [|f IH]; intros s acc v r; [discriminate|].
  cbn [parse_members].
  destruct s as [|q s']; [discriminate|].
  destruct (q =? 34); [|discriminate].
  destruct (parse_string_body s' []) as [[key r1]|]; [|discriminate].
  destruct (skip_ws r1) as [|col r2]; [discriminate|].
  destruct (col =? 58); [|discriminate].
  destruct (parse_value f (skip_ws r2)) as [[v0 r3]| |]; try discriminate.
  destruct (skip_ws r3) as [|d r4]; [discriminate|].
  destruct (d =? 44); [apply IH|].
  destruct (d =? 125); [|discriminate]. intros [= <- _]. reflexivity.
Qed.

Lemma JSON_parse_container text v :
  opens_json text = true -> JSON_parse text = POk v -> is_container v = true.
Proof.
  intros Ho. destruct (opens_json_head text Ho) as (c & rest & -> & Hc).
  unfold JSON_parse.
  assert (Hws : skip_ws (c :: rest) = c :: rest).
  { apply JsonFacts.drop_while_stop. destruct Hc as [-> | ->]; reflexivity. }
  rewrite Hws.
  destruct (parse_value (2 * length (c :: rest) + 2) (c :: rest))
    as [[v0 r0]| |] eqn:E; try discriminate.
  destruct (skip_ws r0); [|discriminate]. intros [= <-].
  revert E. replace (2 * length (c :: rest) + 2)%nat
    with (S (2 * length (c :: rest) + 1)) by lia.
  cbn [parse_value].
  destruct Hc as [-> | ->].
  - change (91 =? 123) with false. change (91 =? 91) with true. cbv iota.
    destruct (skip_ws rest) as [|d r']; [discriminate|].
    destruct (d =? 93); [intros [= <- _]; reflexivity|].
    apply parse_elements_array.
  - change (123 =? 123) with true. cbv iota.
    destruct (skip_ws rest) as [|d r']; [discriminate|].
    destruct (d =? 125); [intros [= <- _]; reflexivity|].
    apply parse_members_object.
Qed.

(** X5.  When the text has an opening bracket or brace somewhere, whatever
    [cleanJsonResponse] returns begins with one and is a JSON array or
    object: a text before the first bracket never comes back, and no bare
    string or number is returned. *)
Theorem bracketed_text_yields_container (text cleaned : list N)
    (Hbracket : In 91 text \/ In 123 text)
    (Hreturn : cleanJsonResponse text = Some (Return cleaned)) :
  opens_json cleaned = true /\
  exists v, JSON_parse cleaned = POk v /\ is_container v = true.
Proof.
  unfold cleanJsonResponse in Hreturn.
  destruct (JSON_parse (cleaned_text text)) as [v| |] eqn:E; try discriminate.
  injection Hreturn as <-.
  pose proof (cleaned_text_opens text Hbracket) as Ho.
  split; [exact Ho|]. exists v. split; [exact E|].
  apply (JSON_parse_container _ v Ho E).
Qed.

Lemma bracketed_text_yields_container_witness :
  opens_json (jq "{'a':[1]}") = true /\
  exists v, JSON_parse (jq "{'a':[1]}") = POk v /\ is_container v = true.
Proof.
  apply (bracketed_text_yields_container (jq "Result {'a':[1]} follows")).
  - right. vm_compute. tauto.
  - vm_compute. reflexivity.
Defined.

End CleanOutput.

(** ** [validateMCQs] *)

Module ValidateFacts.

Import Validate.

Section Values.

Context {number : Type} (same_number : number -> number -> bool).

Lemma check_fields_passes i (mcq : value number) fields :
  check_fields i mcq fields = Return tt <->
  (fields = [] \/
   exists identity members, mcq = VObject identity members /\
     forall field, In field fields -> has_key members field = true).
Proof.
  induction fields as [|f rest IH].
  - split; [left; reflexivity|reflexivity].
  - cbn [check_fields]. split.
    + intros H. right. destruct mcq as [| | | | | a l | a members]; try discriminate.
      cbn [has_field] in H. destruct (has_key members f) eqn:Ef; [|discriminate].
      exists a, members. split; [reflexivity|].
      intros field [<-|Hin]; [exact Ef|].
      apply IH in H. destruct H as [->|(a' & m' & [= <- <-] & H)];
        [contradiction|apply H, Hin].
    + intros [H|(a & members & -> & H)]; [discriminate|].
      cbn [has_field]. rewrite (H f) by (left; reflexivity).
      apply IH. destruct rest as [|g rest']; [left; reflexivity|].
      right. exists a, members. split; [reflexivity|].
      intros field Hin. apply H. right. exact Hin.
Qed.

(** One pass of the loop body succeeds exactly on a well-formed MCQ. *)
Lemma check_mcq_passes i (mcq : value number) :
  check_mcq same_number i mcq = Return tt <-> well_formed same_number mcq.
Proof.
  unfold check_mcq, well_formed. split.
  - destruct (check_fields i mcq requiredFields) as [[]|e] eqn:Ef; [|discriminate].
    apply check_fields_passes in Ef.
    destruct Ef as [Ef|(a & members & -> & Hf)]; [discriminate|].
    destruct (get (VObject a members) (js "options"))
      as [| | | | | b options | b m] eqn:Eo; try discriminate.
    destruct (Nat.eqb_spec (length options) 4) as [El|El]; [|discriminate].
    cbn [negb].
    destruct (includes same_number options (get (VObject a members) (js "correct")))
      eqn:Ei; [|discriminate].
    intros _. exists a, members, b, options.
    repeat split; try assumption.
    unfold includes in Ei. apply existsb_exists in Ei. exact Ei.
  - intros (a & members & b & options & -> & Hf & Eo & El & Hin).
    assert (Ef : check_fields i (VObject a members) requiredFields = Return tt).
    { apply check_fields_passes. right. exists a, members.
      split; [reflexivity|exact Hf]. }
    rewrite Ef, Eo, El. cbn [Nat.eqb negb].
    assert (Ei : includes same_number options (get (VObject a members) (js "correct"))
                 = true).
    { unfold includes. apply existsb_exists. exact Hin. }
    rewrite Ei. reflexivity.
Qed.


Lemma check_from_passes (mcqs : list (value number)) : forall i,
  check_from same_number i mcqs = Return true
  <-> Forall (well_formed same_number) mcqs.
Proof.
  induction mcqs as [|mcq rest IH]; intros i; cbn [check_from].
  - split; [constructor|reflexivity].
  - destruct (check_mcq same_number i mcq) as [[]|e] eqn:E.
    + rewrite IH. split.
      * intros H. constructor; [apply (check_mcq_passes i), E|exact H].
      * intros H. inversion H. assumption.
    + split; [discriminate|]. intros H. inversion H as [|? ? Hw _]. subst.
      apply (check_mcq_passes i) in Hw. congruence.
Qed.

Lemma check_from_true (mcqs : list (value number)) : forall i b,
  check_from same_number i mcqs = Return b -> b = true.
Proof.
  induction mcqs as [|mcq rest IH]; intros i b; cbn [check_from].
  - intros [= <-]. reflexivity.
  - destruct (check_mcq same_number i mcq); [apply IH|discriminate].
Qed.


(** X6.  [validateMCQs] returns [true] exactly on an array whose elements are
    all well-formed MCQs, and it returns nothing else: the empty array
    passes, and everything that does not pass is answered with an
    exception. *)
Theorem validateMCQs_accepts_well_formed_arrays (mcqs : value number) :
  (validateMCQs same_number mcqs = Return true <->
   exists identity elements,
     mcqs = VArray identity elements
     /\ Forall (well_formed same_number) elements) /\
  validateMCQs same_number mcqs <> Return false.
Proof.
  split.
  - split.
    + destruct mcqs as [| | | | | a l | a m]; try discriminate.
      cbn [validateMCQs]. intros H. exists a, l. split; [reflexivity|].
      apply (check_from_passes l 0), H.
    + intros (a & l & -> & H). cbn [validateMCQs]. apply check_from_passes, H.
  - destruct mcqs as [| | | | | a l | a m]; try discriminate.
    cbn [validateMCQs]. intros H. apply check_from_true in H. discriminate.
Qed.


End Values.


End ValidateFacts.

(** ** [waitForResponse]: what it returns *)

Module ExtractionFacts.

Import Detector.

Lemma drop_while_fixed f (s : list N) :
  drop_while f (drop_while f s) = drop_while f s.
Proof.
  destruct (drop_while f s) as [|c r] eqn:E; [reflexivity|].
  apply JsonFacts.drop_while_stop. apply (JsonFacts.drop_while_head f s c r E).
Qed.

(** [trim] leaves nothing to trim. *)
Lemma trim_trim (s : list N) : trim (trim s) = trim s.
Proof.
  unfold trim.
  set (A := drop_while is_whitespace s).
  set (B := drop_while is_whitespace (rev A)).
  assert (HB : drop_while is_whitespace B = B) by apply drop_while_fixed.
  assert (HA : drop_while is_whitespace A = A) by apply drop_while_fixed.
  assert (Hfront : drop_while is_whitespace (rev B) = rev B).
  { destruct (JsonFacts.drop_while_split is_whitespace (rev A)) as (pre & E & _).
    fold B in E. apply (f_equal (@rev N)) in E.
    rewrite rev_involutive, rev_app_distr in E.
    destruct (rev B) as [|x t] eqn:Er; [reflexivity|].
    apply JsonFacts.drop_while_stop.
    apply (JsonFacts.drop_while_head is_whitespace A x (t ++ rev pre)).
    rewrite HA, E. reflexivity. }
  rewrite Hfront, rev_involutive, HB. reflexivity.
Qed.

Lemma extract_trimmed el : trim (extract el) = extract el.
Proof.
  unfold extract.
  destruct (codeBlock el) as [t|]; [destruct (long_enough (trim t))|];
    try apply trim_trim;
    (destruct (markdown el) as [md|]; [destruct (long_enough (trim md))|]);
    apply trim_trim.
Qed.

Lemma extract_recovery_trimmed el : trim (extract_recovery el) = extract_recovery el.
Proof.
  unfold extract_recovery.
  destruct (codeBlock el) as [t|]; [destruct (long_enough (trim t))|];
    try apply trim_trim;
    destruct (markdown el) as [md|]; apply trim_trim.
Qed.

(** X8.  A text that [waitForResponse] returns has at least 50 characters and
    no white space at either end, on the main path and on the recovery
    path alike.  The test [response.length < 50] that [sendToGemini]
    applies to the value is therefore never true of it. *)
Theorem returned_response_is_long_and_trimmed (timeoutMs : Z) (run : page_run)
    (text : list N)
    (Hreturn : waitForResponse timeoutMs run = Some (Return text)) :
  (50 <= length text)%nat /\ (length text <? 50)%nat = false /\ trim text = text.
Proof.
  assert (H : (50 <= length text)%nat /\ trim text = text).
  { unfold waitForResponse in Hreturn.
    destruct (try_block timeoutMs run) as [[t|error]|] eqn:Etry; try discriminate.
    - injection Hreturn as ->. unfold try_block in Etry.
      destruct (negb (selector_appears run)); [discriminate|].
      destruct (messages_at_start run =? 0)%nat; [discriminate|].
      destruct (monitor_loop _ _ _) as [m|g]; [discriminate|].
      injection Etry as Etry. unfold extract_after_detection in Etry.
      destruct (last (messages_after run)) as [el|]; [|discriminate].
      destruct (Nat.ltb_spec (length (extract el)) 50); [discriminate|].
      injection Etry as <-. split; [assumption|apply extract_trimmed].
    - injection Hreturn as Hrec. unfold recover in Hrec.
      destruct (messages_recovery run) as [ms|]; [|discriminate].
      destruct (last ms) as [el|]; [|discriminate].
      unfold long_enough in Hrec.
      destruct (Nat.ltb_spec 50 (length (extract_recovery el))); [|discriminate].
      injection Hrec as <-. split; [lia|apply extract_recovery_trimmed]. }
  destruct H as [Hlen Htrim]. split; [exact Hlen|]. split; [|exact Htrim].
  apply Nat.ltb_ge, Hlen.
Qed.

Lemma returned_response_is_long_and_trimmed_witness :
  (50 <= length (long_text 60))%nat /\ (length (long_text 60) <? 50)%nat = false
  /\ trim (long_text 60) = long_text 60.
Proof.
  apply (returned_response_is_long_and_trimmed 180000 (stalled_run 60)).
  vm_compute. reflexivity.
Defined.

(** When the main extraction comes out too short, the recovery
    extraction of the same element is not long enough either. *)
Lemma short_extraction_stays_short el :
  (length (extract el) < 50)%nat -> long_enough (extract_recovery el) = false.
Proof.
  unfold extract, extract_recovery, long_enough. intros H.
  apply Nat.ltb_ge.
  destruct (codeBlock el) as [t|].
  - destruct (Nat.ltb_spec 50 (length (trim t))); [lia|].
    destruct (markdown el) as [md|]; [|lia].
    destruct (Nat.ltb_spec 50 (length (trim md))); lia.
  - destruct (markdown el) as [md|]; [|lia].
    destruct (Nat.ltb_spec 50 (length (trim md))); lia.
Qed.

(** X9.  The recovery path cannot rescue a response that is too short unless
    the page changes: when the extraction fails with fewer than 50
    characters and the recovery, two seconds later, finds the same
    messages, [waitForResponse] throws [Failed to get response] with the
    too-short error as its cause. *)
Theorem unchanged_page_is_not_recovered (timeoutMs : Z) (run : page_run) (n : nat)
    (Hshort : try_block timeoutMs run = Some (Throw (ResponseTooShort n)))
    (Hsame : messages_recovery run = Some (messages_after run)) :
  waitForResponse timeoutMs run
  = Some (Throw (FailedToGetResponse (ResponseTooShort n))).
Proof.
  unfold waitForResponse. rewrite Hshort, Hsame. f_equal.
  unfold try_block in Hshort.
  destruct (negb (selector_appears run)); [discriminate|].
  destruct (messages_at_start run =? 0)%nat; [discriminate|].
  destruct (monitor_loop _ _ _) as [m|g]; [discriminate|].
  injection Hshort as Hshort. unfold extract_after_detection in Hshort.
  unfold recover.
  destruct (last (messages_after run)) as [el|]; [|discriminate].
  destruct (Nat.ltb_spec (length (extract el)) 50) as [Hlen|Hlen]; [|discriminate].
  rewrite (short_extraction_stays_short el Hlen). reflexivity.
Qed.

Lemma unchanged_page_is_not_recovered_witness :
  waitForResponse 180000
    {| selector_appears := true; evaluate_now := 0; messages_at_start := 1;
       events := events (stalled_run 10);
       messages_after := messages_after (stalled_run 10);
       messages_recovery := Some (messages_after (stalled_run 10)) |}
  = Some (Throw (FailedToGetResponse (ResponseTooShort 10))).
Proof.
  apply unchanged_page_is_not_recovered; vm_compute; reflexivity.
Defined.

End ExtractionFacts.

(** ** [generateCacheKey] *)

Module FingerprintFacts.

Import Fingerprint.

Local Open Scope N_scope.

Lemma bytes_le_bytes n : forall w,
  length (MD5.bytes_le n w) = n
  /\ Forall (fun b => b < 256) (MD5.bytes_le n w).
Proof.
  induction n as [|n IH]; intros w; cbn [MD5.bytes_le].
  - split; [reflexivity|constructor].
  - destruct (IH (w / 256)) as [Hl Hb]. split; [cbn; rewrite Hl; reflexivity|].
    constructor; [apply N.mod_lt; discriminate|exact Hb].
Qed.

Lemma digest_bytes msg :
  length (MD5.digest msg) = 16%nat /\ Forall (fun b => b < 256) (MD5.digest msg).
Proof.
  unfold MD5.digest.
  destruct (MD5.md5_blocks _ _ _) as [[[a b] c] d].
  destruct (bytes_le_bytes 4 a) as [La Ba]. destruct (bytes_le_bytes 4 b) as [Lb Bb].
  destruct (bytes_le_bytes 4 c) as [Lc Bc]. destruct (bytes_le_bytes 4 d) as [Ld Bd].
  split.
  - rewrite !length_app, La, Lb, Lc, Ld. reflexivity.
  - repeat (apply Forall_app; split); assumption.
Qed.

Lemma hex_digit_hex n : n < 16 -> is_lower_hex (MD5.hex_digit n) = true.
Proof.
  intros H. unfold MD5.hex_digit, is_lower_hex.
  destruct (N.ltb_spec n 10).
  - apply orb_true_iff. left. apply andb_true_iff. split; apply N.leb_le; lia.
  - apply orb_true_iff. right. apply andb_true_iff. split; apply N.leb_le; lia.
Qed.

Lemma hex_shape bytes :
  Forall (fun b => b < 256) bytes ->
  length (MD5.hex bytes) = (2 * length bytes)%nat
  /\ forallb is_lower_hex (MD5.hex bytes) = true.
Proof.
  unfold MD5.hex. induction bytes as [|b bytes IH]; intros H; [split; reflexivity|].
  inversion H as [|? ? Hb Hrest]. subst. destruct (IH Hrest) as [Hl Hh].
  cbn [flat_map app length forallb]. split; [rewrite Hl; lia|].
  rewrite Hh, !hex_digit_hex; [reflexivity| |].
  - apply N.mod_lt. discriminate.
  - apply N.Div0.div_lt_upper_bound. exact Hb.
Qed.

(** X10.  The fingerprint of every text, the empty text and texts with
    unpaired surrogates included, is a string of 32 characters, each a
    digit or a letter from [a] to [f]. *)
Theorem fingerprint_is_32_hex_characters (text : list N) :
  length (generateCacheKey text) = 32%nat /\
  forallb is_lower_hex (generateCacheKey text) = true.
Proof.
  unfold generateCacheKey.
  destruct (digest_bytes (MD5.utf8 text)) as [Hl Hb].
  destruct (hex_shape _ Hb) as [Hlen Hhex].
  split; [rewrite Hlen, Hl; reflexivity|exact Hhex].
Qed.

End FingerprintFacts.

(** ** The coordinator: what holds in every state it can reach *)

Module ReachFacts.

Import Server Reach.
Local Open Scope Z_scope.

#[local] Arguments generateCacheKey : simpl never.
#[local] Arguments cleanCache : simpl never.

Lemma run_invariant (P : state -> Prop) :
  (forall st ev, P st -> P (step st ev)) ->
  forall tr st, P st -> P (run st tr).
Proof.
  intros Hstep. induction tr as [|ev tr IH]; intros st H; [exact H|].
  cbn [run fold_left]. fold (run (step st ev) tr). apply IH, Hstep, H.
Qed.

(** *** How one step changes the list of calls *)

Lemma await_active_calls st p :
  exists c, calls (await_active st p) = calls st ++ [c]
            /\ c <> Refused NOT_INITIALIZED.
Proof.
  unfold await_active.
  destruct (phase_of st p) as [[| |e u|r|e]|];
    eexists; (split; [reflexivity|discriminate]).
Qed.

Lemma sendToGemini_calls st t sp d now :
  exists c, calls (sendToGemini st t sp d now) = calls st ++ [c]
            /\ c <> Refused NOT_INITIALIZED.
Proof.
  unfold sendToGemini. cbn.
  destruct (cleanCache now (responseCache st) !! generateCacheKey t).
  - eexists. split; [reflexivity|discriminate].
  - destruct (activeRequest st) as [q|].
    + destruct (decide _).
      * apply (await_active_calls (set_cache st _) q).
      * eexists. split; [reflexivity|discriminate].
    + eexists. split; [reflexivity|discriminate].
Qed.

Lemma generate_mcqs_calls st b now :
  exists c, calls (generate_mcqs st b now) = calls st ++ [c]
            /\ (c = Refused NOT_INITIALIZED -> isInitialized st = false).
Proof.
  unfold generate_mcqs.
  destruct (text b) as [[|c0 t]|].
  - eexists. split; [reflexivity|discriminate].
  - destruct (isInitialized st) eqn:Ei; cbn [negb].
    + destruct (isPaused st).
      * eexists. split; [reflexivity|discriminate].
      * destruct (sendToGemini_calls st (c0 :: t)
                    (if decide (string_or (content_type b) (js "mcq")
                                = js "short_notes")
                     then ShortNotesPrompt (number_or (expected_mcqs b) 10)
                     else McqPrompt (number_or (expected_mcqs b) 10))
                    (number_or (dom_delay_seconds b) 1 * 1000) now)
          as (c & Hc & Hne).
        exists c. split; [exact Hc|]. intros E. contradiction.
    + eexists. split; [reflexivity|reflexivity].
  - eexists. split; [reflexivity|discriminate].
Qed.




(** *** Pause and resume *)

Lemma await_active_pause st p :
  isPaused (await_active st p) = isPaused st
  /\ pauseTimestamp (await_active st p) = pauseTimestamp st.
Proof.
  unfold await_active.
  destruct (phase_of st p) as [[| |e u|r|e]|]; split; reflexivity.
Qed.

Lemma step_pause st ev :
  match ev with
  | Pause _ | Resume _ => True
  | _ => isPaused (step st ev) = isPaused st
         /\ pauseTimestamp (step st ev) = pauseTimestamp st
  end.
Proof.
  destruct ev as [bd now|now|now| |p|p now|p o now|p now|c now]; cbn [step].
  - unfold generate_mcqs.
    destruct (text bd) as [[|c0 t]|]; try (split; reflexivity).
    destruct (negb (isInitialized st)); [split; reflexivity|].
    destruct (isPaused st) eqn:E; [split; [exact E|reflexivity]|].
    unfold sendToGemini. cbn.
    destruct (cleanCache now (responseCache st) !! _); [split; [exact E|reflexivity]|].
    destruct (activeRequest st) as [q|]; [|split; [exact E|reflexivity]].
    destruct (decide _); [|split; [exact E|reflexivity]].
    destruct (await_active_pause (set_cache st (cleanCache now (responseCache st))) q)
      as [H1 H2].
    rewrite H1, H2. split; [exact E|reflexivity].
  - exact I.
  - exact I.
  - destruct (isInitialized st); split; reflexivity.
  - destruct (exchanges st !! p) as [ex|]; [|split; reflexivity].
    destruct (ex_phase ex); split; reflexivity.
  - destruct (phase_of st p) as [[| |e until|r|e]|]; split; reflexivity.
  - destruct (exchanges st !! p) as [ex|]; [|split; reflexivity].
    destruct (ex_phase ex); try (split; reflexivity).
    destruct o as [r|e]; [|split; reflexivity].
    destruct (length r <? 50)%nat; [split; reflexivity|].
    destruct (ServerFacts.settle_flags
                (set_cache (set_phase st p (Fulfilled r))
                   (<[ex_key ex:={| response := r; timestamp := now |}]>
                      (responseCache st))) p (Return r) now) as (_ & H1 & H2).
    rewrite H1, H2. split; reflexivity.
  - destruct (phase_of st p) as [[| |e until|r|e]|]; try (split; reflexivity).
    destruct (until <=? now); [|split; reflexivity].
    destruct (ServerFacts.settle_flags (set_phase st p (Rejected e)) p (Throw e) now)
      as (_ & H1 & H2).
    rewrite H1, H2. split; reflexivity.
  - destruct (calls st !! c) as [[why|q|q key|r until key|fin]|];
      try (split; reflexivity).
    destruct (until <=? now); [|split; reflexivity].
    destruct (decide _); split; reflexivity.
Qed.

Lemma step_pause_paired st ev : pause_paired st -> pause_paired (step st ev).
Proof.
  unfold pause_paired. intros H. pose proof (step_pause st ev) as H0.
  destruct ev as [bd now|now|now| |p|p now|p o now|p now|c now].
  1,4-9: destruct H0 as [H1 H2]; rewrite H1, H2; exact H.
  - cbn [step]. destruct (isPaused st) eqn:E; [rewrite E; exact H|].
    cbn. split; discriminate.
  - cbn [step]. destruct (isPaused st) eqn:E; [|rewrite E; exact H].
    cbn. split; reflexivity.
Qed.

Lemma state_eq (a b : state) :
  isInitialized a = isInitialized b -> isPaused a = isPaused b ->
  pauseTimestamp a = pauseTimestamp b -> responseCache a = responseCache b ->
  activeRequest a = activeRequest b -> activeRequestText a = activeRequestText b ->
  exchanges a = exchanges b -> calls a = calls b -> page_input a = page_input b ->
  a = b.
Proof. destruct a, b. cbn. intros. subst. reflexivity. Qed.

(** X12.  While the server is not paused, a pause followed by a resume leaves
    every variable of the coordinator as it was, and a second pause in
    between changes nothing: the time of the first pause is kept. *)
Theorem pause_then_resume_restores (tr : list event) (t1 t2 t3 : Z)
    (Hrunning : isPaused (run initial tr) = false) :
  let st := run initial tr in
  pauseTimestamp st = None /\
  pauseTimestamp (step st (Pause t1)) = Some t1 /\
  step (step st (Pause t1)) (Pause t2) = step st (Pause t1) /\
  step (step st (Pause t1)) (Resume t3) = st.
Proof.
  intros st.
  assert (Hpair : pause_paired st).
  { apply (run_invariant pause_paired step_pause_paired). split; reflexivity. }
  assert (Hnone : pauseTimestamp st = None) by (apply Hpair, Hrunning).
  fold st in Hrunning. cbn [step]. rewrite Hrunning. cbn.
  repeat split; try assumption.
  apply state_eq; cbn; congruence.
Qed.

Lemma pause_then_resume_restores_witness :
  step (step waiting_state (Pause 10)) (Resume 20) = waiting_state.
Proof.
  apply (pause_then_resume_restores
           [GenerateMcqs (request (js "a") (js "mcq")) 0; PromptSent 0] 10 15 20).
  reflexivity.
Defined.

(** *** The cache *)

(** X13.  Cleaning the cache at two times amounts to cleaning it at the later
    one: it makes no difference how often [cleanCache] has run before. *)
Theorem cleanCache_later_subsumes (earlier later : Z)
    (cache : gmap (list N) cache_entry) (Horder : earlier <= later) :
  cleanCache later (cleanCache earlier cache) = cleanCache later cache.
Proof.
  apply map_eq. intros k. rewrite !ServerFacts.cleanCache_lookup.
  destruct (cache !! k) as [e|]; [|reflexivity].
  destruct (decide (earlier - timestamp e > CACHE_EXPIRY_MS)) as [H1|H1].
  - destruct (decide (later - timestamp e > CACHE_EXPIRY_MS)); [reflexivity|lia].
  - reflexivity.
Qed.

Lemma cleanCache_later_subsumes_witness :
  cleanCache 400000 (cleanCache 1000 (responseCache served_state))
  = cleanCache 400000 (responseCache served_state).
Proof. apply cleanCache_later_subsumes. lia. Defined.

Lemma cleanCache_sub (now : Z) (cache : gmap (list N) cache_entry) k e :
  cleanCache now cache !! k = Some e -> cache !! k = Some e.
Proof.
  rewrite ServerFacts.cleanCache_lookup.
  destruct (cache !! k) as [e0|]; [|discriminate].
  destruct (decide _); [discriminate|]. intros H. exact H.
Qed.

Lemma cache_sound_weaken st st' :
  (forall k e, responseCache st' !! k = Some e -> responseCache st !! k = Some e) ->
  (forall p ex, exchanges st !! p = Some ex -> exchanges st' !! p = Some ex) ->
  cache_sound st -> cache_sound st'.
Proof.
  intros Hc Hx H k e Hk.
  destruct (H k e (Hc k e Hk)) as (Hlen & p & ex & Hp & Hkey & Hph).
  split; [exact Hlen|]. exists p, ex. split; [apply Hx, Hp|]. split; assumption.
Qed.

Lemma cache_sound_fields st st' :
  responseCache st' = responseCache st -> exchanges st' = exchanges st ->
  cache_sound st -> cache_sound st'.
Proof.
  intros Hc Hx. apply cache_sound_weaken.
  - intros k e. rewrite Hc. trivial.
  - intros p ex. rewrite Hx. trivial.
Qed.

Lemma set_phase_lookup_ne st p ph q :
  q <> p -> exchanges (set_phase st p ph) !! q = exchanges st !! q.
Proof.
  intros H. unfold set_phase. cbn [exchanges set_exchanges].
  apply list_lookup_alter_ne. congruence.
Qed.

Lemma set_phase_lookup st p ph ex :
  exchanges st !! p = Some ex ->
  exchanges (set_phase st p ph) !! p
  = Some {| ex_key := ex_key ex; ex_prompt := ex_prompt ex;
            ex_domDelayMs := ex_domDelayMs ex; ex_phase := ph |}.
Proof.
  intros H. unfold set_phase. cbn [exchanges set_exchanges].
  rewrite list_lookup_alter_eq, H. reflexivity.
Qed.

(** A phase change of an exchange that is not fulfilled leaves the
    cache sound. *)
Lemma cache_sound_set_phase st p ph :
  (forall ex r, exchanges st !! p = Some ex -> ex_phase ex <> Fulfilled r) ->
  cache_sound st -> cache_sound (set_phase st p ph).
Proof.
  intros Hp H k e Hk. destruct (H k e Hk) as (Hlen & q & ex & Hq & Hkey & Hph).
  split; [exact Hlen|]. exists q, ex.
  split; [|split; assumption].
  rewrite set_phase_lookup_ne; [exact Hq|].
  intros ->. apply (Hp ex (response e) Hq Hph).
Qed.

Lemma phase_of_lookup st p ph :
  phase_of st p = Some ph -> exists ex, exchanges st !! p = Some ex /\ ex_phase ex = ph.
Proof.
  unfold phase_of. destruct (exchanges st !! p) as [ex|]; [|discriminate].
  cbn. intros [= <-]. exists ex. split; reflexivity.
Qed.

Lemma await_active_fields st p :
  responseCache (await_active st p) = responseCache st
  /\ exchanges (await_active st p) = exchanges st
  /\ page_input (await_active st p) = page_input st.
Proof.
  unfold await_active.
  destruct (phase_of st p) as [[| |e u|r|e]|]; repeat split; reflexivity.
Qed.

Lemma sendToGemini_fields st t sp d now :
  responseCache (sendToGemini st t sp d now) = cleanCache now (responseCache st)
  /\ page_input (sendToGemini st t sp d now) = page_input st
  /\ (exchanges (sendToGemini st t sp d now) = exchanges st
      \/ exists ex, exchanges (sendToGemini st t sp d now) = exchanges st ++ [ex]
                    /\ ex_phase ex = Preparing
                    /\ ex_key ex = generateCacheKey (promptText (ex_prompt ex))).
Proof.
  unfold sendToGemini. cbn.
  destruct (cleanCache now (responseCache st) !! generateCacheKey t).
  - repeat split. left. reflexivity.
  - destruct (activeRequest st) as [q|].
    + destruct (decide _).
      * destruct (await_active_fields
                    (set_cache st (cleanCache now (responseCache st))) q)
          as (H1 & H2 & H3).
        rewrite H1, H2, H3. repeat split. left. reflexivity.
      * repeat split. right. eexists. repeat split; reflexivity.
    + repeat split. right. eexists. repeat split; reflexivity.
Qed.

Lemma generate_mcqs_fields st b now :
  (responseCache (generate_mcqs st b now) = responseCache st
   \/ responseCache (generate_mcqs st b now) = cleanCache now (responseCache st))
  /\ page_input (generate_mcqs st b now) = page_input st
  /\ (exchanges (generate_mcqs st b now) = exchanges st
      \/ exists ex, exchanges (generate_mcqs st b now) = exchanges st ++ [ex]
                    /\ ex_phase ex = Preparing
                    /\ ex_key ex = generateCacheKey (promptText (ex_prompt ex))).
Proof.
  unfold generate_mcqs.
  destruct (text b) as [[|c0 t]|]; try (repeat split; left; reflexivity).
  destruct (negb (isInitialized st)); [repeat split; left; reflexivity|].
  destruct (isPaused st); [repeat split; left; reflexivity|].
  destruct (sendToGemini_fields st (c0 :: t)
              (if decide (string_or (content_type b) (js "mcq") = js "short_notes")
               then ShortNotesPrompt (number_or (expected_mcqs b) 10)
               else McqPrompt (number_or (expected_mcqs b) 10))
              (number_or (dom_delay_seconds b) 1 * 1000) now) as (H1 & H2 & H3).
  split; [right; exact H1|]. split; [exact H2|exact H3].
Qed.

Lemma step_cache_sound st ev : cache_sound st -> cache_sound (step st ev).
Proof.
  intros H.
  destruct ev as [bd now|now|now| |p|p now|p o now|p now|c now]; cbn [step].
  - destruct (generate_mcqs_fields st bd now) as (Hc & _ & Hx).
    revert H. apply cache_sound_weaken.
    + intros k e. destruct Hc as [-> | ->]; [trivial|apply cleanCache_sub].
    + intros q ex Hq. destruct Hx as [-> |(ex' & -> & _ & _)]; [exact Hq|].
      apply lookup_app_l_Some, Hq.
  - destruct (isPaused st); [exact H|].
    revert H. apply cache_sound_fields; reflexivity.
  - destruct (isPaused st); [|exact H].
    revert H. apply cache_sound_fields; reflexivity.
  - destruct (isInitialized st); [|exact H].
    intros k e Hk. cbn in Hk. rewrite lookup_empty in Hk. discriminate.
  - destruct (exchanges st !! p) as [ex|] eqn:Ex; [|exact H].
    destruct (ex_phase ex) eqn:Ep; try exact H.
    apply (cache_sound_fields (set_phase st p AwaitingResponse)); try reflexivity.
    apply cache_sound_set_phase; [|exact H].
    intros ex' r Hex'. rewrite Ex in Hex'. injection Hex' as <-. congruence.
  - destruct (phase_of st p) as [[| |e until|r|e]|] eqn:Ep; try exact H.
    apply phase_of_lookup in Ep. destruct Ep as (ex & Ex & Ep).
    apply cache_sound_set_phase; [|exact H].
    intros ex' r Hex'. rewrite Ex in Hex'. injection Hex' as <-. congruence.
  - destruct (exchanges st !! p) as [ex|] eqn:Ex; [|exact H].
    destruct (ex_phase ex) eqn:Ep; try exact H.
    assert (Hnf : forall ex' r, exchanges st !! p = Some ex' ->
                              ex_phase ex' <> Fulfilled r).
    { intros ex' r Hex'. rewrite Ex in Hex'. injection Hex' as <-. congruence. }
    destruct o as [r|e]; [|apply cache_sound_set_phase; assumption].
    destruct (Nat.ltb_spec (length r) 50) as [Hlen|Hlen];
      [apply cache_sound_set_phase; assumption|].
    eapply cache_sound_fields;
      [apply ServerFacts.settle_cache|apply ServerFacts.settle_exchanges|].
    intros k e Hk. cbn [responseCache set_cache] in Hk.
    destruct (decide (k = ex_key ex)) as [->|Hne].
    + rewrite lookup_insert_eq in Hk. injection Hk as <-. cbn [response].
      split; [exact Hlen|]. eexists p, _.
      split; [apply (set_phase_lookup st p (Fulfilled r) ex Ex)|].
      split; reflexivity.
    + rewrite lookup_insert_ne in Hk by congruence.
      destruct (cache_sound_set_phase st p (Fulfilled r) Hnf H k e Hk)
        as (Hl & q & ex' & Hq & Hkey & Hph).
      split; [exact Hl|]. exists q, ex'. repeat split; assumption.
  - destruct (phase_of st p) as [[| |e until|r|e]|] eqn:Ep; try exact H.
    destruct (until <=? now); [|exact H].
    apply phase_of_lookup in Ep. destruct Ep as (ex & Ex & Ep).
    eapply cache_sound_fields;
      [apply ServerFacts.settle_cache|apply ServerFacts.settle_exchanges|].
    apply cache_sound_set_phase; [|exact H].
    intros ex' r Hex'. rewrite Ex in Hex'. injection Hex' as <-. congruence.
  - destruct (calls st !! c) as [[why|q|q key|r until key|fin]|]; try exact H.
    destruct (until <=? now); [|exact H].
    revert H. apply cache_sound_fields; destruct (decide _); reflexivity.
Qed.

(** *** How one step changes the list of exchanges *)

Lemma step_exchanges st ev :
  exchanges (step st ev) = exchanges st
  \/ (exists ex, exchanges (step st ev) = exchanges st ++ [ex]
                 /\ ex_phase ex = Preparing
                 /\ ex_key ex = generateCacheKey (promptText (ex_prompt ex)))
  \/ (exists p ph ex, exchanges (step st ev) = exchanges (set_phase st p ph)
                      /\ exchanges st !! p = Some ex
                      /\ in_flight (ex_phase ex) = true).
Proof.
  destruct ev as [bd now|now|now| |p|p now|p o now|p now|c now]; cbn [step].
  - destruct (generate_mcqs_fields st bd now) as (_ & _ & [H|H]);
      [left; exact H|right; left; exact H].
  - left. destruct (isPaused st); reflexivity.
  - left. destruct (isPaused st); reflexivity.
  - left. destruct (isInitialized st); reflexivity.
  - destruct (exchanges st !! p) as [ex|] eqn:Ex; [|left; reflexivity].
    destruct (ex_phase ex) eqn:Ep; try (left; reflexivity).
    right. right. exists p, AwaitingResponse, ex.
    split; [reflexivity|]. split; [exact Ex|]. rewrite Ep. reflexivity.
  - destruct (phase_of st p) as [[| |e until|r|e]|] eqn:Ep; try (left; reflexivity).
    apply phase_of_lookup in Ep. destruct Ep as (ex & Ex & Ep).
    right. right. exists p, (ErrorDelay PageError (now + ERROR_DELAY_MS)), ex.
    split; [reflexivity|]. split; [exact Ex|]. rewrite Ep. reflexivity.
  - destruct (exchanges st !! p) as [ex|] eqn:Ex; [|left; reflexivity].
    destruct (ex_phase ex) eqn:Ep; try (left; reflexivity).
    assert (Hin : in_flight (ex_phase ex) = true) by (rewrite Ep; reflexivity).
    right. right. destruct o as [r|e].
    + destruct (length r <? 50)%nat.
      * eexists p, _, ex. split; [reflexivity|]. split; [exact Ex|exact Hin].
      * exists p, (Fulfilled r), ex.
        split; [rewrite ServerFacts.settle_exchanges; reflexivity|].
        split; [exact Ex|exact Hin].
    + eexists p, _, ex. split; [reflexivity|]. split; [exact Ex|exact Hin].
  - destruct (phase_of st p) as [[| |e until|r|e]|] eqn:Ep; try (left; reflexivity).
    destruct (until <=? now); [|left; reflexivity].
    apply phase_of_lookup in Ep. destruct Ep as (ex & Ex & Ep).
    right. right. exists p, (Rejected e), ex.
    split; [rewrite ServerFacts.settle_exchanges; reflexivity|].
    split; [exact Ex|]. rewrite Ep. reflexivity.
  - left. destruct (calls st !! c) as [[why|q|q key|r until key|fin]|];
      try reflexivity.
    destruct (until <=? now); [|reflexivity].
    destruct (decide _); reflexivity.
Qed.

Lemma step_exchanges_keyed st ev :
  exchanges_keyed st -> exchanges_keyed (step st ev).
Proof.
  intros H q ex' Hq.
  destruct (step_exchanges st ev)
    as [E|[(ex & E & _ & Hkey)|(p & ph & ex & E & Ex & _)]]; rewrite E in Hq.
  - apply (H q ex' Hq).
  - apply lookup_app_Some in Hq. destruct Hq as [Hq|[_ Hq]]; [apply (H q ex' Hq)|].
    destruct (q - length (exchanges st))%nat; [|discriminate].
    injection Hq as <-. exact Hkey.
  - destruct (decide (q = p)) as [->|Hne].
    + rewrite (set_phase_lookup st p ph ex Ex) in Hq. injection Hq as <-.
      cbn. apply (H p ex Ex).
    + rewrite set_phase_lookup_ne in Hq by exact Hne. apply (H q ex' Hq).
Qed.

Lemma run_exchanges_keyed tr : exchanges_keyed (run initial tr).
Proof.
  apply (run_invariant exchanges_keyed step_exchanges_keyed).
  intros p ex H. discriminate.
Qed.

(** X14.  Only accepted responses are cached.  Whatever has happened since the
    server started, every entry of the cache holds a text of at least 50
    characters, and that text is the response with which an exchange was
    fulfilled whose prompt text has the fingerprint the entry is stored
    under; a failed exchange, or a response that was too short, leaves no
    entry. *)
Theorem cache_holds_fulfilled_responses (tr : list event) (k : list N)
    (e : cache_entry)
    (Hcached : responseCache (run initial tr) !! k = Some e) :
  (50 <= length (response e))%nat /\
  exists p ex, exchanges (run initial tr) !! p = Some ex
               /\ generateCacheKey (promptText (ex_prompt ex)) = k
               /\ ex_phase ex = Fulfilled (response e).
Proof.
  assert (H : cache_sound (run initial tr)).
  { apply (run_invariant cache_sound step_cache_sound).
    intros k0 e0 Hk. cbn in Hk. rewrite lookup_empty in Hk. discriminate. }
  destruct (H k e Hcached) as (Hlen & p & ex & Hp & Hkey & Hph).
  split; [exact Hlen|]. exists p, ex. split; [exact Hp|]. split; [|exact Hph].
  rewrite <- (run_exchanges_keyed tr p ex Hp). exact Hkey.
Qed.

Lemma cache_holds_fulfilled_responses_witness :
  (50 <= length sample_response)%nat /\
  exists p ex,
    exchanges (run initial [GenerateMcqs (request (js "a") (js "mcq")) 0;
                            PromptSent 0;
                            RaceSettled 0 (Return sample_response) 1000]) !! p
    = Some ex
    /\ generateCacheKey (promptText (ex_prompt ex)) = generateCacheKey (js "a")
    /\ ex_phase ex = Fulfilled sample_response.
Proof.
  apply (cache_holds_fulfilled_responses
           [GenerateMcqs (request (js "a") (js "mcq")) 0; PromptSent 0;
            RaceSettled 0 (Return sample_response) 1000]
           (generateCacheKey (js "a"))
           {| response := sample_response; timestamp := 1000 |}).
  vm_compute. reflexivity.
Defined.

(** *** A chat reset while an exchange is in flight *)

(** X15.  [/api/reset-chat] empties the cache and forgets the active request,
    but it does not cancel an exchange that waits for its response: when
    the response arrives, the exchange is fulfilled, its callers resume as
    they would have without the reset, and the response becomes the one
    entry of the cache. *)
Theorem chat_reset_does_not_cancel (st : state) (p : nat) (ex : exchange)
    (r : list N) (now : Z)
    (Hinit : isInitialized st = true)
    (Hex : exchanges st !! p = Some ex)
    (Hphase : ex_phase ex = AwaitingResponse)
    (Hlong : (50 <= length r)%nat) :
  let reset := step st ChatReset in
  let st' := step reset (RaceSettled p (Return r) now) in
  responseCache reset = ∅ /\ activeRequest reset = None /\
  exchanges reset = exchanges st /\ calls reset = calls st /\
  phase_of st' p = Some (Fulfilled r) /\
  responseCache st' = {[ ex_key ex := {| response := r; timestamp := now |} ]} /\
  calls st' = resumed p (Return r) now <$> calls st /\
  calls st' = calls (step st (RaceSettled p (Return r) now)).
Proof.
  intros reset st'.
  assert (Ereset : reset = clear_active (set_cache st ∅))
    by (subst reset; cbn [step]; rewrite Hinit; reflexivity).
  assert (Est : forall s, exchanges s = exchanges st ->
            step s (RaceSettled p (Return r) now)
            = settle (set_cache (set_phase s p (Fulfilled r))
                        (<[ex_key ex := {| response := r; timestamp := now |}]>
                           (responseCache s))) p (Return r) now).
  { intros s Es. cbn [step]. rewrite Es, Hex, Hphase.
    destruct (Nat.ltb_spec (length r) 50); [lia|reflexivity]. }
  assert (E' : st' = settle (set_cache (set_phase reset p (Fulfilled r))
                               (<[ex_key ex := {| response := r; timestamp := now |}]>
                                  (responseCache reset))) p (Return r) now).
  { subst st'. apply Est. rewrite Ereset. reflexivity. }
  repeat split; try (rewrite Ereset; reflexivity).
  - rewrite E'. unfold phase_of. rewrite ServerFacts.settle_exchanges.
    cbn [exchanges set_cache].
    rewrite (set_phase_lookup reset p (Fulfilled r) ex)
      by (rewrite Ereset; exact Hex).
    reflexivity.
  - rewrite E', ServerFacts.settle_cache, Ereset. cbn [responseCache set_cache].
    apply insert_empty.
  - rewrite E', ServerFacts.settle_calls, Ereset. reflexivity.
  - rewrite E', (Est st eq_refl), !ServerFacts.settle_calls, Ereset. reflexivity.
Qed.

Lemma chat_reset_does_not_cancel_witness :
  let st := waiting_state in
  let ex := {| ex_key := generateCacheKey (js "a");
               ex_prompt := {| systemPrompt := McqPrompt 10; promptText := js "a" |};
               ex_domDelayMs := 1000; ex_phase := AwaitingResponse |} in
  let reset := step st ChatReset in
  let st' := step reset (RaceSettled 0 (Return sample_response) 1000) in
  responseCache reset = ∅ /\ activeRequest reset = None /\
  exchanges reset = exchanges st /\ calls reset = calls st /\
  phase_of st' 0 = Some (Fulfilled sample_response) /\
  responseCache st'
  = {[ ex_key ex := {| response := sample_response; timestamp := 1000 |} ]} /\
  calls st' = resumed 0 (Return sample_response) 1000 <$> calls st /\
  calls st' = calls (step st (RaceSettled 0 (Return sample_response) 1000)).
Proof.
  assert (Hinit : isInitialized waiting_state = true) by (vm_compute; reflexivity).
  assert (Hex : exchanges waiting_state !! 0%nat
                = Some {| ex_key := generateCacheKey (js "a");
                          ex_prompt := {| systemPrompt := McqPrompt 10;
                                          promptText := js "a" |};
                          ex_domDelayMs := 1000; ex_phase := AwaitingResponse |})
    by (vm_compute; reflexivity).
  assert (Hlong : (50 <= length sample_response)%nat) by (vm_compute; lia).
  exact (chat_reset_does_not_cancel waiting_state 0 _ sample_response 1000
           Hinit Hex eq_refl Hlong).
Defined.

(** *** Prompts, exchanges and calls *)

Lemma started_alter (f : exchange -> exchange) p (l : list exchange) ex :
  l !! p = Some ex -> started (f ex) = true ->
  length (List.filter started (alter f p l))
  = (length (List.filter started l) + (if started ex then 0 else 1))%nat.
Proof.
  revert p. induction l as [|x l IH]; intros p Hp Hf; [destruct p; discriminate|].
  destruct p as [|p].
  - injection Hp as ->. cbn [alter list_alter List.filter]. rewrite Hf.
    destruct (started ex); cbn [length]; lia.
  - change (alter f (S p) (x :: l)) with (x :: alter f p l).
    cbn [List.filter]. specialize (IH p Hp Hf).
    destruct (started x); cbn [length]; lia.
Qed.

Lemma set_phase_started st p ph ex :
  exchanges st !! p = Some ex -> ph <> Preparing ->
  length (List.filter started (exchanges (set_phase st p ph)))
  = (length (List.filter started (exchanges st))
     + (if started ex then 0 else 1))%nat.
Proof.
  intros Hp Hph. unfold set_phase. cbn [exchanges set_exchanges].
  apply started_alter; [exact Hp|].
  unfold started. cbn. destruct ph; congruence.
Qed.

Lemma set_phase_prompt st p ph q ex :
  exchanges st !! q = Some ex ->
  exists ex', exchanges (set_phase st p ph) !! q = Some ex'
              /\ ex_prompt ex' = ex_prompt ex.
Proof.
  intros Hq. destruct (decide (q = p)) as [->|Hne].
  - eexists. split; [apply set_phase_lookup, Hq|reflexivity].
  - exists ex. split; [rewrite set_phase_lookup_ne by exact Hne; exact Hq|reflexivity].
Qed.

Lemma set_phase_length st p ph :
  length (exchanges (set_phase st p ph)) = length (exchanges st).
Proof. unfold set_phase. cbn [exchanges set_exchanges]. apply length_alter. Qed.

Lemma prompts_accounted_fields st st' :
  page_input st' = page_input st -> exchanges st' = exchanges st ->
  length (calls st') = length (calls st) ->
  prompts_accounted st -> prompts_accounted st'.
Proof.
  unfold prompts_accounted. intros -> -> ->. trivial.
Qed.

(** A phase change that sends no prompt. *)
Lemma prompts_accounted_set_phase st p ph ex :
  exchanges st !! p = Some ex -> ph <> Preparing ->
  prompts_accounted st -> prompts_accounted (set_phase st p ph).
Proof.
  intros Hp Hph (H1 & H2 & H3). unfold prompts_accounted.
  rewrite (set_phase_started st p ph ex Hp Hph), set_phase_length.
  cbn [page_input calls set_phase set_exchanges].
  split; [lia|]. split; [exact H2|].
  eapply Forall_impl; [exact H3|]. intros pr (q & ex' & Hq & Hpr).
  destruct (set_phase_prompt st p ph q ex' Hq) as (ex'' & Hq' & Hpr').
  exists q, ex''. split; [exact Hq'|congruence].
Qed.

Lemma filter_started_snoc (l : list exchange) ex :
  ex_phase ex = Preparing ->
  List.filter started (l ++ [ex]) = List.filter started l.
Proof.
  intros H. rewrite List.filter_app. cbn [List.filter]. unfold started at 2.
  rewrite H. apply app_nil_r.
Qed.

Lemma step_prompts_accounted st ev :
  prompts_accounted st -> prompts_accounted (step st ev).
Proof.
  intros H.
  destruct ev as [bd now|now|now| |p|p now|p o now|p now|c now]; cbn [step].
  - destruct (generate_mcqs_fields st bd now) as (_ & Hp & Hx).
    destruct (generate_mcqs_calls st bd now) as (c & Hc & _).
    destruct H as (H1 & H2 & H3). unfold prompts_accounted.
    rewrite Hp, Hc, length_app. cbn [length].
    destruct Hx as [-> |(ex & -> & Hph & _)].
    + split; [exact H1|]. split; [lia|exact H3].
    + rewrite (filter_started_snoc _ ex Hph), length_app. cbn [length].
      split; [exact H1|]. split; [lia|].
      eapply Forall_impl; [exact H3|]. intros pr (q & ex' & Hq & Hpr).
      exists q, ex'. split; [apply lookup_app_l_Some, Hq|exact Hpr].
  - destruct (isPaused st); [exact H|].
    revert H. apply prompts_accounted_fields; reflexivity.
  - destruct (isPaused st); [|exact H].
    revert H. apply prompts_accounted_fields; reflexivity.
  - destruct (isInitialized st); [|exact H].
    revert H. apply prompts_accounted_fields; reflexivity.
  - destruct (exchanges st !! p) as [ex|] eqn:Ex; [|exact H].
    destruct (ex_phase ex) eqn:Ep; try exact H.
    destruct H as (H1 & H2 & H3). unfold prompts_accounted.
    cbn [page_input calls exchanges set_page_input].
    rewrite (set_phase_started st p AwaitingResponse ex Ex) by discriminate.
    rewrite set_phase_length, length_app. unfold started at 2. rewrite Ep.
    cbn [length calls set_phase set_exchanges].
    split; [lia|]. split; [exact H2|].
    apply Forall_app. split.
    + eapply Forall_impl; [exact H3|]. intros pr (q & ex' & Hq & Hpr).
      destruct (set_phase_prompt st p AwaitingResponse q ex' Hq) as (ex'' & Hq' & Hpr').
      exists q, ex''. split; [exact Hq'|congruence].
    + constructor; [|constructor].
      eexists p, _. split; [apply (set_phase_lookup st p AwaitingResponse ex Ex)|].
      reflexivity.
  - destruct (phase_of st p) as [[| |e until|r|e]|] eqn:Ep; try exact H.
    apply phase_of_lookup in Ep. destruct Ep as (ex & Ex & Ep).
    apply (prompts_accounted_set_phase st p _ ex Ex); [discriminate|exact H].
  - destruct (exchanges st !! p) as [ex|] eqn:Ex; [|exact H].
    destruct (ex_phase ex) eqn:Ep; try exact H.
    destruct o as [r|e];
      [|apply (prompts_accounted_set_phase st p _ ex Ex); [discriminate|exact H]].
    destruct (length r <? 50)%nat;
      [apply (prompts_accounted_set_phase st p _ ex Ex); [discriminate|exact H]|].
    eapply prompts_accounted_fields;
      [apply ServerFacts.settle_page_input|apply ServerFacts.settle_exchanges| |].
    + rewrite ServerFacts.settle_calls, length_fmap. reflexivity.
    + apply (prompts_accounted_fields (set_phase st p (Fulfilled r)));
        try reflexivity.
      apply (prompts_accounted_set_phase st p _ ex Ex); [discriminate|exact H].
  - destruct (phase_of st p) as [[| |e until|r|e]|] eqn:Ep; try exact H.
    destruct (until <=? now); [|exact H].
    apply phase_of_lookup in Ep. destruct Ep as (ex & Ex & Ep).
    eapply prompts_accounted_fields;
      [apply ServerFacts.settle_page_input|apply ServerFacts.settle_exchanges| |].
    + rewrite ServerFacts.settle_calls, length_fmap. reflexivity.
    + apply (prompts_accounted_set_phase st p _ ex Ex); [discriminate|exact H].
  - destruct (calls st !! c) as [[why|q|q key|r until key|fin]|]; try exact H.
    destruct (until <=? now); [|exact H].
    revert H. apply prompts_accounted_fields;
      destruct (decide _); cbn; try reflexivity; apply length_insert.
Qed.

Lemma filter_started_length (l : list exchange) :
  (length (List.filter started l) <= length l)%nat.
Proof.
  induction l as [|x l IH]; [reflexivity|]. cbn [List.filter].
  destruct (started x); cbn [length]; lia.
Qed.

(** X16.  The page is written to at most once per exchange and an exchange is
    started at most once per request.  Whatever has happened since the
    server started, the prompts sent do not outnumber the exchanges, the
    exchanges do not outnumber the requests received, and every prompt
    sent is the prompt of one of the exchanges. *)
Theorem prompts_sent_are_accounted (tr : list event) :
  let st := run initial tr in
  (length (page_input st) <= length (exchanges st))%nat /\
  (length (exchanges st) <= length (calls st))%nat /\
  forall i pr, page_input st !! i = Some pr ->
    exists p ex, exchanges st !! p = Some ex /\ ex_prompt ex = pr.
Proof.
  intros st.
  assert (H : prompts_accounted st).
  { apply (run_invariant prompts_accounted step_prompts_accounted).
    repeat split; [reflexivity|reflexivity|constructor]. }
  destruct H as (H1 & H2 & H3).
  pose proof (filter_started_length (exchanges st)).
  split; [lia|]. split; [exact H2|].
  intros i pr Hi. rewrite Forall_lookup in H3. apply (H3 i pr Hi).
Qed.

(** *** The owner of the active request *)

Lemma owner_resumed_return k p r now c :
  owner_of k (resumed p (Return r) now c) = owner_of k c.
Proof.
  unfold resumed. destruct c as [w|q|q key|r0 until key|fin]; try reflexivity;
    destruct (decide (q = p)); reflexivity.
Qed.

Lemma resume_call_text_throw k p e now st c :
  activeRequestText (resume_call p (Throw e) now st c) = Some k ->
  activeRequestText st = Some k
  /\ (owner_of k c = true -> owner_of k (resumed p (Throw e) now c) = true).
Proof.
  unfold resume_call, resumed.
  destruct c as [w|q|q key|r0 until key|fin]; try (intros H; split; [exact H|trivial]).
  - destruct (decide (q = p)); [discriminate|]. intros H. split; [exact H|trivial].
  - destruct (decide (q = p)); [|intros H; split; [exact H|trivial]].
    destruct (decide (activeRequestText st = Some key)) as [Ek|Ek]; [discriminate|].
    cbn. intros H. split; [exact H|]. intros Ho.
    apply bool_decide_eq_true in Ho. subst key. contradiction.
Qed.

Lemma fold_resume_text_throw k p e now l : forall acc,
  activeRequestText (fold_left (resume_call p (Throw e) now) l acc) = Some k ->
  activeRequestText acc = Some k
  /\ forall i c, l !! i = Some c -> owner_of k c = true ->
       owner_of k (resumed p (Throw e) now c) = true.
Proof.
  induction l as [|c0 l IH]; intros acc H; cbn [fold_left] in H.
  - split; [exact H|]. intros i c Hi. discriminate.
  - destruct (IH _ H) as [H1 H2].
    destruct (resume_call_text_throw k p e now acc c0 H1) as [H3 H4].
    split; [exact H3|]. intros [|i] c Hi.
    + injection Hi as <-. exact H4.
    + apply (H2 i c Hi).
Qed.

Lemma active_owned_add st st' c :
  activeRequestText st' = activeRequestText st -> calls st' = calls st ++ [c] ->
  active_owned st -> active_owned st'.
Proof.
  intros Ht Hc H k Hk. rewrite Ht in Hk. destruct (H k Hk) as (i & c0 & Hi & Ho).
  exists i, c0. split; [rewrite Hc; apply lookup_app_l_Some, Hi|exact Ho].
Qed.

Lemma active_owned_fields st st' :
  activeRequestText st' = activeRequestText st -> calls st' = calls st ->
  active_owned st -> active_owned st'.
Proof. intros Ht Hc H k Hk. rewrite Ht in Hk. rewrite Hc. apply (H k Hk). Qed.

Lemma active_owned_cleared st : activeRequestText st = None -> active_owned st.
Proof. intros H k Hk. congruence. Qed.

Lemma sendToGemini_owned st t sp d now :
  active_owned st -> active_owned (sendToGemini st t sp d now).
Proof.
  intros H. unfold sendToGemini. cbn.
  destruct (cleanCache now (responseCache st) !! generateCacheKey t) as [cached|].
  - revert H. apply active_owned_add with (c := Finished (Return (response cached)));
      reflexivity.
  - assert (Hstart : active_owned
              (start_request (set_cache st (cleanCache now (responseCache st)))
                 (generateCacheKey t) t sp d)).
    { intros k Hk. cbn in Hk. injection Hk as <-.
      exists (length (calls st)). eexists. split.
      - cbn. apply list_lookup_middle. reflexivity.
      - cbn. apply bool_decide_eq_true. reflexivity. }
    destruct (activeRequest st) as [q|]; [|exact Hstart].
    destruct (decide _) as [Hd|Hd]; [|exact Hstart].
    unfold await_active.
    destruct (phase_of _ q) as [[| |e u|r|e]|];
      try (revert H; eapply active_owned_add; reflexivity).
    apply active_owned_cleared. reflexivity.
Qed.

Lemma step_active_owned st ev : active_owned st -> active_owned (step st ev).
Proof.
  intros H.
  destruct ev as [bd now|now|now| |p|p now|p o now|p now|c now]; cbn [step].
  - unfold generate_mcqs.
    destruct (text bd) as [[|c0 t]|];
      try (revert H; eapply active_owned_add; reflexivity).
    destruct (negb (isInitialized st));
      [revert H; eapply active_owned_add; reflexivity|].
    destruct (isPaused st); [revert H; eapply active_owned_add; reflexivity|].
    apply sendToGemini_owned, H.
  - destruct (isPaused st); [exact H|].
    revert H. apply active_owned_fields; reflexivity.
  - destruct (isPaused st); [|exact H].
    revert H. apply active_owned_fields; reflexivity.
  - destruct (isInitialized st); [|exact H].
    apply active_owned_cleared. reflexivity.
  - destruct (exchanges st !! p) as [ex|]; [|exact H].
    destruct (ex_phase ex); exact H.
  - destruct (phase_of st p) as [[| |e until|r|e]|]; exact H.
  - destruct (exchanges st !! p) as [ex|]; [|exact H].
    destruct (ex_phase ex); try exact H.
    destruct o as [r|e]; [|exact H].
    destruct (length r <? 50)%nat; [exact H|].
    intros k Hk.
    rewrite (proj2 (ServerFacts.settle_active_return _ _ _ _)) in Hk.
    destruct (H k Hk) as (i & c & Hi & Ho).
    exists i, (resumed p (Return r) now c).
    rewrite ServerFacts.settle_calls, list_lookup_fmap.
    cbn [calls set_cache set_phase set_exchanges].
    rewrite Hi. split; [reflexivity|]. rewrite owner_resumed_return. exact Ho.
  - destruct (phase_of st p) as [[| |e until|r|e]|]; try exact H.
    destruct (until <=? now); [|exact H].
    intros k Hk. unfold settle in Hk.
    destruct (fold_resume_text_throw k p e now _ _ Hk) as [Ht Hres].
    destruct (H k Ht) as (i & c & Hi & Ho).
    exists i, (resumed p (Throw e) now c).
    rewrite ServerFacts.settle_calls, list_lookup_fmap.
    cbn [calls set_phase set_exchanges]. rewrite Hi. split; [reflexivity|].
    apply (Hres i c Hi Ho).
  - destruct (calls st !! c) as [[why|q|q key|r until key|fin]|] eqn:Ec; try exact H.
    destruct (until <=? now); [|exact H].
    destruct (decide (activeRequestText st = Some key)) as [Ek|Ek];
      [apply active_owned_cleared; reflexivity|].
    intros k Hk. cbn in Hk. destruct (H k Hk) as (i & c0 & Hi & Ho).
    exists i, c0. split; [|exact Ho]. cbn.
    rewrite list_lookup_insert_ne; [exact Hi|].
    intros <-. rewrite Ec in Hi. injection Hi as <-. cbn in Ho.
    apply bool_decide_eq_true in Ho. subst key. contradiction.
Qed.

(** X17.  While a fingerprint is recorded as the active request, a caller that
    started an exchange for that fingerprint is still inside
    [sendToGemini], waiting for its promise or in the timer after it.
    So once every caller has left [sendToGemini], nothing is recorded as
    active: a later request cannot attach to a request of the past. *)
Theorem active_request_has_a_live_owner (tr : list event) :
  let st := run initial tr in
  (forall k, activeRequestText st = Some k ->
     exists i c, calls st !! i = Some c /\ owner_of k c = true
                 /\ waiting c = true) /\
  (busy st = false -> activeRequest st = None /\ activeRequestText st = None).
Proof.
  intros st.
  assert (H : active_owned st).
  { apply (run_invariant active_owned step_active_owned).
    apply active_owned_cleared. reflexivity. }
  assert (Hpair : active_paired st).
  { apply (run_invariant active_paired ServerFacts.step_paired).
    split; reflexivity. }
  assert (Hlive : forall k, activeRequestText st = Some k ->
            exists i c, calls st !! i = Some c /\ owner_of k c = true
                        /\ waiting c = true).
  { intros k Hk. destruct (H k Hk) as (i & c & Hi & Ho).
    exists i, c. split; [exact Hi|]. split; [exact Ho|].
    destruct c; try discriminate; reflexivity. }
  split; [exact Hlive|].
  intros Hbusy.
  assert (Hnone : activeRequestText st = None).
  { destruct (activeRequestText st) as [k|] eqn:Ek; [|reflexivity].
    exfalso. destruct (Hlive k eq_refl) as (i & c & Hi & _ & Hw).
    unfold busy in Hbusy.
    assert (Hex : existsb waiting (calls st) = true).
    { apply existsb_exists. exists c. split; [|exact Hw].
      apply list_elem_of_In. apply (list_elem_of_lookup_2 _ i). exact Hi. }
    congruence. }
  split; [apply Hpair, Hnone|exact Hnone].
Qed.

(** *** No caller waits for a settled promise *)










(** *** One attempt per exchange *)




(** X20.  A request for a text whose exchange has failed and sits in the five
    seconds of its error delay is not tried again: while that exchange is
    the active request, the caller attaches to it, no new exchange is
    started and nothing is sent to the page; when the delay is over the
    caller gets the error of the exchange, and the active request is
    cleared. *)
Theorem failing_exchange_is_not_retried (st : state) (t : list N)
    (sp : system_prompt) (d now later : Z) (p : nat) (e : exchange_error)
    (until : Z)
    (Hmiss : cleanCache now (responseCache st) !! generateCacheKey t = None)
    (Hactive : activeRequest st = Some p)
    (Htext : activeRequestText st = Some (generateCacheKey t))
    (Hphase : phase_of st p = Some (ErrorDelay e until))
    (Hlater : until <= later) :
  let attached := sendToGemini st t sp d now in
  let st' := step attached (ErrorDelayElapsed p later) in
  calls attached = calls st ++ [AwaitActive p] /\
  exchanges attached = exchanges st /\
  page_input attached = page_input st /\
  calls st' !! length (calls st) = Some (Finished (Throw e)) /\
  phase_of st' p = Some (Rejected e) /\
  page_input st' = page_input st /\
  activeRequest st' = None.
Proof.
  intros attached st'.
  assert (Ea : attached
               = add_call (set_cache st (cleanCache now (responseCache st)))
                   (AwaitActive p)).
  { subst attached. rewrite (ServerFacts.sendToGemini_attaches st t sp d now p)
      by assumption.
    unfold await_active, phase_of in *. cbn [exchanges set_cache].
    destruct (exchanges st !! p) as [ex|]; [|discriminate].
    cbn in *. injection Hphase as ->. reflexivity. }
  assert (Es : st' = settle (set_phase attached p (Rejected e)) p (Throw e) later).
  { subst st'. cbn [step].
    assert (Hp : phase_of attached p = Some (ErrorDelay e until))
      by (rewrite Ea; exact Hphase).
    rewrite Hp. destruct (Z.leb_spec until later); [reflexivity|lia]. }
  apply phase_of_lookup in Hphase. destruct Hphase as (ex & Ex & Ep).
  repeat split.
  - rewrite Ea. reflexivity.
  - rewrite Ea. reflexivity.
  - rewrite Ea. reflexivity.
  - rewrite Es, ServerFacts.settle_calls, list_lookup_fmap, Ea.
    cbn [calls set_phase set_exchanges add_call set_calls set_cache].
    rewrite list_lookup_middle by reflexivity. cbn.
    destruct (decide (p = p)); [reflexivity|contradiction].
  - rewrite Es. unfold phase_of. rewrite ServerFacts.settle_exchanges.
    rewrite (set_phase_lookup attached p (Rejected e) ex)
      by (rewrite Ea; exact Ex).
    reflexivity.
  - rewrite Es, ServerFacts.settle_page_input, Ea. reflexivity.
  - rewrite Es. unfold settle.
    assert (Hclear : forall l acc,
              (activeRequest acc = None
               \/ exists i, l !! i = Some (AwaitActive p)) ->
              activeRequest (fold_left (resume_call p (Throw e) later) l acc) = None).
    { induction l as [|c l IH]; intros acc [H|[i H]].
      - exact H.
      - discriminate.
      - cbn [fold_left]. apply IH. left. unfold resume_call.
        destruct c as [w|q|q key|r0 u0 key|fin]; try exact H.
        + destruct (decide (q = p)); [reflexivity|exact H].
        + destruct (decide (q = p)); [|exact H].
          destruct (decide _); [reflexivity|exact H].
      - cbn [fold_left]. apply IH. destruct i as [|i].
        + injection H as ->. left. unfold resume_call.
          destruct (decide (p = p)); [reflexivity|contradiction].
        + right. exists i. exact H. }
    apply Hclear. right. exists (length (calls st)).
    rewrite Ea. cbn [calls set_phase set_exchanges add_call set_calls set_cache].
    apply list_lookup_middle. reflexivity.
Qed.

Lemma failing_exchange_is_not_retried_witness :
  calls (step (sendToGemini
                 (step waiting_state (RaceSettled 0 (Throw OverallTimeout) 1000))
                 (js "a") (McqPrompt 10) 1000 2000)
           (ErrorDelayElapsed 0 6000))
    !! length (calls (step waiting_state
                        (RaceSettled 0 (Throw OverallTimeout) 1000)))
  = Some (Finished (Throw OverallTimeout)).
Proof.
  assert (Hmiss : cleanCache 2000
                    (responseCache (step waiting_state
                                      (RaceSettled 0 (Throw OverallTimeout) 1000)))
                  !! generateCacheKey (js "a") = None) by (vm_compute; reflexivity).
  assert (Hactive : activeRequest (step waiting_state
                                     (RaceSettled 0 (Throw OverallTimeout) 1000))
                    = Some 0%nat) by (vm_compute; reflexivity).
  assert (Htext : activeRequestText (step waiting_state
                                       (RaceSettled 0 (Throw OverallTimeout) 1000))
                  = Some (generateCacheKey (js "a"))) by (vm_compute; reflexivity).
  assert (Hphase : phase_of (step waiting_state
                               (RaceSettled 0 (Throw OverallTimeout) 1000)) 0
                   = Some (ErrorDelay OverallTimeout 6000))
    by (vm_compute; reflexivity).
  destruct (failing_exchange_is_not_retried
              (step waiting_state (RaceSettled 0 (Throw OverallTimeout) 1000))
              (js "a") (McqPrompt 10) 1000 2000 6000 0 OverallTimeout 6000
              Hmiss Hactive Htext Hphase ltac:(lia)) as (_ & _ & _ & H & _).
  exact H.
Defined.

End ReachFacts.

(** ** The status code of a failed request *)

Module FailureFacts.

Import Failure.

Local Open Scope N_scope.

Lemma decimal_digits_digits fuel : forall n acc,
  forallb is_digit acc = true ->
  forallb is_digit (decimal_digits fuel n acc) = true.
Proof.
  induction fuel as [|f IH]; intros n acc Hacc; [exact Hacc|].
  cbn [decimal_digits].
  assert (Hd : is_digit (48 + N.of_nat (n mod 10)) = true).
  { pose proof (Nat.mod_upper_bound n 10 ltac:(lia)) as B. unfold is_digit.
    apply andb_true_iff. split; apply N.leb_le; lia. }
  destruct (n <? 10)%nat.
  - cbn [forallb]. rewrite Hd. exact Hacc.
  - apply IH. cbn [forallb]. rewrite Hd. exact Hacc.
Qed.

Lemma decimal_digits_nonempty fuel : forall n acc,
  acc <> [] -> decimal_digits fuel n acc <> [].
Proof.
  induction fuel as [|f IH]; intros n acc Hacc; [exact Hacc|].
  cbn [decimal_digits]. destruct (n <? 10)%nat; [discriminate|].
  apply IH. discriminate.
Qed.

Lemma decimal_shape n : forallb is_digit (decimal n) = true /\ decimal n <> [].
Proof.
  unfold decimal. split.
  - apply decimal_digits_digits. reflexivity.
  - cbn [decimal_digits]. destruct (n <? 10)%nat; [discriminate|].
    apply decimal_digits_nonempty. discriminate.
Qed.

(** A word that matches at the head of [a ++ x :: rest] matches within
    [a] or has the character [x]. *)
Lemma starts_with_across w : forall a x rest,
  starts_with w (a ++ x :: rest) = true -> starts_with w a = true \/ In x w.
Proof.
  induction w as [|q w IH]; intros a x rest H; [left; reflexivity|].
  destruct a as [|y a].
  - cbn [app starts_with] in H. apply andb_true_iff in H. destruct H as [Hq _].
    apply N.eqb_eq in Hq. right. left. exact Hq.
  - cbn [app starts_with] in H. apply andb_true_iff in H. destruct H as [Hq H].
    destruct (IH a x rest H) as [E|E].
    + left. cbn [starts_with]. rewrite Hq, E. reflexivity.
    + right. right. exact E.
Qed.

(** A word without digits is not found in [a ++ d ++ b], [d] made of
    digits, unless it is found in [a] or in [b]. *)
Lemma includes_around_digits w a d b :
  w <> [] -> forallb not_digit w = true ->
  forallb is_digit d = true -> d <> [] ->
  string_includes w a = false -> string_includes w b = false ->
  string_includes w (a ++ d ++ b) = false.
Proof.
  intros Hw Hnd Hd Hne Ha Hb. unfold string_includes in *.
  assert (Hdigit : forall x, is_digit x = true -> ~ In x w).
  { intros x Hx Hin. rewrite forallb_forall in Hnd. specialize (Hnd x Hin).
    unfold not_digit in Hnd. rewrite Hx in Hnd. discriminate. }
  assert (Hlit : forall s, starts_with w s = false -> match_lit w s = None).
  { intros s E. unfold match_lit. rewrite E. reflexivity. }
  assert (Hdb : occurs (match_lit w) (d ++ b) = false).
  { clear Hne. induction d as [|x d IH]; [exact Hb|].
    cbn [forallb] in Hd. apply andb_true_iff in Hd. destruct Hd as [Hx Hd].
    cbn [app occurs]. rewrite Hlit; [apply IH, Hd|].
    destruct w as [|q w']; [congruence|]. cbn [starts_with].
    destruct (N.eqb_spec q x) as [->|]; [|reflexivity].
    exfalso. apply (Hdigit x Hx). left. reflexivity. }
  destruct d as [|x d]; [congruence|].
  cbn [forallb] in Hd. apply andb_true_iff in Hd. destruct Hd as [Hx _].
  induction a as [|y a IH]; [exact Hdb|].
  cbn [occurs] in Ha. cbn [app occurs].
  destruct (match_lit w (y :: a)) as [[|k]|] eqn:E; try discriminate.
  - exfalso. unfold match_lit in E. destruct (starts_with w (y :: a)); [|discriminate].
    destruct w; [congruence|discriminate].
  - rewrite Hlit; [apply IH, Ha|].
    destruct (starts_with w (y :: a ++ (x :: d) ++ b)) eqn:Es; [|exact Es].
    exfalso. change (y :: a ++ (x :: d) ++ b) with ((y :: a) ++ x :: d ++ b) in Es.
    apply starts_with_across in Es. destruct Es as [Es|Es].
    + unfold match_lit in E. rewrite Es in E. discriminate.
    + apply (Hdigit x Hx Es).
Qed.

Lemma classify_around_digits a d b :
  forallb is_digit d = true -> d <> [] ->
  string_includes (js "timeout") a || string_includes (js "Timeout") a
  || string_includes (js "JSON") a || string_includes (js "parse") a
  || string_includes (js "not initialized") a
  || string_includes (js "login") a = false ->
  string_includes (js "timeout") b || string_includes (js "Timeout") b
  || string_includes (js "JSON") b || string_includes (js "parse") b
  || string_includes (js "not initialized") b
  || string_includes (js "login") b = false ->
  classify (a ++ d ++ b) = (500%Z, GENERATION_ERROR).
Proof.
  intros Hd Hne Ha Hb.
  repeat (apply orb_false_iff in Ha; destruct Ha as [Ha ?]).
  repeat (apply orb_false_iff in Hb; destruct Hb as [Hb ?]).
  unfold classify.
  rewrite !includes_around_digits by (first [assumption|discriminate|reflexivity]).
  reflexivity.
Qed.

(** X21.  The errors that [sendToGemini] words itself and the answer of the
    handler: the overall timeout is answered with status 504 and code
    [TIMEOUT]; a response that is too short, an extraction that is too
    short and a page without a message are answered with status 500 and
    code [GENERATION_ERROR], whatever the length named in the message.
    None of them is answered as [INVALID_RESPONSE] or
    [NOT_INITIALIZED]. *)
Theorem own_errors_are_classified (e : Server.exchange_error) (m : list N)
    (Hmessage : error_message e = Some m) :
  classify m = match e with
               | Server.OverallTimeout => (504%Z, TIMEOUT)
               | _ => (500%Z, GENERATION_ERROR)
               end.
Proof.
  destruct e as [|[cause]| |n]; cbn [error_message] in Hmessage.
  - discriminate.
  - destruct cause as [| | |n]; cbn [wait_message] in Hmessage; try discriminate.
    + injection Hmessage as <-. vm_compute. reflexivity.
    + injection Hmessage as <-.
      destruct (decimal_shape n) as [Hd Hne].
      change (classify (js "Failed to get response: Response too short or empty ("
                        ++ decimal n ++ js " characters)")
              = (500%Z, GENERATION_ERROR)).
      apply classify_around_digits; try assumption; vm_compute; reflexivity.
  - injection Hmessage as <-. vm_compute. reflexivity.
  - injection Hmessage as <-. destruct (decimal_shape n) as [Hd Hne].
    change (classify (js "Invalid response (too short: " ++ decimal n
                      ++ js " characters)")
            = (500%Z, GENERATION_ERROR)).
    apply classify_around_digits; try assumption; vm_compute; reflexivity.
Qed.

Lemma own_errors_are_classified_witness :
  error_message (Server.InvalidResponse 12)
  = Some (js "Invalid response (too short: 12 characters)") /\
  classify (js "Invalid response (too short: 12 characters)")
  = (500%Z, GENERATION_ERROR).
Proof.
  split; [vm_compute; reflexivity|].
  apply (own_errors_are_classified (Server.InvalidResponse 12)).
  vm_compute. reflexivity.
Defined.

End FailureFacts.

(** ** The rate limiter *)

Module LimiterFacts.

Import Limiter.

Local Open Scope Z_scope.

Lemma serve_count (l : limiter) (now : Z) (n : Z) :
  0 <= n -> requestCount l = n mod 50 -> lastCooldownTime l = None ->
  requestCount (serve l now) = (n + 1) mod 50
  /\ lastCooldownTime (serve l now) = None.
Proof.
  intros Hn Hc Hl. unfold serve, checkAndApplyCooldown, MAX_REQUESTS_BEFORE_COOLDOWN.
  rewrite Hc, Hl.
  pose proof (Z.mod_pos_bound n 50 ltac:(lia)) as B.
  pose proof (Z.div_mod n 50 ltac:(lia)) as D.
  destruct (Z.leb_spec 50 (n mod 50 + 1)) as [H|H]; cbn.
  - split; [|reflexivity]. apply (Z.mod_unique_pos _ _ (n / 50 + 1)); lia.
  - split; [|reflexivity]. apply (Z.mod_unique_pos _ _ (n / 50)); lia.
Qed.

Lemma serve_all_count (times : list Z) :
  requestCount (fold_left serve times idle) = Z.of_nat (length times) mod 50
  /\ lastCooldownTime (fold_left serve times idle) = None.
Proof.
  induction times as [|t times IH] using rev_ind; [split; reflexivity|].
  rewrite fold_left_app, length_app. cbn [fold_left length].
  destruct IH as [Hc Hl].
  replace (Z.of_nat (length times + 1)) with (Z.of_nat (length times) + 1) by lia.
  apply serve_count; [lia|exact Hc|exact Hl].
Qed.

(** X22.  In serial use, where one response is handled to its end before the
    next, the counter never reaches 50 between responses: after [n]
    responses it stands at [n mod 50] and no cooldown is recorded, and the
    next response is held for the five minutes exactly when it is the
    50th, 100th, ... *)
Theorem every_fiftieth_response_is_held (times : list Z) (now : Z) :
  let l := fold_left serve times idle in
  requestCount l = Z.of_nat (length times) mod 50 /\
  lastCooldownTime l = None /\
  (snd (checkAndApplyCooldown l now) = true
   <-> Z.of_nat (S (length times)) mod 50 = 0).
Proof.
  intros l. destruct (serve_all_count times) as [Hc Hl]. fold l in Hc, Hl.
  split; [exact Hc|]. split; [exact Hl|].
  unfold checkAndApplyCooldown, MAX_REQUESTS_BEFORE_COOLDOWN. rewrite Hc.
  set (n := Z.of_nat (length times)).
  replace (Z.of_nat (S (length times))) with (n + 1) by lia.
  pose proof (Z.mod_pos_bound n 50 ltac:(lia)) as B.
  pose proof (Z.div_mod n 50 ltac:(lia)) as D.
  destruct (Z.leb_spec 50 (n mod 50 + 1)) as [H|H]; cbn [snd].
  - split; [intros _|reflexivity].
    symmetry. apply (Z.mod_unique_pos _ _ (n / 50 + 1)); lia.
  - split; [discriminate|]. intros E. exfalso.
    assert (E' : (n + 1) mod 50 = n mod 50 + 1)
      by (symmetry; apply (Z.mod_unique_pos _ _ (n / 50)); lia).
    lia.
Qed.

Lemma ceil_div_bounds (a b : Z) :
  0 < b -> ceil_div a b * b - b < a <= ceil_div a b * b.
Proof.
  intros Hb. unfold ceil_div.
  pose proof (Z.div_mod (- a) b ltac:(lia)) as D.
  pose proof (Z.mod_pos_bound (- a) b Hb) as B. nia.
Qed.

(** X23.  What [/api/cooldown-status] reports when the clock has not gone back
    behind the start of the cooldown: the requests left and the requests
    counted add up to 50; the time left is between 0 and five minutes and
    is 0 when no cooldown is recorded; the minutes are the time left
    rounded up, at most 5. *)
Theorem cooldown_status_is_bounded (l : limiter) (now : Z)
    (Hclock : forall t, lastCooldownTime l = Some t -> t <= now) :
  let s := cooldown_status_at l now in
  requestsUntilCooldown s + status_requestCount s = 50 /\
  0 <= cooldownRemainingMs s <= 300000 /\
  (inCooldown s = false -> cooldownRemainingMs s = 0) /\
  0 <= cooldownRemainingMinutes s <= 5 /\
  cooldownRemainingMinutes s * 60000 - 60000 < cooldownRemainingMs s
    <= cooldownRemainingMinutes s * 60000.
Proof.
  intros s. subst s. unfold cooldown_status_at. cbn.
  unfold MAX_REQUESTS_BEFORE_COOLDOWN, COOLDOWN_DURATION_MS.
  set (remaining := match lastCooldownTime l with
                    | Some t => Z.max 0 (5 * 60 * 1000 - (now - t))
                    | None => 0
                    end).
  assert (Hr : 0 <= remaining <= 300000).
  { subst remaining. destruct (lastCooldownTime l) as [t|] eqn:E; [|lia].
    specialize (Hclock t eq_refl). lia. }
  pose proof (ceil_div_bounds remaining 60000 ltac:(lia)) as Hc.
  split; [lia|]. split; [exact Hr|]. split.
  - subst remaining. destruct (lastCooldownTime l); [discriminate|reflexivity].
  - split; [lia|exact Hc].
Qed.

Lemma cooldown_status_is_bounded_witness :
  cooldownRemainingMs
    (cooldown_status_at (fst (checkAndApplyCooldown
                                {| requestCount := 49; lastCooldownTime := None |}
                                1000)) 91000) = 210000 /\
  0 <= cooldownRemainingMinutes
         (cooldown_status_at (fst (checkAndApplyCooldown
                                     {| requestCount := 49; lastCooldownTime := None |}
                                     1000)) 91000) <= 5.
Proof.
  split; [reflexivity|].
  apply (cooldown_status_is_bounded
           (fst (checkAndApplyCooldown
                   {| requestCount := 49; lastCooldownTime := None |} 1000)) 91000).
  intros t [= <-]. lia.
Defined.

End LimiterFacts.
